(** * TripGenius: the itinerary planner page and its server action

    A shallow embedding of [src/app/page.tsx], [src/app/actions.ts] and of
    the input schema of [src/ai/flows/generate-personalized-itinerary.ts],
    together with the platform functions the page relies on (string
    splitting, JSON, base64, the query string, dates, local storage). *)

From stdpp Require Import gmap.
From Stdlib Require Import ZArith NArith List String Ascii Bool Lia.
Import ListNotations.

Local Open Scope N_scope.

(** ** JavaScript strings

    A JavaScript string is a sequence of UTF-16 code units. *)

Definition jsstring := list N.

Definition lit (s : string) : jsstring :=
  List.map N_of_ascii (list_ascii_of_string s).
Arguments lit s%_string.

Fixpoint str_eqb (a b : jsstring) : bool :=
  match a, b with
  | [], [] => true
  | x :: a', y :: b' => (x =? y) && str_eqb a' b'
  | _, _ => false
  end.

(** [Boolean(s)] for a string: the empty string is the only falsy one. *)
Definition truthy_str (s : jsstring) : bool :=
  match s with [] => false | _ :: _ => true end.

(** ** [String.prototype.split(', ')] and [Array.prototype.join(', ')] *)

Definition is_comma_space (c d : N) : bool := (c =? 44) && (d =? 32).

Definition cons_head (c : N) (l : list jsstring) : list jsstring :=
  match l with
  | [] => [[c]]
  | t :: ts => (c :: t) :: ts
  end.

(** The separator is searched from the left; matches do not overlap; the
    empty string splits into one empty piece. *)
Fixpoint split_comma_space (s : jsstring) : list jsstring :=
  match s with
  | [] => [[]]
  | c :: s' =>
      match s' with
      | d :: s'' =>
          if is_comma_space c d then [] :: split_comma_space s''
          else cons_head c (split_comma_space s')
      | [] => cons_head c (split_comma_space s')
      end
  end.

Fixpoint join_comma_space (l : list jsstring) : jsstring :=
  match l with
  | [] => []
  | [x] => x
  | x :: l' => x ++ 44 :: 32 :: join_comma_space l'
  end.

(** [Array.prototype.includes] on an array of strings. *)
Definition includes (l : list jsstring) (x : jsstring) : bool :=
  existsb (str_eqb x) l.

(** ** [toggleInterest] (page.tsx)

    The function reads the [interests] field of the form, and writes the
    new value back; [toggleInterest] below is the map from the old field
    value to the new one. *)

Definition INTERESTS : list jsstring :=
  [ lit "Beaches"; lit "Food"; lit "Shopping"; lit "History"; lit "Culture";
    lit "Adventure"; lit "Nature"; lit "Nightlife"; lit "Religious";
    lit "Photography" ].

Definition toggleInterest (interest : jsstring) (interests : jsstring) : jsstring :=
  let currentInterests := List.filter truthy_str (split_comma_space interests) in
  let newInterests :=
    if includes currentInterests interest
    then List.filter (fun i => negb (str_eqb i interest)) currentInterests
    else currentInterests ++ [interest] in
  join_comma_space newInterests.

(** An entry of a [", "]-separated list: not empty, and the separator does
    not occur inside it. *)
Fixpoint has_comma_space (s : jsstring) : bool :=
  match s with
  | c :: s' =>
      match s' with
      | d :: _ => is_comma_space c d || has_comma_space s'
      | [] => false
      end
  | [] => false
  end.

Definition entry (s : jsstring) : Prop :=
  s <> [] /\ has_comma_space s = false.

(** ** Numbers

    The numbers of the model are the integers and the three values that
    are not finite.  (A double with a fractional part is not represented;
    the counts of days and travelers that the form handles are whole.) *)

Inductive number :=
| NaN
| Infinity
| NegInfinity
| Int (z : Z).

(** [a <= b] on numbers; every comparison with [NaN] is false. *)
Definition num_leb (a b : number) : bool :=
  match a, b with
  | NaN, _ | _, NaN => false
  | NegInfinity, _ => true
  | _, Infinity => true
  | Int x, Int y => (x <=? y)%Z
  | _, _ => false
  end.

Definition num_is_nan (a : number) : bool :=
  match a with NaN => true | _ => false end.

(** ** Decimal digits *)

Definition digit (d : Z) : N := 48 + Z.to_N d.

(** The [k] low decimal digits of [z], most significant first. *)
Fixpoint pad_digits (k : nat) (z : Z) : jsstring :=
  match k with
  | O => []
  | S k' => pad_digits k' (z / 10) ++ [digit (z mod 10)]
  end.

(** The decimal numeral of a natural number, without leading zeros. *)
Fixpoint digits_fuel (fuel : nat) (z : Z) : jsstring :=
  match fuel with
  | O => []
  | S f => if (z <? 10)%Z then [digit z]
           else digits_fuel f (z / 10) ++ [digit (z mod 10)]
  end.

Definition digits_of (z : Z) : jsstring :=
  digits_fuel (S (Z.to_nat (Z.log2 z))) z.

(** [Number.prototype.toString] at an integer. *)
Definition int_to_string (z : Z) : jsstring :=
  if (z <? 0)%Z then 45 :: digits_of (- z) else digits_of z.

Definition number_to_string (n : number) : jsstring :=
  match n with
  | NaN => lit "NaN"
  | Infinity => lit "Infinity"
  | NegInfinity => lit "-Infinity"
  | Int z => int_to_string z
  end.

Definition is_digit (c : N) : bool := (48 <=? c) && (c <=? 57).
Definition digit_val (c : N) : Z := Z.of_N (c - 48).

(** Reads the longest run of decimal digits at the head of [s], continuing
    the value [acc]. *)
Fixpoint read_digits (acc : Z) (s : jsstring) : Z * jsstring :=
  match s with
  | c :: s' => if is_digit c then read_digits (10 * acc + digit_val c) s'
               else (acc, s)
  | [] => (acc, [])
  end.

(** Reads exactly [k] decimal digits. *)
Fixpoint read_fixed (k : nat) (acc : Z) (s : jsstring) : option (Z * jsstring) :=
  match k with
  | O => Some (acc, s)
  | S k' =>
      match s with
      | c :: s' => if is_digit c then read_fixed k' (10 * acc + digit_val c) s'
                   else None
      | [] => None
      end
  end.

(** ** Dates

    A [Date] that is valid is identified by its calendar fields in UTC,
    the ones [toISOString] prints; the years are the whole years inside
    the range of time values. *)

Record datetime := {
  year : Z; month : Z; day_of_month : Z;
  hours : Z; minutes : Z; seconds : Z; milliseconds : Z
}.

Inductive date :=
| InvalidDate
| ValidDate (t : datetime).

Definition leap_year (y : Z) : bool :=
  ((y mod 4 =? 0) && negb (y mod 100 =? 0) || (y mod 400 =? 0))%Z.

Definition days_in_month (y m : Z) : Z :=
  if (m =? 2)%Z then (if leap_year y then 29 else 28)
  else if ((m =? 4) || (m =? 6) || (m =? 9) || (m =? 11))%Z then 30
  else 31.

Definition in_range (lo x hi : Z) : bool := ((lo <=? x) && (x <=? hi))%Z.

Definition valid_datetime (t : datetime) : bool :=
  in_range (-271820) (year t) 275759 &&
  in_range 1 (month t) 12 &&
  in_range 1 (day_of_month t) (days_in_month (year t) (month t)) &&
  in_range 0 (hours t) 23 &&
  in_range 0 (minutes t) 59 &&
  in_range 0 (seconds t) 59 &&
  in_range 0 (milliseconds t) 999.

Definition valid_date (d : date) : bool :=
  match d with
  | InvalidDate => false
  | ValidDate t => valid_datetime t
  end.

(** The year of [toISOString]: four digits from 0 to 9999, a sign and six
    digits outside. *)
Definition iso_year (y : Z) : jsstring :=
  if in_range 0 y 9999 then pad_digits 4 y
  else if (y <? 0)%Z then 45 :: pad_digits 6 (- y)
  else 43 :: pad_digits 6 y.

(** [Date.prototype.toISOString] at a valid date: [YYYY-MM-DDTHH:mm:ss.sssZ]. *)
Definition toISOString (t : datetime) : jsstring :=
  iso_year (year t) ++ 45 :: pad_digits 2 (month t) ++ 45 :: pad_digits 2 (day_of_month t)
  ++ 84 :: pad_digits 2 (hours t) ++ 58 :: pad_digits 2 (minutes t)
  ++ 58 :: pad_digits 2 (seconds t) ++ 46 :: pad_digits 3 (milliseconds t) ++ [90].

(** The date of a time value, in milliseconds since the epoch. *)
Definition civil_from_days (days : Z) : Z * Z * Z :=
  (let z := days + 719468 in
   let era := z / 146097 in
   let doe := z - era * 146097 in
   let yoe := (doe - doe / 1460 + doe / 36524 - doe / 146096) / 365 in
   let doy := doe - (365 * yoe + yoe / 4 - yoe / 100) in
   let mp := (5 * doy + 2) / 153 in
   let d := doy - (153 * mp + 2) / 5 + 1 in
   let m := if mp <? 10 then mp + 3 else mp - 9 in
   let y := yoe + era * 400 + (if m <=? 2 then 1 else 0) in
   (y, m, d))%Z.

Definition date_of_time_value (ms : Z) : date :=
  (let days := ms / 86400000 in
   let r := ms mod 86400000 in
   let '(y, m, d) := civil_from_days days in
   let t := {| year := y; month := m; day_of_month := d;
               hours := r / 3600000; minutes := (r / 60000) mod 60;
               seconds := (r / 1000) mod 60; milliseconds := r mod 1000 |} in
   if valid_datetime t then ValidDate t else InvalidDate)%Z.

(** The year of a date string: [YYYY], or a sign and [YYYYYY] ([-000000]
    is not a year). *)
Definition read_year (s : jsstring) : option (Z * jsstring) :=
  match s with
  | c :: s' =>
      if c =? 43 then read_fixed 6 0 s'
      else if c =? 45 then
        match read_fixed 6 0 s' with
        | Some (y, r) => if (y =? 0)%Z then None else Some (- y, r)%Z
        | None => None
        end
      else read_fixed 4 0 s
  | [] => None
  end.

Definition expect (c : N) (s : jsstring) : option jsstring :=
  match s with
  | d :: s' => if c =? d then Some s' else None
  | [] => None
  end.

(** The fields of a date string, in the two shapes [YYYY-MM-DD] and
    [YYYY-MM-DDTHH:mm:ss.sssZ] of the date-time string format (both UTC). *)
Definition read_date_fields (s : jsstring) : option datetime :=
  '(y, s) ← read_year s;
  s ← expect 45 s;
  '(mo, s) ← read_fixed 2 0 s;
  s ← expect 45 s;
  '(d, s) ← read_fixed 2 0 s;
  match s with
  | [] =>
      Some {| year := y; month := mo; day_of_month := d; hours := 0;
              minutes := 0; seconds := 0; milliseconds := 0 |}
  | _ =>
      s ← expect 84 s;
      '(h, s) ← read_fixed 2 0 s;
      s ← expect 58 s;
      '(mi, s) ← read_fixed 2 0 s;
      s ← expect 58 s;
      '(sec, s) ← read_fixed 2 0 s;
      s ← expect 46 s;
      '(ms, s) ← read_fixed 3 0 s;
      match s with
      | [90] =>
          Some {| year := y; month := mo; day_of_month := d; hours := h;
                  minutes := mi; seconds := sec; milliseconds := ms |}
      | _ => None
      end
  end.

(** [Date.parse]: the strings outside the format, whose reading the
    platform leaves to each engine, give the invalid date. *)
Definition parse_date (s : jsstring) : date :=
  match read_date_fields s with
  | Some t => if valid_datetime t then ValidDate t else InvalidDate
  | None => InvalidDate
  end.

(** [format(date, 'yyyy-MM-dd')] of date-fns at a valid date, with the
    time zone of the browser taken to be UTC. *)
Definition format_yyyy_MM_dd (t : datetime) : jsstring :=
  let y := if (0 <? year t)%Z then year t else (1 - year t)%Z in
  (if (y <? 10000)%Z then pad_digits 4 y else digits_of y)
  ++ 45 :: pad_digits 2 (month t) ++ 45 :: pad_digits 2 (day_of_month t).

(** ** Values

    The values the page handles: what [JSON.parse] returns, and the
    objects of the form, whose properties may hold [undefined] or a
    [Date].  An object is the list of its properties in the order of their
    creation.  (The platform enumerates the keys that are array indices
    first; no key of this program is one.) *)

#[local] Unset Elimination Schemes.

Inductive value :=
| VUndefined
| VNull
| VBool (b : bool)
| VNum (n : number)
| VStr (s : jsstring)
| VDate (d : date)
| VArr (items : list value)
| VObj (props : list (jsstring * value)).

#[local] Set Elimination Schemes.

Fixpoint obj_lookup (props : list (jsstring * value)) (k : jsstring) : option value :=
  match props with
  | [] => None
  | (k', v) :: props' => if str_eqb k' k then Some v else obj_lookup props' k
  end.

(** [v.k] for a value that is neither [null] nor [undefined] and a name
    [k] that is neither an index nor [length]: a property that is missing
    reads as [undefined], and so does every property of a primitive value
    or of an array. *)
Definition get (v : value) (k : jsstring) : value :=
  match v with
  | VObj props =>
      match obj_lookup props k with
      | Some x => x
      | None => VUndefined
      end
  | _ => VUndefined
  end.

(** [k in v] for an object. *)
Definition has_key (v : value) (k : jsstring) : bool :=
  match v with
  | VObj props => match obj_lookup props k with Some _ => true | None => false end
  | _ => false
  end.

(** [o.k = x]: an existing property keeps its place. *)
Fixpoint obj_set (props : list (jsstring * value)) (k : jsstring) (x : value)
  : list (jsstring * value) :=
  match props with
  | [] => [(k, x)]
  | (k', v) :: props' =>
      if str_eqb k' k then (k', x) :: props' else (k', v) :: obj_set props' k x
  end.

(** [Boolean(v)]. *)
Definition truthy (v : value) : bool :=
  match v with
  | VUndefined | VNull => false
  | VBool b => b
  | VNum NaN => false
  | VNum (Int z) => negb (z =? 0)%Z
  | VNum _ => true
  | VStr s => truthy_str s
  | VDate _ | VArr _ | VObj _ => true
  end.

Fixpoint join_comma (l : list jsstring) : jsstring :=
  match l with
  | [] => []
  | [x] => x
  | x :: l' => x ++ 44 :: join_comma l'
  end.

(** [String(v)]; [None] at a value with a [Date] inside, whose text
    depends on the locale. *)
Fixpoint to_string (v : value) : option jsstring :=
  match v with
  | VUndefined => Some (lit "undefined")
  | VNull => Some (lit "null")
  | VBool true => Some (lit "true")
  | VBool false => Some (lit "false")
  | VNum n => Some (number_to_string n)
  | VStr s => Some s
  | VDate _ => None
  | VArr items =>
      let item x :=
        match x with
        | VUndefined | VNull => Some []
        | _ => to_string x
        end in
      (fix items_to_strings (l : list value) : option (list jsstring) :=
         match l with
         | [] => Some []
         | x :: l' =>
             match item x, items_to_strings l' with
             | Some s, Some ss => Some (s :: ss)
             | _, _ => None
             end
         end) items ≫= fun ss => Some (join_comma ss)
  | VObj _ => Some (lit "[object Object]")
  end.

(** [new Date(v)]. *)
Definition new_Date (v : value) : date :=
  match v with
  | VDate d => d
  | VUndefined => InvalidDate
  | VNull => date_of_time_value 0
  | VBool b => date_of_time_value (if b then 1 else 0)
  | VNum (Int z) => date_of_time_value z
  | VNum _ => InvalidDate
  | VStr s => parse_date s
  | VArr _ | VObj _ =>
      match to_string v with
      | Some s => parse_date s
      | None => InvalidDate
      end
  end.

(** ** Schemas (zod)

    A schema maps a value to the parsed value, or to [None] when the value
    is rejected. *)

Definition schema := value -> option value.

Definition z_string : schema := fun v =>
  match v with VStr _ => Some v | _ => None end.

(** [.min(1, message)] on a string schema. *)
Definition z_nonempty (inner : schema) : schema := fun v =>
  match inner v with
  | Some (VStr s) => if truthy_str s then Some (VStr s) else None
  | _ => None
  end.

(** [z.number()] rejects [NaN]. *)
Definition z_number : schema := fun v =>
  match v with
  | VNum n => if num_is_nan n then None else Some v
  | _ => None
  end.

Definition z_min (k : Z) (inner : schema) : schema := fun v =>
  match inner v with
  | Some (VNum n) => if num_leb (Int k) n then Some (VNum n) else None
  | _ => None
  end.

Definition z_max (k : Z) (inner : schema) : schema := fun v =>
  match inner v with
  | Some (VNum n) => if num_leb n (Int k) then Some (VNum n) else None
  | _ => None
  end.

Definition z_enum (options : list jsstring) : schema := fun v =>
  match v with
  | VStr s => if includes options s then Some v else None
  | _ => None
  end.

(** [z.date()] accepts the valid dates. *)
Definition z_date : schema := fun v =>
  match v with
  | VDate d => if valid_date d then Some v else None
  | _ => None
  end.

(** [.default(d)]: [undefined] is replaced by [d] before the inner schema
    runs. *)
Definition z_default (d : value) (inner : schema) : schema := fun v =>
  match v with
  | VUndefined => inner d
  | _ => inner v
  end.

Definition z_optional (inner : schema) : schema := fun v =>
  match v with
  | VUndefined => Some VUndefined
  | _ => inner v
  end.

(** [z.object(shape)]: the value is an object; each key of the shape is
    parsed by its schema; the keys outside the shape are dropped; a key
    that is missing and parses to [undefined] stays missing. *)
Fixpoint parse_shape (shape : list (jsstring * schema)) (input : value)
  : option (list (jsstring * value)) :=
  match shape with
  | [] => Some []
  | (k, s) :: shape' =>
      match s (get input k), parse_shape shape' input with
      | Some x, Some rest =>
          match x with
          | VUndefined => if has_key input k then Some ((k, x) :: rest) else Some rest
          | _ => Some ((k, x) :: rest)
          end
      | _, _ => None
      end
  end.

Definition z_object (shape : list (jsstring * schema)) : schema := fun v =>
  match v with
  | VObj _ => option_map VObj (parse_shape shape v)
  | _ => None
  end.

(** *** [GeneratePersonalizedItineraryInputSchema]
    (generate-personalized-itinerary.ts) *)

Definition BUDGETS : list jsstring := [lit "Low"; lit "Medium"; lit "Luxury"].
Definition PACES : list jsstring := [lit "Relaxed"; lit "Balanced"; lit "Intense"].

Definition GeneratePersonalizedItineraryInputSchema : schema :=
  z_object
    [ (lit "destination", z_string);
      (lit "startDate", z_string);
      (lit "days", z_default (VNum (Int 3)) (z_max 21 (z_min 1 z_number)));
      (lit "budget", z_default (VStr (lit "Medium")) (z_enum BUDGETS));
      (lit "travelers", z_default (VNum (Int 2)) (z_min 1 z_number));
      (lit "interests", z_string);
      (lit "pace", z_default (VStr (lit "Balanced")) (z_enum PACES));
      (lit "mustInclude", z_optional z_string);
      (lit "avoid", z_optional z_string);
      (lit "notes", z_optional z_string) ].

(** *** [formSchema] (page.tsx), on the values the resolver returns: the
    numbers are already coerced. *)

Definition formSchema : schema :=
  z_object
    [ (lit "destination", z_nonempty z_string);
      (lit "startDate", z_date);
      (lit "days", z_default (VNum (Int 3)) (z_max 21 (z_min 1 z_number)));
      (lit "budget", z_default (VStr (lit "Medium")) (z_enum BUDGETS));
      (lit "travelers", z_default (VNum (Int 2)) (z_min 1 z_number));
      (lit "interests", z_nonempty z_string);
      (lit "pace", z_default (VStr (lit "Balanced")) (z_enum PACES));
      (lit "mustInclude", z_optional z_string);
      (lit "avoid", z_optional z_string);
      (lit "notes", z_optional z_string) ].

(** *** The shape of a preferences record, as the specification words it *)

Definition is_string (v : value) : bool :=
  match v with VStr _ => true | _ => false end.

Definition is_absent (v : value) : bool :=
  match v with VUndefined => true | _ => false end.

Definition is_number_between (lo hi : Z) (v : value) : bool :=
  match v with
  | VNum n => num_leb (Int lo) n && num_leb n (Int hi)
  | _ => false
  end.

Definition is_number_at_least (lo : Z) (v : value) : bool :=
  match v with
  | VNum n => num_leb (Int lo) n
  | _ => false
  end.

Definition is_one_of (options : list jsstring) (v : value) : bool :=
  match v with
  | VStr s => includes options s
  | _ => false
  end.

Definition is_object (v : value) : bool :=
  match v with VObj _ => true | _ => false end.

Definition preferences_shape (v : value) : bool :=
  is_object v
  && is_string (get v (lit "destination"))
  && is_string (get v (lit "startDate"))
  && (is_absent (get v (lit "days")) || is_number_between 1 21 (get v (lit "days")))
  && (is_absent (get v (lit "budget")) || is_one_of BUDGETS (get v (lit "budget")))
  && (is_absent (get v (lit "travelers")) || is_number_at_least 1 (get v (lit "travelers")))
  && is_string (get v (lit "interests"))
  && (is_absent (get v (lit "pace")) || is_one_of PACES (get v (lit "pace")))
  && (is_absent (get v (lit "mustInclude")) || is_string (get v (lit "mustInclude")))
  && (is_absent (get v (lit "avoid")) || is_string (get v (lit "avoid")))
  && (is_absent (get v (lit "notes")) || is_string (get v (lit "notes"))).

(** [x ?? d] restricted to [undefined]. *)
Definition or_default (d x : value) : value :=
  match x with VUndefined => d | _ => x end.

(** A property that the parsed value has only when the input has it. *)
Definition optional_prop (v : value) (k : jsstring) : list (jsstring * value) :=
  if has_key v k then [(k, get v k)] else [].

(** The value the schema returns at a preferences record: the defaults
    are filled in, and the keys outside the schema are gone. *)
Definition parsed_preferences (v : value) : value :=
  VObj
    ([ (lit "destination", get v (lit "destination"));
       (lit "startDate", get v (lit "startDate"));
       (lit "days", or_default (VNum (Int 3)) (get v (lit "days")));
       (lit "budget", or_default (VStr (lit "Medium")) (get v (lit "budget")));
       (lit "travelers", or_default (VNum (Int 2)) (get v (lit "travelers")));
       (lit "interests", get v (lit "interests"));
       (lit "pace", or_default (VStr (lit "Balanced")) (get v (lit "pace"))) ]
     ++ optional_prop v (lit "mustInclude")
     ++ optional_prop v (lit "avoid")
     ++ optional_prop v (lit "notes")).

(** ** JSON

    *** [JSON.stringify] *)

Definition hex_digit (n : N) : N := if n <? 10 then 48 + n else 87 + n.

(** The escape [\uXXXX] of a code unit, in lower case as the platform
    prints it. *)
Definition unicode_escape (c : N) : jsstring :=
  [92; 117; hex_digit (c / 4096 mod 16); hex_digit (c / 256 mod 16);
   hex_digit (c / 16 mod 16); hex_digit (c mod 16)].

Definition is_high_surrogate (c : N) : bool := (55296 <=? c) && (c <=? 56319).
Definition is_low_surrogate (c : N) : bool := (56320 <=? c) && (c <=? 57343).

Definition escape_char (c : N) : jsstring :=
  if c =? 8 then [92; 98]
  else if c =? 9 then [92; 116]
  else if c =? 10 then [92; 110]
  else if c =? 12 then [92; 102]
  else if c =? 13 then [92; 114]
  else if c =? 34 then [92; 34]
  else if c =? 92 then [92; 92]
  else if c <? 32 then unicode_escape c
  else [c].

(** The characters between the quotes: a surrogate is printed as it is
    inside a pair and escaped outside one. *)
Fixpoint quote_body (s : jsstring) : jsstring :=
  match s with
  | [] => []
  | c :: s' =>
      if is_high_surrogate c then
        match s' with
        | d :: s'' =>
            if is_low_surrogate d then c :: d :: quote_body s''
            else unicode_escape c ++ quote_body s'
        | [] => unicode_escape c
        end
      else if is_low_surrogate c then unicode_escape c ++ quote_body s'
      else escape_char c ++ quote_body s'
  end.

Definition quote (s : jsstring) : jsstring := 34 :: quote_body s ++ [34].

(** The text of a value, or [None] for [undefined], which has none. *)
Fixpoint stringify (v : value) : option jsstring :=
  match v with
  | VUndefined => None
  | VNull => Some (lit "null")
  | VBool true => Some (lit "true")
  | VBool false => Some (lit "false")
  | VNum (Int z) => Some (int_to_string z)
  | VNum _ => Some (lit "null")
  | VStr s => Some (quote s)
  | VDate (ValidDate t) =>
      if valid_datetime t then Some (quote (toISOString t)) else Some (lit "null")
  | VDate InvalidDate => Some (lit "null")
  | VArr items =>
      Some (91 :: join_comma
                    (List.map (fun x => match stringify x with
                                        | Some s => s
                                        | None => lit "null"
                                        end) items) ++ [93])
  | VObj props =>
      Some (123 :: join_comma
                     (flat_map (fun kx => match stringify (snd kx) with
                                          | Some s => [quote (fst kx) ++ 58 :: s]
                                          | None => []
                                          end) props) ++ [125])
  end.

(** [JSON.stringify(v)] where a string is expected: [undefined] becomes
    the string ["undefined"]. *)
Definition JSON_stringify (v : value) : jsstring :=
  match stringify v with
  | Some s => s
  | None => lit "undefined"
  end.

(** *** [JSON.parse] *)

Inductive parsed (A : Type) :=
| Parsed (a : A) (rest : jsstring)
| SyntaxError
| OutOfFuel.
Arguments Parsed {A} a rest.
Arguments SyntaxError {A}.
Arguments OutOfFuel {A}.

Definition is_ws (c : N) : bool := (c =? 32) || (c =? 9) || (c =? 10) || (c =? 13).

Fixpoint skip_ws (s : jsstring) : jsstring :=
  match s with
  | c :: s' => if is_ws c then skip_ws s' else s
  | [] => []
  end.

Definition hex_val (c : N) : option N :=
  if (48 <=? c) && (c <=? 57) then Some (c - 48)
  else if (97 <=? c) && (c <=? 102) then Some (c - 87)
  else if (65 <=? c) && (c <=? 70) then Some (c - 55)
  else None.

Definition hex4 (a b c d : N) : option N :=
  match hex_val a, hex_val b, hex_val c, hex_val d with
  | Some x, Some y, Some z, Some w => Some (4096 * x + 256 * y + 16 * z + w)
  | _, _, _, _ => None
  end.

Definition unescape (e : N) : option N :=
  if e =? 34 then Some 34
  else if e =? 92 then Some 92
  else if e =? 47 then Some 47
  else if e =? 98 then Some 8
  else if e =? 102 then Some 12
  else if e =? 110 then Some 10
  else if e =? 114 then Some 13
  else if e =? 116 then Some 9
  else None.

(** Reads a string after its opening quote, up to the closing one. *)
Fixpoint read_string (s : jsstring) : option (jsstring * jsstring) :=
  match s with
  | [] => None
  | c :: r =>
      if c =? 34 then Some ([], r)
      else if c =? 92 then
        match r with
        | [] => None
        | e :: r' =>
            if e =? 117 then
              match r' with
              | h1 :: h2 :: h3 :: h4 :: r'' =>
                  match hex4 h1 h2 h3 h4, read_string r'' with
                  | Some u, Some (t, rest) => Some (u :: t, rest)
                  | _, _ => None
                  end
              | _ => None
              end
            else
              match unescape e, read_string r' with
              | Some u, Some (t, rest) => Some (u :: t, rest)
              | _, _ => None
              end
        end
      else if c <? 32 then None
      else
        match read_string r with
        | Some (t, rest) => Some (c :: t, rest)
        | None => None
        end
  end.

(** Reads [0], or a numeral without leading zero. *)
Definition read_unsigned (s : jsstring) : option (Z * jsstring) :=
  match s with
  | c :: s' =>
      if c =? 48 then Some (0%Z, s')
      else if is_digit c then Some (read_digits (digit_val c) s')
      else None
  | [] => None
  end.

(** A fraction or an exponent would denote a number outside the model,
    and is refused. *)
Definition refuse_fraction (r : option (Z * jsstring)) : option (Z * jsstring) :=
  match r with
  | Some (z, c :: s') =>
      if (c =? 46) || (c =? 101) || (c =? 69) then None else Some (z, c :: s')
  | _ => r
  end.

(** Reads a number: a sign, then the numeral. *)
Definition read_number (s : jsstring) : option (Z * jsstring) :=
  match s with
  | c :: s' =>
      if c =? 45 then
        match refuse_fraction (read_unsigned s') with
        | Some (z, r) => Some ((- z)%Z, r)
        | None => None
        end
      else refuse_fraction (read_unsigned s)
  | [] => None
  end.

Fixpoint strip_prefix (p s : jsstring) : option jsstring :=
  match p with
  | [] => Some s
  | c :: p' =>
      match s with
      | d :: s' => if c =? d then strip_prefix p' s' else None
      | [] => None
      end
  end.

(** The object [JSON.parse] builds from the members in their order: a
    key that comes again replaces the value and keeps its place. *)
Definition obj_of_members (members : list (jsstring * value)) : list (jsstring * value) :=
  fold_left (fun o kx => obj_set o (fst kx) (snd kx)) members [].

Fixpoint parse_value (fuel : nat) (s : jsstring) : parsed value :=
  match fuel with
  | O => OutOfFuel
  | S fuel' =>
      match skip_ws s with
      | [] => SyntaxError
      | c :: r =>
          if c =? 123 then
            match skip_ws r with
            | d :: r' =>
                if d =? 125 then Parsed (VObj []) r'
                else
                  match parse_members fuel' r with
                  | Parsed ms rest => Parsed (VObj (obj_of_members ms)) rest
                  | SyntaxError => SyntaxError
                  | OutOfFuel => OutOfFuel
                  end
            | [] => SyntaxError
            end
          else if c =? 91 then
            match skip_ws r with
            | d :: r' =>
                if d =? 93 then Parsed (VArr []) r'
                else
                  match parse_elements fuel' r with
                  | Parsed items rest => Parsed (VArr items) rest
                  | SyntaxError => SyntaxError
                  | OutOfFuel => OutOfFuel
                  end
            | [] => SyntaxError
            end
          else if c =? 34 then
            match read_string r with
            | Some (t, rest) => Parsed (VStr t) rest
            | None => SyntaxError
            end
          else if (c =? 45) || is_digit c then
            match read_number (c :: r) with
            | Some (z, rest) => Parsed (VNum (Int z)) rest
            | None => SyntaxError
            end
          else
            match strip_prefix (lit "null") (c :: r) with
            | Some rest => Parsed VNull rest
            | None =>
            match strip_prefix (lit "true") (c :: r) with
            | Some rest => Parsed (VBool true) rest
            | None =>
            match strip_prefix (lit "false") (c :: r) with
            | Some rest => Parsed (VBool false) rest
            | None => SyntaxError
            end end end
      end
  end

with parse_elements (fuel : nat) (s : jsstring) : parsed (list value) :=
  match fuel with
  | O => OutOfFuel
  | S fuel' =>
      match parse_value fuel' s with
      | Parsed x r =>
          match skip_ws r with
          | c :: r' =>
              if c =? 93 then Parsed [x] r'
              else if c =? 44 then
                match parse_elements fuel' r' with
                | Parsed xs rest => Parsed (x :: xs) rest
                | SyntaxError => SyntaxError
                | OutOfFuel => OutOfFuel
                end
              else SyntaxError
          | [] => SyntaxError
          end
      | SyntaxError => SyntaxError
      | OutOfFuel => OutOfFuel
      end
  end

with parse_members (fuel : nat) (s : jsstring) : parsed (list (jsstring * value)) :=
  match fuel with
  | O => OutOfFuel
  | S fuel' =>
      match skip_ws s with
      | q :: r0 =>
          if q =? 34 then
            match read_string r0 with
            | Some (k, r1) =>
                match skip_ws r1 with
                | colon :: r2 =>
                    if colon =? 58 then
                      match parse_value fuel' r2 with
                      | Parsed x r =>
                          match skip_ws r with
                          | c :: r' =>
                              if c =? 125 then Parsed [(k, x)] r'
                              else if c =? 44 then
                                match parse_members fuel' r' with
                                | Parsed ms rest => Parsed ((k, x) :: ms) rest
                                | SyntaxError => SyntaxError
                                | OutOfFuel => OutOfFuel
                                end
                              else SyntaxError
                          | [] => SyntaxError
                          end
                      | SyntaxError => SyntaxError
                      | OutOfFuel => OutOfFuel
                      end
                    else SyntaxError
                | [] => SyntaxError
                end
            | None => SyntaxError
            end
          else SyntaxError
      | [] => SyntaxError
      end
  end.

(** [JSON.parse(s)]; [None] stands for the [SyntaxError] it throws.  The
    depth of the recursion is bounded by the length of the text. *)
Definition JSON_parse (s : jsstring) : option value :=
  match parse_value (S (List.length s)) s with
  | Parsed v rest =>
      match skip_ws rest with
      | [] => Some v
      | _ :: _ => None
      end
  | _ => None
  end.

(** ** Exceptions *)

(** An error object: its name, and its message when it has one. *)
Record js_error := { err_name : jsstring; err_message : option jsstring }.

Inductive result (A : Type) :=
| Ok (a : A)
| Throw (e : js_error).
Arguments Ok {A} a.
Arguments Throw {A} e.

(** ** Base64: [btoa] and [atob] *)

Definition b64_char (n : N) : N :=
  if n <? 26 then 65 + n
  else if n <? 52 then 71 + n
  else if n <? 62 then n - 4
  else if n =? 62 then 43
  else 47.

Fixpoint b64_encode (bytes : list N) : jsstring :=
  match bytes with
  | [] => []
  | [a] => [b64_char (a / 4); b64_char (a mod 4 * 16); 61; 61]
  | [a; b] =>
      [b64_char (a / 4); b64_char (a mod 4 * 16 + b / 16); b64_char (b mod 16 * 4); 61]
  | a :: b :: c :: rest =>
      b64_char (a / 4) :: b64_char (a mod 4 * 16 + b / 16)
      :: b64_char (b mod 16 * 4 + c / 64) :: b64_char (c mod 64) :: b64_encode rest
  end.

(** [btoa] throws at a string with a code unit above 255. *)
Definition btoa (s : jsstring) : result jsstring :=
  if forallb (fun c => c <=? 255) s then Ok (b64_encode s)
  else Throw {| err_name := lit "InvalidCharacterError"; err_message := None |}.

Definition b64_val (c : N) : option N :=
  if (65 <=? c) && (c <=? 90) then Some (c - 65)
  else if (97 <=? c) && (c <=? 122) then Some (c - 71)
  else if (48 <=? c) && (c <=? 57) then Some (c + 4)
  else if c =? 43 then Some 62
  else if c =? 47 then Some 63
  else None.

Fixpoint b64_vals (s : jsstring) : option (list N) :=
  match s with
  | [] => Some []
  | c :: s' =>
      match b64_val c, b64_vals s' with
      | Some v, Some vs => Some (v :: vs)
      | _, _ => None
      end
  end.

Fixpoint b64_decode (vals : list N) : list N :=
  match vals with
  | a :: b :: c :: d :: rest =>
      (a * 4 + b / 16) :: (b mod 16 * 16 + c / 4) :: (c mod 4 * 64 + d) :: b64_decode rest
  | [a; b; c] => [a * 4 + b / 16; b mod 16 * 16 + c / 4]
  | [a; b] => [a * 4 + b / 16]
  | _ => []
  end.

Definition is_ascii_whitespace (c : N) : bool :=
  (c =? 9) || (c =? 10) || (c =? 12) || (c =? 13) || (c =? 32).

(** One or two [=] at the end of a string whose length is a multiple of
    four are dropped. *)
Definition strip_padding (s : jsstring) : jsstring :=
  if (N.of_nat (List.length s) mod 4 =? 0) then
    match rev s with
    | 61 :: 61 :: r => rev r
    | 61 :: r => rev r
    | _ => s
    end
  else s.

(** [atob]: the forgiving base64 decoding. *)
Definition atob (s : jsstring) : result jsstring :=
  let failure := Throw {| err_name := lit "InvalidCharacterError"; err_message := None |} in
  let s := List.filter (fun c => negb (is_ascii_whitespace c)) s in
  let s := strip_padding s in
  if N.of_nat (List.length s) mod 4 =? 1 then failure
  else
    match b64_vals s with
    | Some vals => Ok (b64_decode vals)
    | None => failure
    end.

(** ** The query string *)

(** The query of a URL: what follows the first [?], up to a [#]. *)
Fixpoint until_hash (s : jsstring) : jsstring :=
  match s with
  | [] => []
  | c :: s' => if c =? 35 then [] else c :: until_hash s'
  end.

Fixpoint url_query (url : jsstring) : jsstring :=
  match url with
  | [] => []
  | c :: url' => if c =? 63 then until_hash url' else url_query url'
  end.

Fixpoint split_on (sep : N) (s : jsstring) : list jsstring :=
  match s with
  | [] => [[]]
  | c :: s' => if c =? sep then [] :: split_on sep s' else cons_head c (split_on sep s')
  end.

(** Name and value of one piece of the query: the first [=] separates
    them, and a [+] stands for a space. *)
Fixpoint split_name_value (s : jsstring) : jsstring * jsstring :=
  match s with
  | [] => ([], [])
  | c :: s' =>
      if c =? 61 then ([], s')
      else let '(n, v) := split_name_value s' in (c :: n, v)
  end.

Definition plus_to_space (s : jsstring) : jsstring :=
  List.map (fun c => if c =? 43 then 32 else c) s.

(** [new URLSearchParams(query)], for a query of ASCII characters without
    percent escapes; [None] outside. *)
Definition URLSearchParams (query : jsstring) : option (list (jsstring * jsstring)) :=
  if forallb (fun c => (c <? 128) && negb (c =? 37)) query then
    Some (List.map (fun piece =>
                      let '(n, v) := split_name_value piece in
                      (plus_to_space n, plus_to_space v))
            (List.filter truthy_str (split_on 38 query)))
  else None.

(** [searchParams.get(name)]: the first value under the name. *)
Fixpoint searchParams_get (params : list (jsstring * jsstring)) (name : jsstring)
  : option jsstring :=
  match params with
  | [] => None
  | (n, v) :: params' => if str_eqb n name then Some v else searchParams_get params' name
  end.

(** ** The server: the flow and the action *)

(** [GeneratePersonalizedItineraryOutput]. *)
Record ItineraryItem := {
  item_day : number; item_date : jsstring;
  morning : jsstring; afternoon : jsstring; evening : jsstring
}.

Record Output := {
  summary : jsstring; itinerary_items : list ItineraryItem;
  estimatedBudget : jsstring; tips : jsstring
}.

(** What lies behind the flow and is not in this repository: the call of
    the prompt, which returns an output or throws, whatever the number of
    calls made before; and the error genkit throws at an input that the
    input schema rejects. *)
Record Backend := {
  prompt : nat -> value -> result Output;
  schema_error : value -> js_error
}.

(** The state of the server that the properties speak of: the inputs of
    the calls of [generatePersonalizedItinerary] and of the prompt, in
    their order, and what [console.error] received. *)
Record Server := {
  flow_calls : list value;
  prompt_calls : list value;
  server_console : list js_error
}.

(** Computations on the server thread its state and may throw. *)
Definition M (A : Type) : Type := Server -> result A * Server.

Definition ret {A} (a : A) : M A := fun w => (Ok a, w).
Definition throw {A} (e : js_error) : M A := fun w => (Throw e, w).
Definition bind {A B} (m : M A) (k : A -> M B) : M B := fun w =>
  match m w with
  | (Ok a, w') => k a w'
  | (Throw e, w') => (Throw e, w')
  end.
Definition try_catch {A} (body : M A) (handler : js_error -> M A) : M A := fun w =>
  match body w with
  | (Ok a, w') => (Ok a, w')
  | (Throw e, w') => handler e w'
  end.

Notation "'let!' x ':=' m 'in' k" := (bind m (fun x => k))
  (at level 10, x name, m at level 100, k at level 200).
Notation "'do!' m 'in' k" := (bind m (fun _ => k))
  (at level 10, m at level 100, k at level 200).

Definition log_flow_call (input : value) : M unit := fun w =>
  (Ok tt, {| flow_calls := flow_calls w ++ [input];
             prompt_calls := prompt_calls w;
             server_console := server_console w |}).

Definition call_prompt (B : Backend) (input : value) : M Output := fun w =>
  (prompt B (List.length (prompt_calls w)) input,
   {| flow_calls := flow_calls w;
      prompt_calls := prompt_calls w ++ [input];
      server_console := server_console w |}).

Definition console_error (e : js_error) : M unit := fun w =>
  (Ok tt, {| flow_calls := flow_calls w;
             prompt_calls := prompt_calls w;
             server_console := server_console w ++ [e] |}).

(** [generatePersonalizedItineraryFlow]: the input is checked against the
    input schema, then the prompt is called. *)
Definition generatePersonalizedItineraryFlow (B : Backend) (input : value) : M Output :=
  match GeneratePersonalizedItineraryInputSchema input with
  | None => throw (schema_error B input)
  | Some parsed => call_prompt B parsed
  end.

Definition generatePersonalizedItinerary (B : Backend) (input : value) : M Output :=
  do! log_flow_call input in
  generatePersonalizedItineraryFlow B input.

(** What the action returns: the output, or an object with an [error]. *)
Inductive ActionResult :=
| Generated (o : Output)
| ErrorObject (error : jsstring).

(** [e.message || 'An unknown error occurred.']: a message that is
    missing or empty gives the right operand. *)
Definition message_or_unknown (e : js_error) : jsstring :=
  match err_message e with
  | Some (c :: m) => c :: m
  | _ => lit "An unknown error occurred."
  end.

(** [generateItineraryAction] (actions.ts). *)
Definition generateItineraryAction (B : Backend) (input : value) : M ActionResult :=
  try_catch
    (let! itinerary := generatePersonalizedItinerary B input in
     ret (Generated itinerary))
    (fun e =>
       do! console_error e in
       let message := message_or_unknown e in
       ret (ErrorObject (lit "Failed to generate itinerary: " ++ message))).

(** ** The page *)

Record Toast := {
  toast_variant : option jsstring;
  toast_title : jsstring;
  toast_description : jsstring
}.

(** The state of [ItineraryPlanner] and of the browser around it: the two
    [useState] cells; the values of the form; the toasts shown and the
    lines of [console.error], in their order; the local storage and the
    keys read from it; the clipboard; and the inputs of the calls of the
    action that have not settled. *)
Record Page := {
  loading : bool;
  itinerary : option Output;
  form : value;
  toasts : list Toast;
  console : list jsstring;
  localStorage : gmap jsstring jsstring;
  storage_reads : list jsstring;
  clipboard : option jsstring;
  in_flight : list value
}.

Definition LAST_INPUT : jsstring := lit "last_itinerary_input".

(** The [defaultValues] of the form; [handleClear] resets to the same. *)
Definition defaultValues : value :=
  VObj [ (lit "destination", VStr []);
         (lit "days", VNum (Int 3));
         (lit "budget", VStr (lit "Medium"));
         (lit "travelers", VNum (Int 2));
         (lit "interests", VStr []);
         (lit "pace", VStr (lit "Balanced"));
         (lit "mustInclude", VStr []);
         (lit "avoid", VStr []);
         (lit "notes", VStr []) ].

(** The page when it is mounted, over the storage of the browser. *)
Definition mount (storage : gmap jsstring jsstring) : Page :=
  {| loading := false; itinerary := None; form := defaultValues;
     toasts := []; console := []; localStorage := storage;
     storage_reads := []; clipboard := None; in_flight := [] |}.

Definition setLoading (b : bool) (p : Page) : Page :=
  {| loading := b; itinerary := itinerary p; form := form p; toasts := toasts p;
     console := console p; localStorage := localStorage p;
     storage_reads := storage_reads p; clipboard := clipboard p;
     in_flight := in_flight p |}.

Definition setItinerary (i : option Output) (p : Page) : Page :=
  {| loading := loading p; itinerary := i; form := form p; toasts := toasts p;
     console := console p; localStorage := localStorage p;
     storage_reads := storage_reads p; clipboard := clipboard p;
     in_flight := in_flight p |}.

Definition form_reset (values : value) (p : Page) : Page :=
  {| loading := loading p; itinerary := itinerary p; form := values;
     toasts := toasts p; console := console p; localStorage := localStorage p;
     storage_reads := storage_reads p; clipboard := clipboard p;
     in_flight := in_flight p |}.

Definition toast (t : Toast) (p : Page) : Page :=
  {| loading := loading p; itinerary := itinerary p; form := form p;
     toasts := toasts p ++ [t]; console := console p;
     localStorage := localStorage p; storage_reads := storage_reads p;
     clipboard := clipboard p; in_flight := in_flight p |}.

Definition page_console_error (line : jsstring) (p : Page) : Page :=
  {| loading := loading p; itinerary := itinerary p; form := form p;
     toasts := toasts p; console := console p ++ [line];
     localStorage := localStorage p; storage_reads := storage_reads p;
     clipboard := clipboard p; in_flight := in_flight p |}.

Definition localStorage_setItem (k x : jsstring) (p : Page) : Page :=
  {| loading := loading p; itinerary := itinerary p; form := form p;
     toasts := toasts p; console := console p;
     localStorage := <[k := x]> (localStorage p);
     storage_reads := storage_reads p; clipboard := clipboard p;
     in_flight := in_flight p |}.

Definition localStorage_removeItem (k : jsstring) (p : Page) : Page :=
  {| loading := loading p; itinerary := itinerary p; form := form p;
     toasts := toasts p; console := console p;
     localStorage := delete k (localStorage p);
     storage_reads := storage_reads p; clipboard := clipboard p;
     in_flight := in_flight p |}.

Definition localStorage_getItem (k : jsstring) (p : Page) : option jsstring * Page :=
  (localStorage p !! k,
   {| loading := loading p; itinerary := itinerary p; form := form p;
      toasts := toasts p; console := console p; localStorage := localStorage p;
      storage_reads := storage_reads p ++ [k]; clipboard := clipboard p;
      in_flight := in_flight p |}).

Definition clipboard_writeText (s : jsstring) (p : Page) : Page :=
  {| loading := loading p; itinerary := itinerary p; form := form p;
     toasts := toasts p; console := console p; localStorage := localStorage p;
     storage_reads := storage_reads p; clipboard := Some s;
     in_flight := in_flight p |}.

Definition set_in_flight (l : list value) (p : Page) : Page :=
  {| loading := loading p; itinerary := itinerary p; form := form p;
     toasts := toasts p; console := console p; localStorage := localStorage p;
     storage_reads := storage_reads p; clipboard := clipboard p;
     in_flight := l |}.

(** *** [generateItinerary] *)

(** [format(v, 'yyyy-MM-dd')]: date-fns makes a date of a [Date], a number
    or a string, and throws a [RangeError] when the date is not valid. *)
Definition format_date (v : value) : result jsstring :=
  let d := match v with
           | VDate _ | VNum _ | VStr _ => new_Date v
           | _ => InvalidDate
           end in
  match d with
  | ValidDate t =>
      if valid_datetime t then Ok (format_yyyy_MM_dd t)
      else Throw {| err_name := lit "RangeError";
                    err_message := Some (lit "Invalid time value") |}
  | InvalidDate =>
      Throw {| err_name := lit "RangeError";
               err_message := Some (lit "Invalid time value") |}
  end.

(** The own properties that [{...data}] copies.  (Only an object gets
    past [format]: the [startDate] of another value is [undefined].) *)
Definition own_props (data : value) : list (jsstring * value) :=
  match data with
  | VObj props => props
  | _ => []
  end.

(** The argument of the action:
    [{...data, startDate: format(data.startDate, 'yyyy-MM-dd')}]. *)
Definition action_input (data : value) : result value :=
  match format_date (get data (lit "startDate")) with
  | Ok s => Ok (VObj (obj_set (own_props data) (lit "startDate") (VStr s)))
  | Throw e => Throw e
  end.

Definition unexpected_error_toast : Toast :=
  {| toast_variant := Some (lit "destructive");
     toast_title := lit "An unexpected error occurred";
     toast_description := lit "Please try again later." |}.

Definition error_generating_toast (error : jsstring) : Toast :=
  {| toast_variant := Some (lit "destructive");
     toast_title := lit "Error Generating Itinerary";
     toast_description := error |}.

(** [generateItinerary], up to the [await]: either the call of the action
    is in flight at the end, or an exception went through [catch] and
    [finally]. *)
Definition generateItinerary_begin (data : value) (p : Page) : Page :=
  let p := setLoading true p in
  let p := setItinerary None p in
  let p := localStorage_setItem LAST_INPUT (JSON_stringify data) p in
  match action_input data with
  | Ok input => set_in_flight (in_flight p ++ [input]) p
  | Throw _ =>
      let p := toast unexpected_error_toast p in
      setLoading false p
  end.

(** How the awaited call settles: the action returned, or the call itself
    failed and the [await] throws. *)
Inductive Settlement :=
| Fulfilled (r : ActionResult)
| Rejected (e : js_error).

(** [generateItinerary], from the [await] on. *)
Definition generateItinerary_resume (s : Settlement) (p : Page) : Page :=
  let p :=
    match s with
    | Fulfilled (ErrorObject error) => toast (error_generating_toast error) p
    | Fulfilled (Generated result) => setItinerary (Some result) p
    | Rejected _ => toast unexpected_error_toast p
    end in
  setLoading false p.

(** *** The effect that runs when the page loads *)

Definition set_prop (v : value) (k : jsstring) (x : value) : value :=
  match v with
  | VObj props => VObj (obj_set props k x)
  | _ => v
  end.

(** The first half of the effect: [dataToLoad], [null] when nothing was
    read. *)
Definition effect_read (searchParams : list (jsstring * jsstring)) (p : Page)
  : value * Page :=
  let planParam := searchParams_get searchParams (lit "plan") in
  match planParam with
  | Some (c :: plan) =>
      match atob (c :: plan) with
      | Ok text =>
          match JSON_parse text with
          | Some v => (v, p)
          | None => (VNull, page_console_error (lit "Failed to parse plan from URL") p)
          end
      | Throw _ => (VNull, page_console_error (lit "Failed to parse plan from URL") p)
      end
  | _ =>
      let '(savedData, p) := localStorage_getItem LAST_INPUT p in
      match savedData with
      | Some (c :: saved) =>
          match JSON_parse (c :: saved) with
          | Some v => (v, p)
          | None =>
              (VNull, page_console_error (lit "Failed to parse plan from localStorage") p)
          end
      | _ => (VNull, p)
      end
  end.

(** [dataToLoad] once its [startDate] is a [Date] again. *)
Definition revive_startDate (dataToLoad : value) : value :=
  if truthy (get dataToLoad (lit "startDate"))
  then set_prop dataToLoad (lit "startDate")
         (VDate (new_Date (get dataToLoad (lit "startDate"))))
  else dataToLoad.

(** The effect up to the call of [generateItinerary]: the page, and the
    argument of the call when it is made. *)
Definition effect_load (searchParams : list (jsstring * jsstring)) (p : Page)
  : Page * option value :=
  let '(dataToLoad, p) := effect_read searchParams p in
  if truthy dataToLoad then
    let dataToLoad := revive_startDate dataToLoad in
    let p := form_reset dataToLoad p in
    if truthy (get dataToLoad (lit "destination"))
    then (p, Some dataToLoad)
    else (p, None)
  else (p, None).

Definition effect (searchParams : list (jsstring * jsstring)) (p : Page) : Page :=
  match effect_load searchParams p with
  | (p, Some data) => generateItinerary_begin data p
  | (p, None) => p
  end.

(** *** [handleShare], [handleClear] and the toggle of an interest *)

Record Location := { origin : jsstring; pathname : jsstring }.

Definition link_copied_toast : Toast :=
  {| toast_variant := None;
     toast_title := lit "Link Copied!";
     toast_description := lit "You can now share your trip plan with others." |}.

(** The URL that [handleShare] builds, when [btoa] does not throw. *)
Definition share_url (loc : Location) (values : value) : result jsstring :=
  let jsonString := JSON_stringify values in
  match btoa jsonString with
  | Ok base64String => Ok (origin loc ++ pathname loc ++ lit "?plan=" ++ base64String)
  | Throw e => Throw e
  end.

Definition handleShare (loc : Location) (p : Page) : result Page :=
  match share_url loc (form p) with
  | Ok url => Ok (toast link_copied_toast (clipboard_writeText url p))
  | Throw e => Throw e
  end.

Definition handleClear (p : Page) : Page :=
  let p := form_reset defaultValues p in
  let p := setItinerary None p in
  localStorage_removeItem LAST_INPUT p.

(** [toggleInterest] on the page; [split] is missing on a value that is
    not a string, and the call throws. *)
Definition page_toggleInterest (interest : jsstring) (p : Page) : result Page :=
  match get (form p) (lit "interests") with
  | VStr interests =>
      Ok (form_reset (set_prop (form p) (lit "interests")
                        (VStr (toggleInterest interest interests))) p)
  | _ => Throw {| err_name := lit "TypeError"; err_message := None |}
  end.

(** *** The events of the page *)

Inductive Event :=
| RunEffect (searchParams : list (jsstring * jsstring))
    (* the effect runs: at the load of the page with these parameters *)
| Submit (data : value)
    (* the submit button is pressed and the resolver returns [data] *)
| Settle (n : nat) (s : Settlement)
    (* the call at place [n] among those in flight settles *)
| Share (loc : Location)
| Clear
| ToggleInterest (interest : jsstring).

Fixpoint remove_nth {A} (n : nat) (l : list A) : list A :=
  match n, l with
  | _, [] => []
  | O, _ :: l' => l'
  | S n', x :: l' => x :: remove_nth n' l'
  end.

Definition step (e : Event) (p : Page) : Page :=
  match e with
  | RunEffect searchParams => effect searchParams p
  | Submit data =>
      (* the button is [disabled={loading}] *)
      if loading p then p else generateItinerary_begin data p
  | Settle n s =>
      if (n <? List.length (in_flight p))%nat
      then generateItinerary_resume s (set_in_flight (remove_nth n (in_flight p)) p)
      else p
  | Share loc =>
      match handleShare loc p with
      | Ok p' => p'
      | Throw _ => p
      end
  | Clear => handleClear p
  | ToggleInterest interest =>
      match page_toggleInterest interest p with
      | Ok p' => p'
      | Throw _ => p
      end
  end.

Definition run (events : list Event) (p : Page) : Page :=
  fold_left (fun p e => step e p) events p.

(** The settlement of a call that reaches the server. *)
Definition await_action (B : Backend) (input : value) (w : Server) : Settlement * Server :=
  match generateItineraryAction B input w with
  | (Ok r, w') => (Fulfilled r, w')
  | (Throw e, w') => (Rejected e, w')
  end.

(** *** Vocabulary of the properties *)

Definition is_effect (e : Event) : bool :=
  match e with RunEffect _ => true | _ => false end.

Definition is_submit (e : Event) : bool :=
  match e with Submit _ => true | _ => false end.

(** The effect runs at the load of the page and not after: it is the
    first event if it is one at all. *)
Definition effect_only_at_load (events : list Event) : bool :=
  match events with
  | [] => true
  | _ :: rest => forallb (fun e => negb (is_effect e)) rest
  end.

(** The output of the most recent call that settled with an output, along
    a run of the page from [p]. *)
Fixpoint last_generated (events : list Event) (p : Page) (last : option Output)
  : option Output :=
  match events with
  | [] => last
  | e :: events' =>
      let last' :=
        match e with
        | Settle n (Fulfilled (Generated o)) =>
            if (n <? List.length (in_flight p))%nat then Some o else last
        | _ => last
        end in
      last_generated events' (step e p) last'
  end.

(** No call in flight and the flag down, or one call and the flag up. *)
Definition at_most_one (p : Page) : Prop :=
  (in_flight p = [] /\ loading p = false) \/
  (exists input, in_flight p = [input] /\ loading p = true).

Definition is_failure (s : Settlement) : bool :=
  match s with
  | Fulfilled (Generated _) => false
  | _ => true
  end.

(** ** Sample data *)

Definition sample_date : datetime :=
  {| year := 2025; month := 1; day_of_month := 15; hours := 0; minutes := 0;
     seconds := 0; milliseconds := 0 |}.

(** The values of a form that was filled in. *)
Definition sample_values (destination : jsstring) : value :=
  VObj [ (lit "destination", VStr destination);
         (lit "days", VNum (Int 3));
         (lit "budget", VStr (lit "Medium"));
         (lit "travelers", VNum (Int 2));
         (lit "interests", VStr (lit "Beaches, Food"));
         (lit "pace", VStr (lit "Balanced"));
         (lit "mustInclude", VStr []);
         (lit "avoid", VStr []);
         (lit "notes", VStr []);
         (lit "startDate", VDate (ValidDate sample_date)) ].

(** The [plan] parameter of the link shared from [sample_values "Goa"]. *)
Definition sample_plan : jsstring :=
  lit "eyJkZXN0aW5hdGlvbiI6IkdvYSIsImRheXMiOjMsImJ1ZGdldCI6Ik1lZGl1bSIsInRyYXZlbGVycyI6MiwiaW50ZXJlc3RzIjoiQmVhY2hlcywgRm9vZCIsInBhY2UiOiJCYWxhbmNlZCIsIm11c3RJbmNsdWRlIjoiIiwiYXZvaWQiOiIiLCJub3RlcyI6IiIsInN0YXJ0RGF0ZSI6IjIwMjUtMDEtMTVUMDA6MDA6MDAuMDAwWiJ9".

Definition sample_output : Output :=
  {| summary := lit "Three days in Goa";
     itinerary_items :=
       [ {| item_day := Int 1; item_date := lit "2025-01-15";
            morning := lit "Beach"; afternoon := lit "Old town";
            evening := lit "Dinner" |} ];
     estimatedBudget := lit "400 USD";
     tips := lit "Carry sunscreen." |}.

Definition sample_location : Location :=
  {| origin := lit "http://localhost:9002"; pathname := lit "/" |}.

(** A backend whose model call fails. *)
Definition failing_backend : Backend :=
  {| prompt := fun _ _ =>
       Throw {| err_name := lit "Error"; err_message := Some (lit "quota exceeded") |};
     schema_error := fun _ =>
       {| err_name := lit "GenkitError";
          err_message := Some (lit "INVALID_ARGUMENT: Schema validation failed.") |} |}.

Definition idle_server : Server :=
  {| flow_calls := []; prompt_calls := []; server_console := [] |}.

(** What [read_string] returns after one more code unit [c]. *)
Definition cons_read (c : N) (r : option (jsstring * jsstring)) : option (jsstring * jsstring) :=
  match r with
  | Some (t, rest) => Some (c :: t, rest)
  | None => None
  end.


(** The value of a numeral read after [acc]. *)
Definition digits_value (acc : Z) (ds : jsstring) : Z :=
  fold_left (fun a c => (10 * a + digit_val c)%Z) ds acc.

(** What may follow a number inside an object or an array. *)
Definition ends_value (rest : jsstring) : Prop :=
  exists c r, rest = c :: r /\ (c = 44 \/ c = 125 \/ c = 93).

(** *** What [JSON.parse] makes of stored values

    A value without an array or an object inside comes back from its text
    as [json_image] says, and a property that is [undefined] does not come
    back. *)

Definition is_flat (x : value) : bool :=
  match x with
  | VArr _ | VObj _ => false
  | _ => true
  end.

Definition json_image (x : value) : option value :=
  match x with
  | VUndefined => None
  | VNull | VBool _ | VStr _ | VNum (Int _) => Some x
  | VNum _ => Some VNull
  | VDate (ValidDate t) =>
      if valid_datetime t then Some (VStr (toISOString t)) else Some VNull
  | VDate InvalidDate => Some VNull
  | VArr _ | VObj _ => None
  end.

Definition json_image_props (props : list (jsstring * value)) : list (jsstring * value) :=
  flat_map (fun kx => match json_image (snd kx) with
                      | Some y => [(fst kx, y)]
                      | None => []
                      end) props.

(** The text of one member of an object. *)
Definition member_text (kx : jsstring * value) : jsstring :=
  quote (fst kx) ++ 58 :: JSON_stringify (snd kx).

(** A value that is its own image. *)
Definition is_json_flat (x : value) : bool :=
  match x with
  | VNull | VBool _ | VStr _ | VNum (Int _) => true
  | _ => false
  end.

(** What a property reads as after the text of its object was parsed. *)
Definition reloaded_value (x : value) : value :=
  match json_image x with
  | Some y => y
  | None => VUndefined
  end.

(** *** The values [formSchema] returns *)

Definition is_nonempty_string (v : value) : bool :=
  match v with VStr s => truthy_str s | _ => false end.

Definition is_valid_date (v : value) : bool :=
  match v with VDate d => valid_date d | _ => false end.

Definition form_shape (v : value) : bool :=
  is_object v
  && is_nonempty_string (get v (lit "destination"))
  && is_valid_date (get v (lit "startDate"))
  && (is_absent (get v (lit "days")) || is_number_between 1 21 (get v (lit "days")))
  && (is_absent (get v (lit "budget")) || is_one_of BUDGETS (get v (lit "budget")))
  && (is_absent (get v (lit "travelers")) || is_number_at_least 1 (get v (lit "travelers")))
  && is_nonempty_string (get v (lit "interests"))
  && (is_absent (get v (lit "pace")) || is_one_of PACES (get v (lit "pace")))
  && (is_absent (get v (lit "mustInclude")) || is_string (get v (lit "mustInclude")))
  && (is_absent (get v (lit "avoid")) || is_string (get v (lit "avoid")))
  && (is_absent (get v (lit "notes")) || is_string (get v (lit "notes"))).

Definition parsed_form (v : value) : list (jsstring * value) :=
  [ (lit "destination", get v (lit "destination"));
    (lit "startDate", get v (lit "startDate"));
    (lit "days", or_default (VNum (Int 3)) (get v (lit "days")));
    (lit "budget", or_default (VStr (lit "Medium")) (get v (lit "budget")));
    (lit "travelers", or_default (VNum (Int 2)) (get v (lit "travelers")));
    (lit "interests", get v (lit "interests"));
    (lit "pace", or_default (VStr (lit "Balanced")) (get v (lit "pace"))) ]
  ++ optional_prop v (lit "mustInclude")
  ++ optional_prop v (lit "avoid")
  ++ optional_prop v (lit "notes").

(** Two destinations: one written outside Latin-1, one inside it. *)
Definition tokyo : jsstring := [26481; 20140].
Definition tromso : jsstring := lit "Troms" ++ [248].

(** The strings of a list are distinct. *)
Fixpoint distinct (l : list jsstring) : bool :=
  match l with
  | [] => true
  | x :: l' => negb (includes l' x) && distinct l'
  end.

(** ** Further vocabulary *)

(** The array [toggleInterest] works on: the pieces of the field that
    are not empty. *)
Definition current_interests (interests : jsstring) : list jsstring :=
  List.filter truthy_str (split_comma_space interests).

Definition without (interest : jsstring) (l : list jsstring) : list jsstring :=
  List.filter (fun i => negb (str_eqb i interest)) l.

(** The six-bit groups of a sequence of bytes, and the padding that
    [b64_encode] puts after their characters. *)
Fixpoint b64_sextets (bytes : list N) : list N :=
  match bytes with
  | [] => []
  | [a] => [a / 4; a mod 4 * 16]
  | [a; b] => [a / 4; a mod 4 * 16 + b / 16; b mod 16 * 4]
  | a :: b :: c :: rest =>
      a / 4 :: (a mod 4 * 16 + b / 16) :: (b mod 16 * 4 + c / 64) :: c mod 64
      :: b64_sextets rest
  end.

Fixpoint b64_padding (bytes : list N) : jsstring :=
  match bytes with
  | [] => []
  | [_] => [61; 61]
  | [_; _] => [61]
  | _ :: _ :: _ :: rest => b64_padding rest
  end.

Definition is_latin1 (s : jsstring) : bool := forallb (fun c => c <=? 255) s.


(** * Properties *)

(** ** Strings: basic facts *)

Lemma str_eqb_eq a b : str_eqb a b = true <-> a = b.
Proof.
  revert b; induction a as [|x a IH]; intros [|y b]; simpl; split;
    try congruence; try discriminate.
  - intros H. apply andb_true_iff in H as [Hx Hr].
    apply N.eqb_eq in Hx. apply IH in Hr. congruence.
  - intros [= -> ->]. rewrite N.eqb_refl. simpl. now apply IH.
Qed.

Lemma str_eqb_refl a : str_eqb a a = true.
Proof. now apply str_eqb_eq. Qed.

Lemma str_eqb_neq a b : str_eqb a b = false <-> a <> b.
Proof.
  split.
  - intros H E. apply str_eqb_eq in E. congruence.
  - intros H. destruct (str_eqb a b) eqn:E; [|reflexivity].
    apply str_eqb_eq in E. contradiction.
Qed.

Lemma includes_In l x : includes l x = true <-> In x l.
Proof.
  unfold includes. rewrite existsb_exists. split.
  - intros (y & Hy & E). apply str_eqb_eq in E. now subst.
  - intros H. exists x. split; [assumption | apply str_eqb_refl].
Qed.

Lemma includes_not_In l x : ~ In x l -> includes l x = false.
Proof.
  intros H. destruct (includes l x) eqn:E; [|reflexivity].
  apply includes_In in E. contradiction.
Qed.

(** ** Splitting a joined list *)

Lemma split_entry_sep x r :
  has_comma_space x = false ->
  split_comma_space (x ++ 44 :: 32 :: r) = x :: split_comma_space r.
Proof.
  induction x as [|c x IH]; intros H.
  - reflexivity.
  - destruct x as [|d x].
    + simpl. unfold is_comma_space.
      replace (44 =? 32) with false by reflexivity.
      rewrite andb_false_r. reflexivity.
    + change (has_comma_space (c :: d :: x))
        with (is_comma_space c d || has_comma_space (d :: x)) in H.
      apply orb_false_iff in H as [Hcd Hx].
      change (split_comma_space ((c :: d :: x) ++ 44 :: 32 :: r))
        with (if is_comma_space c d
              then [] :: split_comma_space (x ++ 44 :: 32 :: r)
              else cons_head c (split_comma_space ((d :: x) ++ 44 :: 32 :: r))).
      rewrite Hcd, (IH Hx). reflexivity.
Qed.

Lemma split_entry x :
  has_comma_space x = false -> split_comma_space x = [x].
Proof.
  induction x as [|c x IH]; intros H.
  - reflexivity.
  - destruct x as [|d x].
    + reflexivity.
    + change (has_comma_space (c :: d :: x))
        with (is_comma_space c d || has_comma_space (d :: x)) in H.
      apply orb_false_iff in H as [Hcd Hx].
      change (split_comma_space (c :: d :: x))
        with (if is_comma_space c d then [] :: split_comma_space x
              else cons_head c (split_comma_space (d :: x))).
      rewrite Hcd, (IH Hx). reflexivity.
Qed.

Lemma join_cons x y l :
  join_comma_space (x :: y :: l) = x ++ 44 :: 32 :: join_comma_space (y :: l).
Proof. reflexivity. Qed.

Lemma split_join l :
  l <> [] -> Forall entry l -> split_comma_space (join_comma_space l) = l.
Proof.
  induction l as [|x l IH]; intros Hne Hall; [congruence|].
  inversion Hall as [|? ? [_ Hx] Hl]; subst.
  destruct l as [|y l].
  - simpl. now apply split_entry.
  - rewrite join_cons, split_entry_sep by assumption.
    f_equal. apply IH; [discriminate | assumption].
Qed.

Lemma filter_truthy_entries l :
  Forall entry l -> List.filter truthy_str l = l.
Proof.
  induction 1 as [|x l [Hx _] _ IH]; [reflexivity|].
  simpl. destruct x; [congruence|]. simpl. now rewrite IH.
Qed.

(** The array [toggleInterest] works on, for a field that holds a joined
    list of entries (the empty list gives the empty string, which splits
    into one empty piece that [filter(Boolean)] drops). *)
Lemma current_of_join l :
  Forall entry l ->
  List.filter truthy_str (split_comma_space (join_comma_space l)) = l.
Proof.
  intros H. destruct l as [|x l]; [reflexivity|].
  rewrite split_join by (discriminate || assumption).
  now apply filter_truthy_entries.
Qed.

Lemma filter_neq_absent (i : jsstring) l :
  ~ In i l -> List.filter (fun j => negb (str_eqb j i)) l = l.
Proof.
  induction l as [|x l IH]; intros H; [reflexivity|].
  simpl. destruct (str_eqb x i) eqn:E.
  - apply str_eqb_eq in E. subst. exfalso. apply H. now left.
  - simpl. rewrite IH; [reflexivity|]. intros Hin. apply H. now right.
Qed.

Lemma filter_neq_app_last (i : jsstring) l :
  ~ In i l -> List.filter (fun j => negb (str_eqb j i)) (l ++ [i]) = l.
Proof.
  intros H. rewrite List.filter_app, filter_neq_absent by assumption.
  simpl. rewrite str_eqb_refl. simpl. apply app_nil_r.
Qed.

Lemma toggle_on i l :
  Forall entry l -> ~ In i l ->
  toggleInterest i (join_comma_space l) = join_comma_space (l ++ [i]).
Proof.
  intros Hl Hi. unfold toggleInterest.
  rewrite current_of_join by assumption.
  now rewrite includes_not_In.
Qed.

Lemma toggle_off i l :
  Forall entry l -> In i l ->
  toggleInterest i (join_comma_space l)
  = join_comma_space (List.filter (fun j => negb (str_eqb j i)) l).
Proof.
  intros Hl Hi. unfold toggleInterest.
  rewrite current_of_join by assumption.
  apply includes_In in Hi. now rewrite Hi.
Qed.

Lemma INTERESTS_entries : Forall entry INTERESTS.
Proof.
  repeat constructor; try discriminate; reflexivity.
Qed.

Lemma entry_of_INTERESTS i : In i INTERESTS -> entry i.
Proof.
  intros H. pose proof INTERESTS_entries as F.
  rewrite Forall_forall in F. now apply F.
Qed.

(** C10. For an [interests] field that is the [", "]-join of entries
    (non-empty pieces between separators) none of which is the interest
    [i] of the page, toggling [i] appends it at the end of the list, and
    toggling it again removes exactly it, so that the field is back at its
    original value with the other entries in their order. *)
Theorem toggleInterest_twice (i : jsstring) (l : list jsstring) :
  In i INTERESTS -> Forall entry l -> ~ In i l ->
  toggleInterest i (join_comma_space l) = join_comma_space (l ++ [i]) /\
  toggleInterest i (join_comma_space (l ++ [i])) = join_comma_space l /\
  toggleInterest i (toggleInterest i (join_comma_space l)) = join_comma_space l.
Proof.
  intros Hi Hl Hni.
  assert (Hon : toggleInterest i (join_comma_space l) = join_comma_space (l ++ [i]))
    by now apply toggle_on.
  assert (Hl' : Forall entry (l ++ [i])).
  { apply Forall_app. split; [assumption|].
    constructor; [now apply entry_of_INTERESTS | constructor]. }
  assert (Hoff : toggleInterest i (join_comma_space (l ++ [i])) = join_comma_space l).
  { rewrite toggle_off; [| assumption | apply in_or_app; right; now left].
    now rewrite filter_neq_app_last. }
  repeat split; [assumption | assumption |].
  now rewrite Hon.
Qed.

Lemma toggleInterest_twice_witness :
  toggleInterest (lit "Food")
    (toggleInterest (lit "Food") (join_comma_space [lit "Beaches"; lit "Nature"]))
  = join_comma_space [lit "Beaches"; lit "Nature"].
Proof.
  refine (proj2 (proj2 (toggleInterest_twice (lit "Food") [lit "Beaches"; lit "Nature"] _ _ _))).
  - right; left; reflexivity.
  - repeat constructor; try discriminate; reflexivity.
  - intros [H | [H | []]]; discriminate H.
Defined.


(** ** The input schema *)

Lemma z_string_spec x y :
  z_string x = Some y <-> is_string x = true /\ y = x.
Proof.
  destruct x; simpl; split; intros H; try discriminate;
    try (destruct H; discriminate).
  - injection H as <-. auto.
  - destruct H; congruence.
Qed.

Lemma z_optional_string_spec x y :
  z_optional z_string x = Some y <->
  (is_absent x || is_string x) = true /\ y = x.
Proof.
  destruct x; simpl; split; intros H; try discriminate;
    try (destruct H; discriminate); try (injection H as <-; auto);
    destruct H; congruence.
Qed.

Lemma z_enum_default_spec d options x y :
  includes options d = true ->
  z_default (VStr d) (z_enum options) x = Some y <->
  (is_absent x || is_one_of options x) = true /\ y = or_default (VStr d) x.
Proof.
  intros Hd. destruct x; simpl; try rewrite Hd; split; intros H;
    try discriminate; try (destruct H; discriminate);
    try (injection H as <-; auto); try (destruct H; congruence).
  - destruct (includes options s); [injection H as <-; auto | discriminate].
  - destruct H as [-> ->]. reflexivity.
Qed.

Lemma days_schema_spec x y :
  z_default (VNum (Int 3)) (z_max 21 (z_min 1 z_number)) x = Some y <->
  (is_absent x || is_number_between 1 21 x) = true /\ y = or_default (VNum (Int 3)) x.
Proof.
  destruct x as [| | |n| | | |]; simpl; split; intros H;
    try discriminate; try (destruct H; discriminate);
    try (injection H as <-; auto); try (destruct H; subst; reflexivity).
  - unfold z_max, z_min, z_number in H. destruct n; simpl in *; try discriminate.
    destruct (1 <=? z)%Z eqn:E1; simpl in *; [|discriminate].
    destruct (z <=? 21)%Z eqn:E2; simpl in *; [|discriminate].
    injection H as <-. auto.
  - destruct H as [H ->]. unfold z_max, z_min, z_number.
    destruct n; simpl in *; try discriminate.
    apply andb_true_iff in H as [H1 H2]. rewrite H1. simpl. rewrite H2. reflexivity.
Qed.

Lemma travelers_schema_spec x y :
  z_default (VNum (Int 2)) (z_min 1 z_number) x = Some y <->
  (is_absent x || is_number_at_least 1 x) = true /\ y = or_default (VNum (Int 2)) x.
Proof.
  destruct x as [| | |n| | | |]; simpl; split; intros H;
    try discriminate; try (destruct H; discriminate);
    try (injection H as <-; auto); try (destruct H; subst; reflexivity).
  - unfold z_min, z_number in H. destruct n; simpl in *; try discriminate.
    + injection H as <-. auto.
    + destruct (1 <=? z)%Z eqn:E1; simpl in *; [|discriminate].
      injection H as <-. auto.
  - destruct H as [H ->]. unfold z_min, z_number.
    destruct n; simpl in *; try discriminate; try reflexivity.
    rewrite H. reflexivity.
Qed.

Lemma get_has_key v k : get v k <> VUndefined -> has_key v k = true.
Proof.
  destruct v; simpl; try congruence.
  destruct (obj_lookup props k); congruence.
Qed.

(** One key of a shape whose schema never returns [undefined]. *)
Lemma parse_shape_required k (s : schema) shape v (c : value -> bool) (f : value -> value) :
  (forall x y, s x = Some y <-> c x = true /\ y = f x) ->
  (forall x, c x = true -> f x <> VUndefined) ->
  parse_shape ((k, s) :: shape) v
  = if c (get v k)
    then option_map (cons (k, f (get v k))) (parse_shape shape v)
    else None.
Proof.
  intros Hs Hf. cbn [parse_shape].
  destruct (s (get v k)) as [y|] eqn:E.
  - apply Hs in E as [Hc ->]. rewrite Hc.
    destruct (parse_shape shape v) as [rest|]; [|reflexivity].
    specialize (Hf _ Hc). simpl. destruct (f (get v k)); congruence.
  - destruct (c (get v k)) eqn:Hc; [|reflexivity].
    assert (s (get v k) = Some (f (get v k))) by (apply Hs; auto).
    congruence.
Qed.

(** One key of a shape that holds an optional string. *)
Lemma parse_shape_optional k shape v :
  parse_shape ((k, z_optional z_string) :: shape) v
  = if is_absent (get v k) || is_string (get v k)
    then option_map (app (optional_prop v k)) (parse_shape shape v)
    else None.
Proof.
  cbn [parse_shape]. unfold optional_prop.
  pose proof (get_has_key v k) as Hk.
  destruct (get v k); simpl; try reflexivity.
  - destruct (parse_shape shape v); [|reflexivity].
    destruct (has_key v k); reflexivity.
  - rewrite Hk by discriminate.
    destruct (parse_shape shape v); reflexivity.
Qed.

Lemma or_default_defined d x : d <> VUndefined -> or_default d x <> VUndefined.
Proof. destruct x; simpl; congruence. Qed.

Lemma is_string_defined x : is_string x = true -> x <> VUndefined.
Proof. destruct x; simpl; congruence. Qed.

(** C4. The input schema of the generative call accepts exactly the
    objects in which [destination], [startDate] and [interests] are
    strings, [days] is absent or a number from 1 to 21, [budget] is absent
    or one of Low, Medium, Luxury, [travelers] is absent or a number that
    is at least 1, [pace] is absent or one of Relaxed, Balanced, Intense,
    and [mustInclude], [avoid] and [notes] are absent or strings; it
    rejects every other value; and the value it returns has 3, Medium, 2
    and Balanced in the place of an absent [days], [budget], [travelers]
    and [pace]. *)
Theorem input_schema_accepts_exactly (v : value) :
  GeneratePersonalizedItineraryInputSchema v
  = if preferences_shape v then Some (parsed_preferences v) else None.
Proof.
  unfold GeneratePersonalizedItineraryInputSchema, z_object, preferences_shape,
    parsed_preferences.
  destruct v; try reflexivity.
  change (is_object (VObj props)) with true. rewrite andb_true_l.
  set (v := VObj props).
  rewrite (parse_shape_required _ _ _ v is_string (fun x => x) z_string_spec is_string_defined).
  rewrite (parse_shape_required _ _ _ v is_string (fun x => x) z_string_spec is_string_defined).
  rewrite (parse_shape_required _ _ _ v _ _ days_schema_spec)
    by (intros; apply or_default_defined; discriminate).
  rewrite (parse_shape_required _ _ _ v _ _ (fun x y => z_enum_default_spec (lit "Medium") BUDGETS x y eq_refl))
    by (intros; apply or_default_defined; discriminate).
  rewrite (parse_shape_required _ _ _ v _ _ travelers_schema_spec)
    by (intros; apply or_default_defined; discriminate).
  rewrite (parse_shape_required _ _ _ v is_string (fun x => x) z_string_spec is_string_defined).
  rewrite (parse_shape_required _ _ _ v _ _ (fun x y => z_enum_default_spec (lit "Balanced") PACES x y eq_refl))
    by (intros; apply or_default_defined; discriminate).
  rewrite !parse_shape_optional.
  cbn [parse_shape].
  repeat match goal with
         | |- context [if ?b then _ else None] =>
             lazymatch b with
             | context [andb] => fail
             | _ => destruct b; [| rewrite ?andb_false_r; reflexivity]
             end
         end.
  simpl andb. cbn [option_map app]. rewrite app_nil_r. reflexivity.
Qed.

(** ** The server action *)

(** C1. Whatever the input, the state of the server and the behaviour of
    what lies behind the flow, [generateItineraryAction] returns and does
    not throw.  It returns the output of [generatePersonalizedItinerary]
    when that call returns, and otherwise the object whose [error] is
    "Failed to generate itinerary: " followed by the message of the error
    thrown, or by "An unknown error occurred." when the message is missing
    or empty.  [generatePersonalizedItinerary] is called once, with the
    input of the action, and the prompt at most once. *)
Theorem generateItineraryAction_never_throws (B : Backend) (input : value) (w : Server) :
  exists (r : ActionResult) (w' : Server),
    generateItineraryAction B input w = (Ok r, w') /\
    flow_calls w' = flow_calls w ++ [input] /\
    (List.length (prompt_calls w') <= S (List.length (prompt_calls w)))%nat /\
    match fst (generatePersonalizedItinerary B input w) with
    | Ok o => r = Generated o
    | Throw e =>
        r = ErrorObject
              (lit "Failed to generate itinerary: " ++
               match err_message e with
               | Some (c :: m) => c :: m
               | Some [] | None => lit "An unknown error occurred."
               end)
    end.
Proof.
  unfold generateItineraryAction, try_catch, bind, generatePersonalizedItinerary,
    generatePersonalizedItineraryFlow, log_flow_call, bind.
  destruct (GeneratePersonalizedItineraryInputSchema input) as [parsed|].
  - unfold call_prompt. cbn [fst snd flow_calls prompt_calls].
    destruct (prompt B (List.length (prompt_calls w)) parsed) as [o|e].
    + eexists _, _. split; [reflexivity|]. cbn.
      split; [reflexivity|]. split; [|reflexivity].
      rewrite length_app. simpl. lia.
    + eexists _, _. split; [reflexivity|]. cbn.
      split; [reflexivity|]. split.
      * rewrite length_app. simpl. lia.
      * unfold message_or_unknown. destruct (err_message e) as [[|c m]|]; reflexivity.
  - unfold throw. eexists _, _. split; [reflexivity|]. cbn.
    split; [reflexivity|]. split.
    + lia.
    + unfold message_or_unknown.
      destruct (err_message (schema_error B input)) as [[|c m]|]; reflexivity.
Qed.

(** ** The page: requests in flight *)

Lemma begin_in_flight data p :
  (exists input, action_input data = Ok input /\
     in_flight (generateItinerary_begin data p) = in_flight p ++ [input] /\
     loading (generateItinerary_begin data p) = true) \/
  (exists e, action_input data = Throw e /\
     in_flight (generateItinerary_begin data p) = in_flight p /\
     loading (generateItinerary_begin data p) = false).
Proof.
  unfold generateItinerary_begin.
  destruct (action_input data) as [input|e].
  - left. exists input. repeat split.
  - right. exists e. repeat split.
Qed.

Lemma begin_at_most_one data p :
  in_flight p = [] -> at_most_one (generateItinerary_begin data p).
Proof.
  intros Hp. destruct (begin_in_flight data p) as [(i & _ & Hi & Hl)|(e & _ & Hi & Hl)].
  - right. exists i. rewrite Hi, Hp. auto.
  - left. rewrite Hi, Hp. auto.
Qed.

(** What the effect leaves alone before it calls [generateItinerary]. *)
Lemma effect_load_frame params p :
  let p' := fst (effect_load params p) in
  in_flight p' = in_flight p /\ loading p' = loading p /\
  itinerary p' = itinerary p /\ toasts p' = toasts p /\
  localStorage p' = localStorage p /\ clipboard p' = clipboard p.
Proof.
  unfold effect_load, effect_read.
  destruct (searchParams_get params (lit "plan")) as [[|c plan]|].
  2: { destruct (atob (c :: plan)) as [text|];
       [destruct (JSON_parse text) as [v|]|]; cbn [truthy];
       try (repeat split; reflexivity).
       destruct (truthy v); [|repeat split; reflexivity].
       destruct (truthy (get (revive_startDate v) (lit "destination")));
         repeat split; reflexivity. }
  all: unfold localStorage_getItem;
    destruct (localStorage p !! LAST_INPUT) as [[|c saved]|]; cbn [truthy];
    try (repeat split; reflexivity);
    destruct (JSON_parse (c :: saved)) as [v|]; cbn [truthy];
    try (repeat split; reflexivity);
    destruct (truthy v); [|repeat split; reflexivity];
    destruct (truthy (get (revive_startDate v) (lit "destination")));
    repeat split; reflexivity.
Qed.

Lemma effect_load_in_flight params p :
  in_flight (fst (effect_load params p)) = in_flight p /\
  loading (fst (effect_load params p)) = loading p.
Proof. pose proof (effect_load_frame params p) as H. simpl in H. tauto. Qed.

Lemma effect_at_most_one params p :
  in_flight p = [] -> loading p = false -> at_most_one (effect params p).
Proof.
  intros Hi Hl. unfold effect.
  pose proof (effect_load_in_flight params p) as [Hi' Hl'].
  destruct (effect_load params p) as [p' [data|]]; simpl in *.
  - apply begin_at_most_one. congruence.
  - left. split; congruence.
Qed.

Lemma resume_loading s p : loading (generateItinerary_resume s p) = false.
Proof. reflexivity. Qed.

Lemma resume_in_flight s p :
  in_flight (generateItinerary_resume s p) = in_flight p.
Proof. destruct s as [[o|e]|e]; reflexivity. Qed.

Lemma step_at_most_one e p :
  is_effect e = false -> at_most_one p -> at_most_one (step e p).
Proof.
  intros He Hp. destruct e as [params|data|n s|loc| |interest]; simpl in *.
  - discriminate.
  - destruct (loading p) eqn:Hl; [assumption|].
    apply begin_at_most_one.
    destruct Hp as [[Hi _]|(i & _ & Hl')]; [assumption | congruence].
  - destruct (n <? List.length (in_flight p))%nat eqn:Hn; [|assumption].
    left. rewrite resume_in_flight, resume_loading. split; [|reflexivity].
    destruct Hp as [[Hi _]|(i & Hi & _)]; rewrite Hi in *; simpl in *.
    + apply Nat.ltb_lt in Hn. lia.
    + apply Nat.ltb_lt in Hn. destruct n; [reflexivity | simpl in Hn; lia].
  - unfold handleShare. destruct (share_url loc (form p)); assumption.
  - assumption.
  - unfold page_toggleInterest.
    destruct (get (form p) (lit "interests")); assumption.
Qed.

Lemma run_at_most_one events p :
  forallb (fun e => negb (is_effect e)) events = true ->
  at_most_one p -> at_most_one (run events p).
Proof.
  revert p. induction events as [|e events IH]; intros p Hev Hp; [assumption|].
  simpl in Hev. apply andb_true_iff in Hev as [He Hev].
  simpl. apply IH; [assumption|]. apply step_at_most_one; [|assumption].
  now apply negb_true_iff.
Qed.

(** C7, as the code has it.  A request is started by a submission of the
    form or by the effect at the load of the page.  When the effect runs
    at the load only, the calls in flight are never more than one, and the
    flag is up exactly while one is; while the flag is up a submission
    starts nothing; and the flag is down after every way a request ends
    (an output, an error object, an exception after the call or before
    it). *)
Theorem one_request_in_flight (storage : gmap jsstring jsstring) (events : list Event) :
  effect_only_at_load events = true ->
  let p := run events (mount storage) in
  ((in_flight p = [] /\ loading p = false) \/
   (exists input, in_flight p = [input] /\ loading p = true)) /\
  (forall data, loading p = true -> step (Submit data) p = p) /\
  (forall s, loading (generateItinerary_resume s p) = false) /\
  (forall data e, action_input data = Throw e ->
     loading (generateItinerary_begin data p) = false /\
     in_flight (generateItinerary_begin data p) = in_flight p).
Proof.
  intros Hev p. repeat split.
  - subst p. destruct events as [|e events]; [left; split; reflexivity|].
    simpl in Hev. simpl. apply run_at_most_one; [assumption|].
    destruct (is_effect e) eqn:He.
    + destruct e; try discriminate. simpl. now apply effect_at_most_one.
    + apply step_at_most_one; [assumption|]. left. split; reflexivity.
  - intros data Hl. simpl. now rewrite Hl.
  - unfold generateItinerary_begin. rewrite H. reflexivity.
  - unfold generateItinerary_begin. rewrite H. reflexivity.
Qed.

(** ** The page: the itinerary on display *)

Lemma begin_itinerary data p : itinerary (generateItinerary_begin data p) = None.
Proof. unfold generateItinerary_begin. destruct (action_input data); reflexivity. Qed.

Lemma effect_itinerary params p :
  itinerary (effect params p) = None \/ itinerary (effect params p) = itinerary p.
Proof.
  unfold effect. pose proof (effect_load_frame params p) as H. simpl in H.
  destruct (effect_load params p) as [p' [data|]]; simpl in *.
  - left. apply begin_itinerary.
  - right. tauto.
Qed.

Lemma step_itinerary e p last :
  itinerary p = None \/ itinerary p = last ->
  itinerary (step e p) = None \/
  itinerary (step e p) = last_generated [e] p last.
Proof.
  intros Hp. destruct e as [params|data|n s|loc| |interest]; simpl.
  - destruct (effect_itinerary params p) as [H|H]; rewrite H; tauto.
  - destruct (loading p); [assumption|]. left. apply begin_itinerary.
  - destruct (n <? List.length (in_flight p))%nat.
    + destruct s as [[o|err]|err]; simpl; tauto.
    + destruct s as [[o|err]|err]; simpl; tauto.
  - unfold handleShare. destruct (share_url loc (form p)); assumption.
  - left. reflexivity.
  - unfold page_toggleInterest.
    destruct (get (form p) (lit "interests")); assumption.
Qed.

Lemma run_itinerary events p last :
  itinerary p = None \/ itinerary p = last ->
  itinerary (run events p) = None \/
  itinerary (run events p) = last_generated events p last.
Proof.
  revert p last. induction events as [|e events IH]; intros p last Hp.
  - assumption.
  - simpl. apply IH. apply (step_itinerary e p last Hp).
Qed.

(** C6, as the code has it.  At every point of a run of the page, the
    itinerary on display is empty or is the output of the most recent
    call that settled with an output.  It is emptied when a generation
    starts and by Clear: after a request that fails, whatever was on
    display before, nothing is. *)
Theorem displayed_itinerary (storage : gmap jsstring jsstring) (events : list Event) :
  (itinerary (run events (mount storage)) = None \/
   itinerary (run events (mount storage))
   = last_generated events (mount storage) None) /\
  (forall data, itinerary (generateItinerary_begin data (run events (mount storage))) = None) /\
  itinerary (handleClear (run events (mount storage))) = None /\
  (forall data s,
     loading (run events (mount storage)) = false -> is_failure s = true ->
     itinerary (run (events ++ [Submit data; Settle 0 s]) (mount storage)) = None).
Proof.
  split; [apply run_itinerary; left; reflexivity|].
  split; [intros; apply begin_itinerary|].
  split; [reflexivity|].
  intros data s Hl Hs. unfold run. rewrite fold_left_app.
  fold (run events (mount storage)). set (p := run events (mount storage)) in *.
  simpl. rewrite Hl.
  pose proof (begin_itinerary data p) as Hb.
  destruct (0 <? List.length (in_flight (generateItinerary_begin data p)))%nat; [|assumption].
  destruct s as [[o|err]|err]; try discriminate; simpl; assumption.
Qed.

Lemma one_request_in_flight_witness :
  let p := run [RunEffect [(lit "plan", sample_plan)];
                Settle 0 (Fulfilled (Generated sample_output));
                Submit (sample_values (lit "Goa"))] (mount ∅) in
  (in_flight p = [] /\ loading p = false) \/
  (exists input, in_flight p = [input] /\ loading p = true).
Proof.
  exact (proj1 (one_request_in_flight ∅
                  [RunEffect [(lit "plan", sample_plan)];
                   Settle 0 (Fulfilled (Generated sample_output));
                   Submit (sample_values (lit "Goa"))] eq_refl)).
Defined.

(** Against C7 as it is worded: the load of a page whose link carries a
    plan starts a request, and no form was submitted. *)
Lemma request_started_without_submission :
  existsb is_submit [RunEffect [(lit "plan", sample_plan)]] = false /\
  List.length (in_flight (run [RunEffect [(lit "plan", sample_plan)]] (mount ∅))) = 1%nat /\
  loading (run [RunEffect [(lit "plan", sample_plan)]] (mount ∅)) = true.
Proof. vm_compute. repeat split. Qed.

Lemma displayed_itinerary_witness :
  itinerary (run ([] ++ [Submit (sample_values (lit "Goa"));
                         Settle 0 (Rejected {| err_name := lit "Error";
                                               err_message := None |})])
               (mount ∅)) = None.
Proof.
  exact (proj2 (proj2 (proj2 (displayed_itinerary ∅ [])))
           (sample_values (lit "Goa"))
           (Rejected {| err_name := lit "Error"; err_message := None |})
           eq_refl eq_refl).
Defined.

(** Against C6 as it is worded: an output was on display, a later request
    failed, and the display is empty although that output is still the
    most recent one. *)
Lemma successful_result_not_held :
  let events :=
    [ Submit (sample_values (lit "Goa"));
      Settle 0 (Fulfilled (Generated sample_output));
      Submit (sample_values (lit "Goa"));
      Settle 0 (Fulfilled (ErrorObject (lit "Failed to generate itinerary: quota"))) ] in
  last_generated events (mount ∅) None = Some sample_output /\
  itinerary (run events (mount ∅)) = None.
Proof. vm_compute. split; reflexivity. Qed.

(** ** The page: the effect at load *)

Lemma begin_frame data p :
  storage_reads (generateItinerary_begin data p) = storage_reads p /\
  form (generateItinerary_begin data p) = form p /\
  console (generateItinerary_begin data p) = console p /\
  localStorage (generateItinerary_begin data p)
  = <[LAST_INPUT := JSON_stringify data]> (localStorage p).
Proof.
  unfold generateItinerary_begin. destruct (action_input data); repeat split.
Qed.

(** The effect when the [plan] parameter is there and is not empty. *)
Lemma effect_load_plan params c plan p :
  searchParams_get params (lit "plan") = Some (c :: plan) ->
  effect_load params p =
  match atob (c :: plan) with
  | Ok text =>
      match JSON_parse text with
      | Some v =>
          if truthy v then
            (form_reset (revive_startDate v) p,
             if truthy (get (revive_startDate v) (lit "destination"))
             then Some (revive_startDate v) else None)
          else (p, None)
      | None => (page_console_error (lit "Failed to parse plan from URL") p, None)
      end
  | Throw _ => (page_console_error (lit "Failed to parse plan from URL") p, None)
  end.
Proof.
  intros H. unfold effect_load, effect_read. rewrite H.
  destruct (atob (c :: plan)) as [text|]; [|reflexivity].
  destruct (JSON_parse text) as [v|]; [|reflexivity].
  destruct (truthy v); [|reflexivity].
  destruct (truthy (get (revive_startDate v) (lit "destination"))); reflexivity.
Qed.

(** C9, as the code has it.  When the [plan] parameter is there and is
    not empty, the effect does not read the local storage; and when the
    parameter cannot be decoded, the form, the storage, the toasts and the
    calls in flight are as they were, so that no saved record is used. *)
Theorem plan_parameter_precedence
  (params : list (jsstring * jsstring)) (plan : jsstring) (p : Page) :
  searchParams_get params (lit "plan") = Some plan -> plan <> [] ->
  storage_reads (effect params p) = storage_reads p /\
  ((forall text, atob plan = Ok text -> JSON_parse text = None) ->
   effect params p = page_console_error (lit "Failed to parse plan from URL") p).
Proof.
  intros Hget Hne. destruct plan as [|c plan]; [congruence|].
  unfold effect. rewrite (effect_load_plan _ _ _ _ Hget).
  destruct (atob (c :: plan)) as [text|e].
  - destruct (JSON_parse text) as [v|] eqn:Hv.
    + split.
      * destruct (truthy v); [|reflexivity].
        destruct (truthy (get (revive_startDate v) (lit "destination"))); [|reflexivity].
        now rewrite (proj1 (begin_frame _ _)).
      * intros Hfail. specialize (Hfail text eq_refl). congruence.
    + split; reflexivity.
  - split; reflexivity.
Qed.

Lemma plan_parameter_precedence_witness :
  effect [(lit "plan", lit "not base64!")] (mount ∅)
  = page_console_error (lit "Failed to parse plan from URL") (mount ∅).
Proof.
  refine (proj2 (plan_parameter_precedence [(lit "plan", lit "not base64!")]
                   (lit "not base64!") (mount ∅) eq_refl _) _).
  - discriminate.
  - intros text H. vm_compute in H. discriminate H.
Defined.

(** Against C9 as it is worded: a [plan] parameter that is there and is
    empty lets the effect read the local storage and load the saved
    record. *)
Lemma empty_plan_reads_storage :
  let storage : gmap jsstring jsstring :=
    {[ LAST_INPUT := JSON_stringify (sample_values (lit "Goa")) ]} in
  let params := [(lit "plan", [])] in
  searchParams_get params (lit "plan") = Some [] /\
  storage_reads (effect params (mount storage)) = [LAST_INPUT] /\
  get (form (effect params (mount storage))) (lit "destination") = VStr (lit "Goa").
Proof. vm_compute. repeat split. Qed.

Lemma get_obj_set_other props k k' x :
  k <> k' -> get (VObj (obj_set props k x)) k' = get (VObj props) k'.
Proof.
  intros Hk. simpl. induction props as [|[k0 v0] props IH]; simpl.
  - apply str_eqb_neq in Hk. now rewrite Hk.
  - destruct (str_eqb k0 k) eqn:E0.
    + apply str_eqb_eq in E0. subst k0. simpl.
      apply str_eqb_neq in Hk. now rewrite Hk.
    + simpl. destruct (str_eqb k0 k'); [reflexivity | assumption].
Qed.

Lemma get_revive_other v k :
  k <> lit "startDate" -> get (revive_startDate v) k = get v k.
Proof.
  intros Hk. unfold revive_startDate.
  destruct (truthy (get v (lit "startDate"))); [|reflexivity].
  destruct v; try reflexivity. unfold set_prop.
  apply get_obj_set_other. congruence.
Qed.

(** ** The page: failures *)

Lemma flow_throws_on_schema B input w :
  GeneratePersonalizedItineraryInputSchema input = None ->
  fst (generatePersonalizedItinerary B input w) = Throw (schema_error B input).
Proof.
  intros H. unfold generatePersonalizedItinerary, bind, log_flow_call,
    generatePersonalizedItineraryFlow. now rewrite H.
Qed.

Lemma flow_throws_on_prompt B input parsed e w :
  GeneratePersonalizedItineraryInputSchema input = Some parsed ->
  prompt B (List.length (prompt_calls w)) parsed = Throw e ->
  fst (generatePersonalizedItinerary B input w) = Throw e.
Proof.
  intros H He. unfold generatePersonalizedItinerary, bind, log_flow_call,
    generatePersonalizedItineraryFlow. rewrite H. unfold call_prompt. simpl.
  now rewrite He.
Qed.

Lemma await_action_of_throw B input w e :
  fst (generatePersonalizedItinerary B input w) = Throw e ->
  fst (await_action B input w)
  = Fulfilled (ErrorObject (lit "Failed to generate itinerary: " ++ message_or_unknown e)).
Proof.
  intros H. unfold await_action, generateItineraryAction, try_catch, bind.
  destruct (generatePersonalizedItinerary B input w) as [[o|e'] w']; simpl in H.
  - discriminate.
  - injection H as ->. reflexivity.
Qed.

Lemma malformed_plan_logged params plan p :
  searchParams_get params (lit "plan") = Some plan -> plan <> [] ->
  (forall text, atob plan = Ok text -> JSON_parse text = None) ->
  effect params p = page_console_error (lit "Failed to parse plan from URL") p.
Proof.
  intros Hget Hne Hfail. destruct plan as [|c plan]; [congruence|].
  unfold effect. rewrite (effect_load_plan _ _ _ _ Hget).
  destruct (atob (c :: plan)) as [text|e]; [|reflexivity].
  now rewrite (Hfail text eq_refl).
Qed.

(** C3, as the code has it.  A failure of the generation, be it the input
    schema that rejects the input or the remote call that throws, comes
    back from the action as an error object and is shown in one
    destructive toast whose description carries the message; a call that
    fails itself, and an exception before the call, are shown in a second
    destructive toast with a fixed text.  In each case the flag goes down
    and no call is made again.  A [plan] parameter that cannot be decoded
    is not shown to the user: it leaves a line on the console and nothing
    else. *)
Theorem failures_at_the_boundary
  (B : Backend) (w : Server) (p : Page) (input : value) (rest : list value) :
  in_flight p = input :: rest ->
  (GeneratePersonalizedItineraryInputSchema input = None ->
   fst (generatePersonalizedItinerary B input w) = Throw (schema_error B input)) /\
  (forall parsed e,
     GeneratePersonalizedItineraryInputSchema input = Some parsed ->
     prompt B (List.length (prompt_calls w)) parsed = Throw e ->
     fst (generatePersonalizedItinerary B input w) = Throw e) /\
  (forall e,
     fst (generatePersonalizedItinerary B input w) = Throw e ->
     step (Settle 0 (fst (await_action B input w))) p
     = setLoading false
         (toast (error_generating_toast
                   (lit "Failed to generate itinerary: " ++ message_or_unknown e))
            (set_in_flight rest p))) /\
  (forall e,
     step (Settle 0 (Rejected e)) p
     = setLoading false (toast unexpected_error_toast (set_in_flight rest p))) /\
  (forall data e,
     action_input data = Throw e ->
     generateItinerary_begin data p
     = setLoading false
         (toast unexpected_error_toast
            (localStorage_setItem LAST_INPUT (JSON_stringify data)
               (setItinerary None (setLoading true p))))) /\
  (forall params plan,
     searchParams_get params (lit "plan") = Some plan -> plan <> [] ->
     (forall text, atob plan = Ok text -> JSON_parse text = None) ->
     effect params p = page_console_error (lit "Failed to parse plan from URL") p).
Proof.
  intros Hp.
  split; [apply flow_throws_on_schema|].
  split; [intros parsed e; apply flow_throws_on_prompt|].
  split.
  { intros e He. rewrite (await_action_of_throw _ _ _ _ He).
    simpl. rewrite Hp. reflexivity. }
  split.
  { intros e. simpl. rewrite Hp. reflexivity. }
  split.
  { intros data e He. unfold generateItinerary_begin. now rewrite He. }
  intros params plan. apply malformed_plan_logged.
Qed.

Lemma failures_at_the_boundary_witness :
  toasts (step (Settle 0 (fst (await_action failing_backend
                                 (VObj [(lit "destination", VStr (lit "Goa"));
                                        (lit "startDate", VStr (lit "2025-01-15"));
                                        (lit "interests", VStr (lit "Food"))])
                                 idle_server)))
            (set_in_flight
               [VObj [(lit "destination", VStr (lit "Goa"));
                      (lit "startDate", VStr (lit "2025-01-15"));
                      (lit "interests", VStr (lit "Food"))]]
               (setLoading true (mount ∅))))
  = [error_generating_toast (lit "Failed to generate itinerary: quota exceeded")].
Proof.
  pose proof (failures_at_the_boundary failing_backend idle_server
                (set_in_flight
                   [VObj [(lit "destination", VStr (lit "Goa"));
                          (lit "startDate", VStr (lit "2025-01-15"));
                          (lit "interests", VStr (lit "Food"))]]
                   (setLoading true (mount ∅)))
                _ [] eq_refl) as (_ & _ & H & _).
  rewrite (H {| err_name := lit "Error"; err_message := Some (lit "quota exceeded") |} eq_refl).
  reflexivity.
Defined.

(** Against C3 as it is worded: a [plan] parameter that is not base64 is
    caught, and the user is shown nothing. *)
Lemma malformed_plan_not_notified :
  atob (lit "not base64!")
  = Throw {| err_name := lit "InvalidCharacterError"; err_message := None |} /\
  toasts (effect [(lit "plan", lit "not base64!")] (mount ∅)) = [] /\
  console (effect [(lit "plan", lit "not base64!")] (mount ∅))
  = [lit "Failed to parse plan from URL"].
Proof. vm_compute. repeat split. Qed.

(** ** Digits *)

Lemma digit_is_digit d : (0 <= d < 10)%Z -> is_digit (digit d) = true.
Proof.
  intros H. unfold is_digit, digit.
  apply andb_true_iff. split; apply N.leb_le; lia.
Qed.

Lemma digit_val_digit d : (0 <= d < 10)%Z -> digit_val (digit d) = d.
Proof. intros H. unfold digit_val, digit. lia. Qed.

Lemma read_fixed_app a b acc s :
  read_fixed (a + b) acc s
  = match read_fixed a acc s with
    | Some (acc', s') => read_fixed b acc' s'
    | None => None
    end.
Proof.
  revert acc s. induction a as [|a IH]; intros acc s; [reflexivity|].
  simpl. destruct s as [|c s]; [reflexivity|].
  destruct (is_digit c); [apply IH | reflexivity].
Qed.

Lemma read_fixed_pad k z acc rest :
  (0 <= z < 10 ^ Z.of_nat k)%Z ->
  read_fixed k acc (pad_digits k z ++ rest) = Some ((acc * 10 ^ Z.of_nat k + z)%Z, rest).
Proof.
  revert z acc rest. induction k as [|k IH]; intros z acc rest Hz.
  - simpl in *. f_equal. f_equal. lia.
  - replace (S k) with (k + 1)%nat by lia. rewrite read_fixed_app.
    replace (k + 1)%nat with (S k) by lia.
    cbn [pad_digits]. rewrite <- app_assoc.
    assert (Hpow : (10 ^ Z.of_nat (S k) = 10 * 10 ^ Z.of_nat k)%Z).
    { rewrite Nat2Z.inj_succ, Z.pow_succ_r by lia. reflexivity. }
    rewrite IH by (rewrite Hpow in Hz; split;
                   [apply Z.div_pos; lia | apply Z.div_lt_upper_bound; lia]).
    simpl. assert (Hm : (0 <= z mod 10 < 10)%Z) by (apply Z.mod_pos_bound; lia).
    rewrite digit_is_digit, digit_val_digit by assumption.
    f_equal. f_equal. rewrite Hpow.
    pose proof (Z.div_mod z 10 ltac:(lia)). lia.
Qed.

Lemma read_fixed_pad0 k z rest :
  (0 <= z < 10 ^ Z.of_nat k)%Z ->
  read_fixed k 0 (pad_digits k z ++ rest) = Some (z, rest).
Proof. intros H. rewrite read_fixed_pad by assumption. f_equal. Qed.

Lemma pad_digits_head k z :
  (0 <= z)%Z -> exists d r, pad_digits (S k) z = d :: r /\ is_digit d = true.
Proof.
  revert z. induction k as [|k IH]; intros z Hz.
  - exists (digit (z mod 10)), []. split; [reflexivity|].
    apply digit_is_digit. apply Z.mod_pos_bound. lia.
  - destruct (IH (z / 10)%Z) as (d & r & Hd & Hdig); [apply Z.div_pos; lia|].
    exists d, (r ++ [digit (z mod 10)]). split; [|assumption].
    change (pad_digits (S (S k)) z)
      with (pad_digits (S k) (z / 10) ++ [digit (z mod 10)]).
    now rewrite Hd.
Qed.

(** ** Dates: the ISO text is read back *)

Lemma expect_cons c s : expect c (c :: s) = Some s.
Proof. unfold expect. now rewrite N.eqb_refl. Qed.

Lemma read_year_iso y rest :
  (-999999 <= y <= 999999)%Z ->
  read_year (iso_year y ++ rest) = Some (y, rest).
Proof.
  intros Hy. unfold iso_year, in_range.
  destruct ((0 <=? y)%Z && (y <=? 9999)%Z) eqn:E.
  - apply andb_true_iff in E as [E1 E2]. apply Z.leb_le in E1, E2.
    destruct (pad_digits_head 3 y E1) as (d & r & Hd & Hdig).
    rewrite Hd. rewrite <- app_comm_cons. unfold read_year.
    unfold is_digit in Hdig. apply andb_true_iff in Hdig as [H1 H2].
    apply N.leb_le in H1, H2.
    replace (d =? 43) with false by (symmetry; apply N.eqb_neq; lia).
    replace (d =? 45) with false by (symmetry; apply N.eqb_neq; lia).
    change (d :: r ++ rest) with ((d :: r) ++ rest). rewrite <- Hd.
    apply read_fixed_pad0. simpl. lia.
  - destruct (y <? 0)%Z eqn:E0.
    + apply Z.ltb_lt in E0. rewrite <- app_comm_cons. unfold read_year.
      change (45 =? 43) with false. change (45 =? 45) with true. cbv iota.
      rewrite read_fixed_pad0 by (simpl; lia).
      replace (- y =? 0)%Z with false by (symmetry; apply Z.eqb_neq; lia).
      f_equal. f_equal. lia.
    + rewrite <- app_comm_cons. unfold read_year. change (43 =? 43) with true. cbv iota.
      apply read_fixed_pad0. apply Z.ltb_ge in E0. simpl. lia.
Qed.

Lemma valid_datetime_bounds t :
  valid_datetime t = true ->
  (-271820 <= year t <= 275759 /\ 1 <= month t <= 12 /\ 1 <= day_of_month t <= 31 /\
   0 <= hours t <= 23 /\ 0 <= minutes t <= 59 /\ 0 <= seconds t <= 59 /\
   0 <= milliseconds t <= 999)%Z.
Proof.
  unfold valid_datetime, in_range. intros H.
  repeat (apply andb_true_iff in H as [H ?]).
  repeat match goal with
         | H : (_ <=? _)%Z = true |- _ => apply Z.leb_le in H
         end.
  assert (days_in_month (year t) (month t) <= 31)%Z.
  { unfold days_in_month.
    destruct (month t =? 2)%Z; [destruct (leap_year (year t)); lia|].
    destruct ((month t =? 4) || (month t =? 6) || (month t =? 9) || (month t =? 11))%Z; lia. }
  lia.
Qed.

Lemma parse_date_toISOString t :
  valid_datetime t = true -> parse_date (toISOString t) = ValidDate t.
Proof.
  intros Hv. pose proof (valid_datetime_bounds t Hv) as (Hy & Hmo & Hd & Hh & Hmi & Hs & Hms).
  unfold parse_date, read_date_fields, toISOString.
  rewrite read_year_iso by lia. cbn [mbind option_bind].
  rewrite expect_cons. cbn [mbind option_bind].
  rewrite read_fixed_pad0 by (simpl; lia). cbn [mbind option_bind].
  rewrite expect_cons. cbn [mbind option_bind].
  rewrite read_fixed_pad0 by (simpl; lia). cbn [mbind option_bind].
  rewrite expect_cons. cbn [mbind option_bind].
  rewrite read_fixed_pad0 by (simpl; lia). cbn [mbind option_bind].
  rewrite expect_cons. cbn [mbind option_bind].
  rewrite read_fixed_pad0 by (simpl; lia). cbn [mbind option_bind].
  rewrite expect_cons. cbn [mbind option_bind].
  rewrite read_fixed_pad0 by (simpl; lia). cbn [mbind option_bind].
  rewrite expect_cons. cbn [mbind option_bind].
  rewrite read_fixed_pad0 by (simpl; lia). cbn [mbind option_bind].
  destruct t. simpl in *. rewrite Hv. reflexivity.
Qed.

(** ** JSON: a string is read back *)

Lemma hex_val_hex_digit n : n < 16 -> hex_val (hex_digit n) = Some n.
Proof.
  intros H. unfold hex_val, hex_digit.
  destruct (n <? 10) eqn:E.
  - apply N.ltb_lt in E.
    replace ((48 <=? 48 + n) && (48 + n <=? 57)) with true
      by (symmetry; apply andb_true_iff; split; apply N.leb_le; lia).
    f_equal. lia.
  - apply N.ltb_ge in E.
    replace ((48 <=? 87 + n) && (87 + n <=? 57)) with false
      by (symmetry; apply andb_false_iff; right; apply N.leb_gt; lia).
    replace ((97 <=? 87 + n) && (87 + n <=? 102)) with true
      by (symmetry; apply andb_true_iff; split; apply N.leb_le; lia).
    f_equal. lia.
Qed.

Lemma hex4_escape c :
  c < 65536 ->
  hex4 (hex_digit (c / 4096 mod 16)) (hex_digit (c / 256 mod 16))
       (hex_digit (c / 16 mod 16)) (hex_digit (c mod 16)) = Some c.
Proof.
  intros H. unfold hex4.
  rewrite !hex_val_hex_digit by (apply N.mod_lt; discriminate).
  f_equal.
  pose proof (N.Div0.div_mod c 16) as H1.
  pose proof (N.Div0.div_mod (c / 16) 16) as H2.
  pose proof (N.Div0.div_mod (c / 16 / 16) 16) as H3.
  rewrite N.Div0.div_div in H2, H3. rewrite N.Div0.div_div in H3.
  change (16 * 16) with 256 in *. change (256 * 16) with 4096 in *.
  assert (c / 4096 < 16) by (apply N.Div0.div_lt_upper_bound; lia).
  rewrite (N.mod_small (c / 4096) 16) in * by assumption.
  pose proof (N.mod_lt c 16 ltac:(discriminate)).
  lia.
Qed.

Lemma read_string_unicode_escape c s :
  c < 65536 ->
  read_string (unicode_escape c ++ s) = cons_read c (read_string s).
Proof.
  intros H. unfold unicode_escape.
  cbn [app read_string]. change (92 =? 34) with false. change (92 =? 92) with true.
  change (117 =? 117) with true. cbv iota.
  rewrite hex4_escape by assumption. reflexivity.
Qed.

Lemma read_string_literal c s :
  c <> 34 -> c <> 92 -> 32 <= c ->
  read_string (c :: s) = cons_read c (read_string s).
Proof.
  intros H1 H2 H3. cbn [read_string].
  apply N.eqb_neq in H1, H2. rewrite H1, H2.
  replace (c <? 32) with false by (symmetry; apply N.ltb_ge; assumption).
  reflexivity.
Qed.

Lemma read_string_escape_char c s :
  is_high_surrogate c = false -> is_low_surrogate c = false ->
  read_string (escape_char c ++ s) = cons_read c (read_string s).
Proof.
  intros Hh Hl. unfold escape_char.
  destruct (c =? 8) eqn:E8; [apply N.eqb_eq in E8; subst; reflexivity|].
  destruct (c =? 9) eqn:E9; [apply N.eqb_eq in E9; subst; reflexivity|].
  destruct (c =? 10) eqn:E10; [apply N.eqb_eq in E10; subst; reflexivity|].
  destruct (c =? 12) eqn:E12; [apply N.eqb_eq in E12; subst; reflexivity|].
  destruct (c =? 13) eqn:E13; [apply N.eqb_eq in E13; subst; reflexivity|].
  destruct (c =? 34) eqn:E34; [apply N.eqb_eq in E34; subst; reflexivity|].
  destruct (c =? 92) eqn:E92; [apply N.eqb_eq in E92; subst; reflexivity|].
  destruct (c <? 32) eqn:E32.
  - apply N.ltb_lt in E32. apply read_string_unicode_escape. lia.
  - apply N.ltb_ge in E32. apply N.eqb_neq in E34, E92.
    apply read_string_literal; assumption.
Qed.

Lemma surrogate_bounds c :
  is_high_surrogate c = true \/ is_low_surrogate c = true -> 55296 <= c <= 57343.
Proof.
  unfold is_high_surrogate, is_low_surrogate.
  intros [H|H]; apply andb_true_iff in H as [H1 H2]; apply N.leb_le in H1, H2; lia.
Qed.

Lemma read_string_quote_body s rest :
  read_string (quote_body s ++ 34 :: rest) = Some (s, rest).
Proof.
  remember (List.length s) as n eqn:Hn.
  revert s Hn. induction n as [n IH] using lt_wf_ind. intros s Hn.
  destruct s as [|c s]; [reflexivity|].
  cbn [quote_body].
  destruct (is_high_surrogate c) eqn:Hh.
  - pose proof (surrogate_bounds c (or_introl Hh)) as Hc.
    destruct s as [|d s].
    + rewrite read_string_unicode_escape by lia. reflexivity.
    + destruct (is_low_surrogate d) eqn:Hd.
      * pose proof (surrogate_bounds d (or_intror Hd)) as Hdb.
        rewrite <- !app_comm_cons.
        rewrite read_string_literal by lia.
        rewrite read_string_literal by lia.
        rewrite (IH (List.length s)) by (simpl in Hn; lia || reflexivity).
        reflexivity.
      * rewrite <- app_assoc, read_string_unicode_escape by lia.
        rewrite (IH (List.length (d :: s))) by (simpl in *; lia || reflexivity).
        reflexivity.
  - destruct (is_low_surrogate c) eqn:Hl.
    + pose proof (surrogate_bounds c (or_intror Hl)) as Hc.
      rewrite <- app_assoc, read_string_unicode_escape by lia.
      rewrite (IH (List.length s)) by (simpl in *; lia || reflexivity).
      reflexivity.
    + rewrite <- app_assoc, read_string_escape_char by assumption.
      rewrite (IH (List.length s)) by (simpl in *; lia || reflexivity).
      reflexivity.
Qed.

(** ** JSON: a number is read back *)

Lemma read_digits_app ds acc rest :
  forallb is_digit ds = true ->
  read_digits acc (ds ++ rest) = read_digits (digits_value acc ds) rest.
Proof.
  revert acc. induction ds as [|c ds IH]; intros acc H; [reflexivity|].
  simpl in H. apply andb_true_iff in H as [Hc Hds].
  simpl. rewrite Hc. now apply IH.
Qed.

Lemma read_digits_stop acc c rest :
  is_digit c = false -> read_digits acc (c :: rest) = (acc, c :: rest).
Proof. intros H. simpl. now rewrite H. Qed.

(** The numeral of [z]: digits only, back to [z], and no leading zero. *)
Lemma digits_fuel_spec fuel z :
  (0 <= z < 2 ^ Z.of_nat fuel)%Z -> (1 <= fuel)%nat ->
  forallb is_digit (digits_fuel fuel z) = true /\
  digits_value 0 (digits_fuel fuel z) = z /\
  exists c r, digits_fuel fuel z = c :: r /\ ((0 < z)%Z -> c <> 48).
Proof.
  revert z. induction fuel as [|fuel IH]; intros z Hz Hfuel.
  - lia.
  - cbn [digits_fuel]. destruct (z <? 10)%Z eqn:E.
    + apply Z.ltb_lt in E. repeat split.
      * simpl. rewrite digit_is_digit by lia. reflexivity.
      * unfold digits_value. simpl. rewrite digit_val_digit by lia. lia.
      * exists (digit z), []. split; [reflexivity|].
        intros Hpos. unfold digit. lia.
    + apply Z.ltb_ge in E.
      assert (Hq : (0 <= z / 10 < 2 ^ Z.of_nat fuel)%Z).
      { rewrite Nat2Z.inj_succ, Z.pow_succ_r in Hz by lia.
        split; [apply Z.div_pos; lia | apply Z.div_lt_upper_bound; lia]. }
      assert (Hq1 : (1 <= z / 10)%Z) by (apply Z.div_le_lower_bound; lia).
      assert (Hfuel' : (1 <= fuel)%nat).
      { destruct fuel; [simpl in Hq; lia | lia]. }
      destruct (IH _ Hq Hfuel') as (Hd & Hv & c & r & Hc & Hnz).
      assert (Hm : (0 <= z mod 10 < 10)%Z) by (apply Z.mod_pos_bound; lia).
      repeat split.
      * rewrite forallb_app, Hd. simpl. rewrite digit_is_digit by lia. reflexivity.
      * unfold digits_value in *. rewrite fold_left_app, Hv. simpl.
        rewrite digit_val_digit by lia.
        pose proof (Z.div_mod z 10 ltac:(lia)). lia.
      * exists c, (r ++ [digit (z mod 10)]). rewrite Hc. split; [reflexivity|].
        intros _. apply Hnz. lia.
Qed.

Lemma digits_of_spec z :
  (0 <= z)%Z ->
  forallb is_digit (digits_of z) = true /\
  digits_value 0 (digits_of z) = z /\
  exists c r, digits_of z = c :: r /\ ((0 < z)%Z -> c <> 48).
Proof.
  intros Hz. unfold digits_of. apply digits_fuel_spec; [|lia].
  split; [assumption|].
  destruct (Z.eq_dec z 0) as [->|Hne]; [reflexivity|].
  rewrite Nat2Z.inj_succ, Z2Nat.id by apply Z.log2_nonneg.
  apply Z.log2_spec. lia.
Qed.

Lemma read_unsigned_digits z rest :
  (0 <= z)%Z -> ends_value rest ->
  read_unsigned (digits_of z ++ rest) = Some (z, rest) /\
  exists c r, digits_of z = c :: r /\ is_digit c = true.
Proof.
  intros Hz (t & rest' & -> & Ht).
  destruct (digits_of_spec z Hz) as (Hd & Hv & c & r & Hc & Hnz).
  rewrite Hc in Hd, Hv. simpl in Hd. apply andb_true_iff in Hd as [Hcd Hrd].
  split; [|exists c, r; split; [assumption | assumption]].
  assert (Ht' : is_digit t = false).
  { unfold is_digit. destruct Ht as [->|[->| ->]]; reflexivity. }
  rewrite Hc. rewrite <- app_comm_cons. unfold read_unsigned.
  destruct (c =? 48) eqn:E.
  - apply N.eqb_eq in E. subst c.
    assert (z = 0%Z) as ->.
    { destruct (Z.eq_dec z 0); [assumption|].
      exfalso. apply Hnz; [lia | reflexivity]. }
    unfold digits_of in Hc. simpl in Hc. injection Hc as <-. reflexivity.
  - rewrite Hcd. rewrite read_digits_app by assumption.
    rewrite read_digits_stop by assumption.
    unfold digits_value in *. simpl in Hv.
    replace (10 * 0 + digit_val c)%Z with (digit_val c) in Hv by lia.
    now rewrite Hv.
Qed.

Lemma read_number_int z rest :
  ends_value rest ->
  read_number (int_to_string z ++ rest) = Some (z, rest).
Proof.
  intros Hrest. pose proof Hrest as (t & rest' & Hr & Ht).
  assert (Hwhole : (t =? 46) || (t =? 101) || (t =? 69) = false).
  { destruct Ht as [->|[->| ->]]; reflexivity. }
  unfold int_to_string. destruct (z <? 0)%Z eqn:E.
  - apply Z.ltb_lt in E.
    destruct (read_unsigned_digits (- z) rest ltac:(lia) Hrest) as (Hread & _).
    rewrite <- app_comm_cons. unfold read_number. change (45 =? 45) with true. cbv iota.
    rewrite Hread. unfold refuse_fraction. rewrite Hr, Hwhole.
    f_equal. f_equal. lia.
  - apply Z.ltb_ge in E.
    destruct (read_unsigned_digits z rest E Hrest) as (Hread & c & r & Hc & Hcd).
    unfold read_number. rewrite Hc at 1. rewrite <- app_comm_cons.
    assert (Hc45 : (c =? 45) = false).
    { unfold is_digit in Hcd. apply andb_true_iff in Hcd as [H1 H2].
      apply N.leb_le in H1, H2. apply N.eqb_neq. lia. }
    rewrite Hc45, Hread.
    unfold refuse_fraction. rewrite Hr, Hwhole. reflexivity.
Qed.

(** ** JSON: an object of plain values is read back *)

Lemma ends_value_comma r : ends_value (44 :: r).
Proof. exists 44, r. auto. Qed.
Lemma ends_value_brace r : ends_value (125 :: r).
Proof. exists 125, r. auto. Qed.

Lemma parse_value_string f s rest :
  parse_value (S f) (quote s ++ rest) = Parsed (VStr s) rest.
Proof.
  unfold quote. rewrite <- app_comm_cons, <- app_assoc.
  cbn [parse_value skip_ws]. change (is_ws 34) with false. cbv iota.
  change (34 =? 123) with false. change (34 =? 91) with false.
  change (34 =? 34) with true. cbv iota.
  change ([34] ++ rest) with (34 :: rest).
  now rewrite read_string_quote_body.
Qed.

Lemma parse_value_int f z rest :
  ends_value rest ->
  parse_value (S f) (int_to_string z ++ rest) = Parsed (VNum (Int z)) rest.
Proof.
  intros Hrest. pose proof (read_number_int z rest Hrest) as Hread.
  assert (Hhead : exists c r, int_to_string z ++ rest = c :: r /\
                    ((c =? 45) || is_digit c) = true).
  { unfold int_to_string. destruct (z <? 0)%Z eqn:E.
    - exists 45, (digits_of (- z) ++ rest). split; reflexivity.
    - apply Z.ltb_ge in E.
      destruct (read_unsigned_digits z rest E Hrest) as (_ & c & r & Hc & Hcd).
      exists c, (r ++ rest). rewrite Hc, Hcd. split; [reflexivity | apply orb_true_r]. }
  destruct Hhead as (c & r & Hc & Hcd). rewrite Hc in *.
  assert (Hb : c = 45 \/ 48 <= c <= 57).
  { apply orb_true_iff in Hcd as [H|H].
    - left. now apply N.eqb_eq.
    - right. unfold is_digit in H. apply andb_true_iff in H as [H1 H2].
      apply N.leb_le in H1, H2. lia. }
  cbn [parse_value skip_ws].
  assert (is_ws c = false) as ->.
  { unfold is_ws. repeat (apply orb_false_iff; split); apply N.eqb_neq; lia. }
  assert ((c =? 123) = false) as -> by (apply N.eqb_neq; lia).
  assert ((c =? 91) = false) as -> by (apply N.eqb_neq; lia).
  assert ((c =? 34) = false) as -> by (apply N.eqb_neq; lia).
  rewrite Hcd, Hread. reflexivity.
Qed.

Lemma parse_value_null f rest :
  parse_value (S f) (lit "null" ++ rest) = Parsed VNull rest.
Proof. reflexivity. Qed.

Lemma parse_value_bool f b rest :
  parse_value (S f) (JSON_stringify (VBool b) ++ rest) = Parsed (VBool b) rest.
Proof. destruct b; reflexivity. Qed.

(** A value that is its own image is read back from its text. *)
Lemma parse_value_flat f x rest :
  is_json_flat x = true -> ends_value rest ->
  parse_value (S f) (JSON_stringify x ++ rest) = Parsed x rest.
Proof.
  intros Hx Hrest. destruct x as [| |b|n|s| | |]; try discriminate.
  - apply parse_value_null.
  - apply parse_value_bool.
  - destruct n; try discriminate. now apply parse_value_int.
  - apply parse_value_string.
Qed.

Lemma join_comma_cons x y l :
  join_comma (x :: y :: l) = x ++ 44 :: join_comma (y :: l).
Proof. reflexivity. Qed.

Lemma parse_members_unfold f s :
  parse_members (S f) s
  = match skip_ws s with
    | q :: r0 =>
        if q =? 34 then
          match read_string r0 with
          | Some (k, r1) =>
              match skip_ws r1 with
              | colon :: r2 =>
                  if colon =? 58 then
                    match parse_value f r2 with
                    | Parsed x r =>
                        match skip_ws r with
                        | c :: r' =>
                            if c =? 125 then Parsed [(k, x)] r'
                            else if c =? 44 then
                              match parse_members f r' with
                              | Parsed ms rest => Parsed ((k, x) :: ms) rest
                              | SyntaxError => SyntaxError
                              | OutOfFuel => OutOfFuel
                              end
                            else SyntaxError
                        | [] => SyntaxError
                        end
                    | SyntaxError => SyntaxError
                    | OutOfFuel => OutOfFuel
                    end
                  else SyntaxError
              | [] => SyntaxError
              end
          | None => SyntaxError
          end
        else SyntaxError
    | [] => SyntaxError
    end.
Proof. reflexivity. Qed.

Lemma member_text_app k x tail :
  member_text (k, x) ++ tail
  = 34 :: (quote_body k ++ 34 :: 58 :: (JSON_stringify x ++ tail)).
Proof.
  unfold member_text, quote. cbn [fst snd].
  generalize (quote_body k) (JSON_stringify x). intros a b.
  simpl. f_equal. rewrite <- !app_assoc. reflexivity.
Qed.

(** One member, then what follows it. *)
Lemma parse_member f k x tail :
  is_json_flat x = true -> ends_value tail ->
  parse_members (S (S f)) (member_text (k, x) ++ tail)
  = match skip_ws tail with
    | c :: r' =>
        if c =? 125 then Parsed [(k, x)] r'
        else if c =? 44 then
          match parse_members (S f) r' with
          | Parsed ms rest => Parsed ((k, x) :: ms) rest
          | SyntaxError => SyntaxError
          | OutOfFuel => OutOfFuel
          end
        else SyntaxError
    | [] => SyntaxError
    end.
Proof.
  intros Hx Htail. rewrite member_text_app, parse_members_unfold.
  cbn [skip_ws]. change (is_ws 34) with false. cbv iota.
  change (34 =? 34) with true. cbv iota.
  rewrite read_string_quote_body.
  cbn [skip_ws]. change (is_ws 58) with false. cbv iota.
  change (58 =? 58) with true. cbv iota.
  rewrite parse_value_flat by assumption. reflexivity.
Qed.

Lemma parse_members_flat q : forall f rest,
  q <> [] ->
  forallb (fun kx => is_json_flat (snd kx)) q = true ->
  (List.length q < f)%nat ->
  parse_members f (join_comma (List.map member_text q) ++ 125 :: rest)
  = Parsed q rest.
Proof.
  induction q as [|[k x] q IH]; intros f rest Hne Hflat Hf; [congruence|].
  simpl in Hflat. apply andb_true_iff in Hflat as [Hx Hq].
  destruct f as [|[|f]]; cbn [List.length] in Hf; try lia.
  destruct q as [|kx' q].
  - cbn [List.map join_comma].
    rewrite parse_member by (assumption || apply ends_value_brace).
    reflexivity.
  - cbn [List.map]. rewrite join_comma_cons, <- app_assoc, <- app_comm_cons.
    rewrite parse_member by (assumption || apply ends_value_comma).
    cbn [skip_ws]. change (is_ws 44) with false. cbv iota.
    change (44 =? 125) with false. change (44 =? 44) with true. cbv iota.
    change (member_text kx' :: List.map member_text q)
      with (List.map member_text (kx' :: q)).
    rewrite IH; [reflexivity | discriminate | assumption |].
    cbn [List.length] in Hf |- *. lia.
Qed.

Lemma obj_set_fresh props k x :
  obj_lookup props k = None -> obj_set props k x = props ++ [(k, x)].
Proof.
  induction props as [|[k' v] props IH]; intros H; [reflexivity|].
  simpl in *. destruct (str_eqb k' k); [discriminate|].
  now rewrite IH.
Qed.

Lemma obj_lookup_app props q k :
  obj_lookup (props ++ q) k
  = match obj_lookup props k with
    | Some x => Some x
    | None => obj_lookup q k
    end.
Proof.
  induction props as [|[k' v] props IH]; [reflexivity|].
  simpl. destruct (str_eqb k' k); [reflexivity | assumption].
Qed.

Lemma obj_lookup_None props k :
  obj_lookup props k = None <-> ~ In k (List.map fst props).
Proof.
  induction props as [|[k' v] props IH]; simpl; [tauto|].
  destruct (str_eqb k' k) eqn:E.
  - apply str_eqb_eq in E. subst. split; [discriminate | intros H; exfalso; auto].
  - apply str_eqb_neq in E. rewrite IH. tauto.
Qed.

Lemma obj_of_members_NoDup q : forall acc,
  List.NoDup (List.map fst (acc ++ q)) ->
  fold_left (fun o kx => obj_set o (fst kx) (snd kx)) q acc = acc ++ q.
Proof.
  induction q as [|[k x] q IH]; intros acc Hnd.
  - now rewrite app_nil_r.
  - cbn [fold_left fst snd]. rewrite obj_set_fresh.
    + rewrite IH; rewrite <- app_assoc; [reflexivity | assumption].
    + apply obj_lookup_None. rewrite map_app in Hnd. simpl in Hnd.
      apply List.NoDup_remove_2 in Hnd. intros Hin. apply Hnd.
      apply in_or_app. now left.
Qed.

Lemma length_join_comma l :
  Forall (fun x => x <> []) l -> (List.length l <= List.length (join_comma l))%nat.
Proof.
  induction 1 as [|x l Hx Hl IH]; [simpl; lia|].
  destruct l as [|y l].
  - simpl. destruct x; [congruence | simpl; lia].
  - rewrite join_comma_cons, length_app. destruct x; [congruence|].
    cbn [List.length] in *. unfold jsstring in *. lia.
Qed.

(** The text of an object whose values are their own images is read back
    to the object. *)
Lemma JSON_parse_flat_object q :
  forallb (fun kx => is_json_flat (snd kx)) q = true ->
  List.NoDup (List.map fst q) ->
  JSON_parse (123 :: join_comma (List.map member_text q) ++ [125]) = Some (VObj q).
Proof.
  intros Hflat Hnd. unfold JSON_parse.
  destruct q as [|kx q].
  - reflexivity.
  - set (body := join_comma (List.map member_text (kx :: q))).
    assert (Hlen : (List.length (kx :: q) <= List.length body)%nat).
    { unfold body. rewrite <- (length_map member_text (kx :: q)).
      apply length_join_comma. apply Forall_forall. intros t Ht.
      apply in_map_iff in Ht as (m & <- & _). unfold member_text, quote. discriminate. }
    assert (Hhead : exists r, body ++ [125] = 34 :: r).
    { unfold body. destruct q; cbn [List.map join_comma]; unfold member_text, quote;
        rewrite <- ?app_comm_cons; eauto. }
    destruct Hhead as (r & Hr).
    cbn [parse_value skip_ws List.length]. change (is_ws 123) with false. cbv iota.
    change (123 =? 123) with true. cbv iota.
    rewrite Hr. cbn [skip_ws]. change (is_ws 34) with false. cbv iota.
    change (34 =? 125) with false. cbv iota. rewrite <- Hr.
    unfold body. rewrite parse_members_flat.
    + unfold obj_of_members. rewrite (obj_of_members_NoDup (kx :: q) []) by assumption.
      reflexivity.
    + discriminate.
    + assumption.
    + rewrite length_app. fold body. simpl in *. lia.
Qed.

Lemma stringify_image x :
  is_flat x = true ->
  match json_image x with
  | Some y => stringify x = Some (JSON_stringify y) /\ is_json_flat y = true
  | None => stringify x = None
  end.
Proof.
  intros Hx. destruct x as [| |b|n|s|d| |]; try discriminate; simpl.
  - reflexivity.
  - split; reflexivity.
  - destruct b; split; reflexivity.
  - destruct n; split; reflexivity.
  - split; reflexivity.
  - destruct d as [|t]; [split; reflexivity|].
    destruct (valid_datetime t); split; reflexivity.
Qed.

Lemma stringify_obj props :
  stringify (VObj props)
  = Some (123 :: join_comma
                   (flat_map (fun kx => match stringify (snd kx) with
                                        | Some s => [quote (fst kx) ++ 58 :: s]
                                        | None => []
                                        end) props) ++ [125]).
Proof. reflexivity. Qed.

Lemma members_of_flat props :
  forallb (fun kx => is_flat (snd kx)) props = true ->
  flat_map (fun kx => match stringify (snd kx) with
                      | Some s => [quote (fst kx) ++ 58 :: s]
                      | None => []
                      end) props
  = List.map member_text (json_image_props props) /\
  forallb (fun kx => is_json_flat (snd kx)) (json_image_props props) = true.
Proof.
  induction props as [|[k x] props IH]; intros H; [split; reflexivity|].
  simpl in H. apply andb_true_iff in H as [Hx Hp].
  destruct (IH Hp) as [IH1 IH2].
  pose proof (stringify_image x Hx) as Hi.
  unfold json_image_props in *. cbn [flat_map fst snd].
  destruct (json_image x) as [y|].
  - destruct Hi as [-> Hy]. cbn [app List.map forallb snd].
    rewrite IH1, IH2, Hy. split; reflexivity.
  - rewrite Hi. cbn [app]. split; assumption.
Qed.

Lemma image_keys props k :
  In k (List.map fst (json_image_props props)) -> In k (List.map fst props).
Proof.
  induction props as [|[k0 x] props IH]; [tauto|].
  unfold json_image_props in *. cbn [flat_map fst snd].
  destruct (json_image x); cbn [app List.map fst In]; tauto.
Qed.

Lemma image_NoDup props :
  List.NoDup (List.map fst props) -> List.NoDup (List.map fst (json_image_props props)).
Proof.
  induction props as [|[k x] props IH]; intros H; [constructor|].
  inversion H as [|? ? Hk Hnd]; subst.
  unfold json_image_props in *. cbn [flat_map fst snd].
  destruct (json_image x); cbn [app List.map fst].
  - constructor; [|now apply IH]. intros Hin. apply Hk. now apply image_keys.
  - now apply IH.
Qed.

(** The text of an object of plain values, its keys distinct, is read
    back to the image of the object. *)
Lemma JSON_parse_stringify_flat props :
  forallb (fun kx => is_flat (snd kx)) props = true ->
  List.NoDup (List.map fst props) ->
  JSON_parse (JSON_stringify (VObj props)) = Some (VObj (json_image_props props)).
Proof.
  intros Hflat Hnd. unfold JSON_stringify. rewrite stringify_obj.
  destruct (members_of_flat props Hflat) as [-> Himg].
  apply JSON_parse_flat_object; [assumption | now apply image_NoDup].
Qed.

Lemma get_image props k :
  List.NoDup (List.map fst props) ->
  get (VObj (json_image_props props)) k = reloaded_value (get (VObj props) k).
Proof.
  unfold get. induction props as [|[k0 x] props IH]; intros Hnd; [reflexivity|].
  inversion Hnd as [|? ? Hk Hnd']; subst. specialize (IH Hnd').
  unfold json_image_props in *. cbn [flat_map fst snd obj_lookup].
  destruct (str_eqb k0 k) eqn:E.
  - apply str_eqb_eq in E. subst k0. unfold reloaded_value.
    destruct (json_image x) as [y|]; cbn [app obj_lookup].
    + now rewrite str_eqb_refl.
    + assert (Hnone : obj_lookup (flat_map (fun kx => match json_image (snd kx) with
                                                    | Some y => [(fst kx, y)]
                                                    | None => []
                                                    end) props) k = None).
      { apply obj_lookup_None. intros Hin. apply Hk. now apply image_keys. }
      now rewrite Hnone.
  - destruct (json_image x) as [y|]; cbn [app obj_lookup]; [rewrite E|]; exact IH.
Qed.
Lemma z_nonempty_string_spec x y :
  z_nonempty z_string x = Some y <-> is_nonempty_string x = true /\ y = x.
Proof.
  destruct x as [| | | |s| | |]; simpl; split; intros H; try discriminate;
    try (destruct H; discriminate).
  - unfold z_nonempty in H. simpl in H. destruct (truthy_str s); [|discriminate].
    injection H as <-. auto.
  - destruct H as [H ->]. unfold z_nonempty. simpl. now rewrite H.
Qed.

Lemma z_date_spec x y :
  z_date x = Some y <-> is_valid_date x = true /\ y = x.
Proof.
  destruct x as [| | | | |d| |]; simpl; split; intros H; try discriminate;
    try (destruct H; discriminate).
  - destruct (valid_date d); [|discriminate]. injection H as <-. auto.
  - destruct H as [H ->]. now rewrite H.
Qed.

Lemma is_nonempty_string_defined x : is_nonempty_string x = true -> x <> VUndefined.
Proof. destruct x; simpl; congruence. Qed.

Lemma is_valid_date_defined x : is_valid_date x = true -> x <> VUndefined.
Proof. destruct x; simpl; congruence. Qed.

Lemma formSchema_spec (v : value) :
  formSchema v = if form_shape v then Some (VObj (parsed_form v)) else None.
Proof.
  unfold formSchema, z_object, form_shape, parsed_form.
  destruct v; try reflexivity.
  change (is_object (VObj props)) with true. rewrite andb_true_l.
  set (v := VObj props).
  rewrite (parse_shape_required _ _ _ v _ (fun x => x) z_nonempty_string_spec
             is_nonempty_string_defined).
  rewrite (parse_shape_required _ _ _ v _ (fun x => x) z_date_spec is_valid_date_defined).
  rewrite (parse_shape_required _ _ _ v _ _ days_schema_spec)
    by (intros; apply or_default_defined; discriminate).
  rewrite (parse_shape_required _ _ _ v _ _
             (fun x y => z_enum_default_spec (lit "Medium") BUDGETS x y eq_refl))
    by (intros; apply or_default_defined; discriminate).
  rewrite (parse_shape_required _ _ _ v _ _ travelers_schema_spec)
    by (intros; apply or_default_defined; discriminate).
  rewrite (parse_shape_required _ _ _ v _ (fun x => x) z_nonempty_string_spec
             is_nonempty_string_defined).
  rewrite (parse_shape_required _ _ _ v _ _
             (fun x y => z_enum_default_spec (lit "Balanced") PACES x y eq_refl))
    by (intros; apply or_default_defined; discriminate).
  rewrite !parse_shape_optional.
  cbn [parse_shape].
  repeat match goal with
         | |- context [if ?b then _ else None] =>
             lazymatch b with
             | context [andb] => fail
             | _ => destruct b; [| rewrite ?andb_false_r; reflexivity]
             end
         end.
  simpl andb. cbn [option_map app]. rewrite app_nil_r. reflexivity.
Qed.

Lemma get_Forall_except (P : value -> Prop) k0 props k :
  k <> k0 -> P VUndefined ->
  Forall (fun kx => fst kx = k0 \/ P (snd kx)) props ->
  P (get (VObj props) k).
Proof.
  intros Hk Hu. unfold get. induction 1 as [|[k1 x] props [H1|H1] _ IH]; simpl in *.
  - assumption.
  - subst k1. assert (str_eqb k0 k = false) as -> by (apply str_eqb_neq; congruence).
    exact IH.
  - destruct (str_eqb k1 k); [assumption | exact IH].
Qed.

Lemma truthy_str_app a c b : truthy_str (a ++ c :: b) = true.
Proof. destruct a; reflexivity. Qed.

Lemma toISOString_truthy t : truthy_str (toISOString t) = true.
Proof. unfold toISOString. apply truthy_str_app. Qed.

Lemma get_obj_set_same props k x : get (VObj (obj_set props k x)) k = x.
Proof.
  simpl. induction props as [|[k0 v0] props IH]; simpl.
  - now rewrite str_eqb_refl.
  - destruct (str_eqb k0 k) eqn:E; simpl; rewrite E; [reflexivity | exact IH].
Qed.

Lemma distinct_NoDup l : distinct l = true -> List.NoDup l.
Proof.
  induction l as [|x l IH]; intros H; [constructor|].
  simpl in H. apply andb_true_iff in H as [Hx Hl].
  constructor; [|now apply IH].
  intros Hin. apply includes_In in Hin. rewrite Hin in Hx. discriminate.
Qed.

(** What the resolver returns is an object of plain values under
    distinct keys, with a valid date as [startDate]; apart from the date,
    and from a number of travelers that is not finite, every property
    reads the same after the text of the object was parsed. *)
Lemma parsed_form_facts v :
  form_shape v = true ->
  forallb (fun kx => is_flat (snd kx)) (parsed_form v) = true /\
  List.NoDup (List.map fst (parsed_form v)) /\
  (exists t, valid_datetime t = true /\
             get (VObj (parsed_form v)) (lit "startDate") = VDate (ValidDate t)) /\
  (get (VObj (parsed_form v)) (lit "travelers") <> VNum Infinity ->
   Forall (fun kx => fst kx = lit "startDate" \/ reloaded_value (snd kx) = snd kx)
     (parsed_form v)).
Proof.
  unfold form_shape. intros H.
  repeat (apply andb_true_iff in H as [H ?]).
  unfold parsed_form, optional_prop.
  destruct (get v (lit "destination")) as [| | | |dest| | |]; try discriminate.
  destruct (get v (lit "startDate")) as [| | | | |[|t]| |]; try discriminate.
  destruct (get v (lit "interests")) as [| | | |ints| | |]; try discriminate.
  assert (Hdays : exists z, or_default (VNum (Int 3)) (get v (lit "days")) = VNum (Int z)).
  { destruct (get v (lit "days")) as [| | |[| | |z]| | | |]; try discriminate; simpl; eauto. }
  destruct Hdays as (zd & ->).
  assert (Hb : exists b, or_default (VStr (lit "Medium")) (get v (lit "budget")) = VStr b).
  { destruct (get v (lit "budget")) as [| | | |b| | |]; try discriminate; simpl; eauto. }
  destruct Hb as (b & ->).
  assert (Hp : exists b, or_default (VStr (lit "Balanced")) (get v (lit "pace")) = VStr b).
  { destruct (get v (lit "pace")) as [| | | |b'| | |]; try discriminate; simpl; eauto. }
  destruct Hp as (pc & ->).
  assert (Ht : exists n, or_default (VNum (Int 2)) (get v (lit "travelers")) = VNum n /\
                         (n = Infinity \/ exists z, n = Int z)).
  { destruct (get v (lit "travelers")) as [| | |[| | |z]| | | |]; try discriminate;
      simpl; eauto. }
  destruct Ht as (n & -> & Hn).
  assert (Ho : forall k, (is_absent (get v k) || is_string (get v k)) = true ->
                 get v k = VUndefined \/ exists s, get v k = VStr s).
  { intros k Hk. destruct (get v k); try discriminate; eauto. }
  repeat match goal with
         | Hk : (is_absent (get v ?k) || is_string (get v ?k)) = true |- _ =>
             destruct (Ho k Hk) as [->|(? & ->)]; clear Hk
         end;
    destruct (has_key v (lit "mustInclude")), (has_key v (lit "avoid")),
      (has_key v (lit "notes"));
    (split; [reflexivity|]);
    (split; [apply distinct_NoDup; vm_compute; reflexivity|]);
    (split; [exists t; split; [assumption | reflexivity]|]);
    intros Hfin;
    (assert (Hz : exists z, n = Int z)
       by (destruct Hn as [->|Hz]; [exfalso; apply Hfin; reflexivity | exact Hz]));
    destruct Hz as (z & ->);
    repeat (apply Forall_cons; [first [left; reflexivity | right; reflexivity]|]);
    apply Forall_nil.
Qed.
(** The effect when there is no [plan] parameter and the storage holds the
    text of a truthy value. *)
Lemma effect_from_storage params storage text j :
  searchParams_get params (lit "plan") = None ->
  storage !! LAST_INPUT = Some text ->
  JSON_parse text = Some j -> truthy j = true ->
  storage_reads (effect params (mount storage)) = [LAST_INPUT] /\
  form (effect params (mount storage)) = revive_startDate j.
Proof.
  intros Hplan Hst Hj Ht.
  assert (Htext : exists c s, text = c :: s).
  { destruct text; [vm_compute in Hj; discriminate | eauto]. }
  destruct Htext as (c & s & ->).
  unfold effect, effect_load, effect_read. rewrite Hplan.
  unfold localStorage_getItem. cbn [localStorage mount]. rewrite Hst, Hj, Ht.
  destruct (truthy (get (revive_startDate j) (lit "destination"))).
  - rewrite (proj1 (begin_frame _ _)), (proj1 (proj2 (begin_frame _ _))). split; reflexivity.
  - split; reflexivity.
Qed.

(** C5. A submission saves the text of the submitted record under the
    key [last_itinerary_input], and changes no other key.  On a later
    visit without a [plan] parameter, over a storage that holds that text,
    the effect reads that key and resets the form to the record parsed
    from the text, its [startDate] a [Date] again; every property of the
    form then reads as in the submitted record (a number of travelers
    that is not finite apart, which the text cannot carry). *)
Theorem last_input_saved_and_reloaded
  (raw data : value) (p : Page) (params : list (jsstring * jsstring))
  (storage : gmap jsstring jsstring) :
  formSchema raw = Some data ->
  loading p = false ->
  searchParams_get params (lit "plan") = None ->
  storage !! LAST_INPUT = Some (JSON_stringify data) ->
  localStorage (step (Submit data) p)
  = <[LAST_INPUT := JSON_stringify data]> (localStorage p) /\
  storage_reads (effect params (mount storage)) = [LAST_INPUT] /\
  (exists j, JSON_parse (JSON_stringify data) = Some j /\
             form (effect params (mount storage)) = revive_startDate j) /\
  (get data (lit "travelers") <> VNum Infinity ->
   forall k, get (form (effect params (mount storage))) k = get data k).
Proof.
  intros Hdata Hl Hplan Hst.
  rewrite formSchema_spec in Hdata.
  destruct (form_shape raw) eqn:Hshape; [|discriminate].
  injection Hdata as <-.
  destruct (parsed_form_facts raw Hshape) as (Hflat & Hnd & (t & Hvalid & Hdate) & Hstable).
  pose proof (JSON_parse_stringify_flat _ Hflat Hnd) as Hparse.
  destruct (effect_from_storage params storage _ _ Hplan Hst Hparse eq_refl)
    as [Hreads Hform].
  split.
  { simpl. rewrite Hl. apply begin_frame. }
  split; [assumption|].
  split; [eauto|].
  intros Hfin k. rewrite Hform.
  assert (Hsd : get (VObj (json_image_props (parsed_form raw))) (lit "startDate")
                = VStr (toISOString t)).
  { rewrite get_image by assumption. rewrite Hdate.
    unfold reloaded_value. simpl. now rewrite Hvalid. }
  destruct (str_eqb k (lit "startDate")) eqn:Ek.
  - apply str_eqb_eq in Ek. subst k.
    unfold revive_startDate. rewrite Hsd.
    cbn [truthy]. rewrite toISOString_truthy.
    unfold set_prop. rewrite get_obj_set_same.
    cbn [new_Date]. rewrite parse_date_toISOString by assumption.
    now rewrite Hdate.
  - apply str_eqb_neq in Ek.
    rewrite get_revive_other by assumption.
    rewrite get_image by assumption.
    apply (get_Forall_except (fun x => reloaded_value x = x) (lit "startDate"));
      [assumption | reflexivity | now apply Hstable].
Qed.

Lemma last_input_saved_and_reloaded_witness :
  get (form (effect []
               (mount {[ LAST_INPUT :=
                           JSON_stringify (VObj (parsed_form (sample_values (lit "Goa")))) ]})))
    (lit "destination")
  = get (VObj (parsed_form (sample_values (lit "Goa")))) (lit "destination").
Proof.
  refine (proj2 (proj2 (proj2
            (last_input_saved_and_reloaded (sample_values (lit "Goa"))
               (VObj (parsed_form (sample_values (lit "Goa")))) (mount ∅) []
               {[ LAST_INPUT :=
                    JSON_stringify (VObj (parsed_form (sample_values (lit "Goa")))) ]}
               _ eq_refl eq_refl _))) _ (lit "destination")).
  - vm_compute. reflexivity.
  - vm_compute. reflexivity.
  - vm_compute. discriminate.
Defined.

(** ** The shareable link *)

Lemma mem_In (c : N) (l : jsstring) : existsb (N.eqb c) l = true -> In c l.
Proof.
  intros H. apply existsb_exists in H as (x & Hx & E).
  apply N.eqb_eq in E. now subst.
Qed.


(** The link of a form that holds the sample values is loaded back to
    them. *)
Example share_link_sample :
  exists url params,
    share_url sample_location (sample_values (lit "Goa")) = Ok url /\
    URLSearchParams (url_query url) = Some params /\
    form (effect params (mount ∅)) = sample_values (lit "Goa").
Proof.
  exists (match share_url sample_location (sample_values (lit "Goa")) with
          | Ok url => url
          | Throw _ => []
          end).
  exists [(lit "plan", sample_plan)].
  split; [vm_compute; reflexivity|].
  split; vm_compute; reflexivity.
Qed.

(** C2, at two inputs where the code departs from it.  With a
    destination written outside Latin-1, [btoa] throws and [handleShare]
    makes no link.  With the destination "Tromsø", the link is made and
    its base64 text holds a [+]; the query string turns it into a space,
    which [atob] drops, so that what it decodes is not the text of the
    record and [JSON.parse] refuses it; the load of the link leaves the
    form at its default values. *)
Theorem share_link_not_restored :
  handleShare sample_location (form_reset (sample_values tokyo) (mount ∅))
  = Throw {| err_name := lit "InvalidCharacterError"; err_message := None |} /\
  exists url params plan,
    share_url sample_location (sample_values tromso) = Ok url /\
    In 43 url /\
    URLSearchParams (url_query url) = Some params /\
    searchParams_get params (lit "plan") = Some plan /\
    In 32 plan /\
    match atob plan with Ok text => JSON_parse text | Throw _ => None end = None /\
    form (effect params (mount ∅)) = defaultValues /\
    console (effect params (mount ∅)) = [lit "Failed to parse plan from URL"].
Proof.
  split; [vm_compute; reflexivity|].
  set (url := match share_url sample_location (sample_values tromso) with
              | Ok url => url
              | Throw _ => []
              end).
  set (params := match URLSearchParams (url_query url) with
                 | Some params => params
                 | None => []
                 end).
  set (plan := match searchParams_get params (lit "plan") with
               | Some plan => plan
               | None => []
               end).
  exists url, params, plan.
  split; [vm_compute; reflexivity|].
  split; [apply mem_In; vm_compute; reflexivity|].
  split; [vm_compute; reflexivity|].
  split; [vm_compute; reflexivity|].
  split; [apply mem_In; vm_compute; reflexivity|].
  split; [vm_compute; reflexivity|].
  split; vm_compute; reflexivity.
Qed.
(** ** [toggleInterest] on any field *)

Lemma split_pieces s :
  Forall (fun x => has_comma_space x = false) (split_comma_space s) /\
  exists t ts, split_comma_space s = t :: ts /\
               (t = [] \/ exists c s' t', s = c :: s' /\ t = c :: t').
Proof.
  remember (List.length s) as n eqn:Hn. revert s Hn.
  induction n as [n IH] using lt_wf_ind. intros s Hn.
  destruct s as [|c s].
  - split; [repeat constructor | exists [], []; auto].
  - destruct s as [|d s].
    + split; [repeat constructor|]. exists [c], []. split; [reflexivity|].
      right. exists c, [], []. auto.
    + change (split_comma_space (c :: d :: s))
        with (if is_comma_space c d then [] :: split_comma_space s
              else cons_head c (split_comma_space (d :: s))).
      destruct (is_comma_space c d) eqn:E.
      * destruct (IH (List.length s)) with (s := s) as [Hall _];
          [simpl in Hn; lia | reflexivity|].
        split; [constructor; [reflexivity | assumption]|].
        exists [], (split_comma_space s). auto.
      * destruct (IH (List.length (d :: s))) with (s := d :: s)
          as [Hall (t & ts & Ht & Hhead)]; [simpl in Hn |- *; lia | reflexivity|].
        rewrite Ht in *. cbn [cons_head].
        inversion Hall as [|? ? Ht0 Hts]; subst.
        split.
        -- constructor; [|assumption].
           destruct Hhead as [->|(c' & s' & t' & Hs & ->)]; [reflexivity|].
           injection Hs as <- <-.
           change (has_comma_space (c :: d :: t'))
             with (is_comma_space c d || has_comma_space (d :: t')).
           now rewrite E, Ht0.
        -- exists (c :: t), ts. split; [reflexivity|]. right. eauto.
Qed.

Lemma current_interests_entries s : Forall entry (current_interests s).
Proof.
  unfold current_interests.
  pose proof (proj1 (split_pieces s)) as H.
  induction H as [|x l Hx _ IH]; [constructor|].
  simpl. destruct x as [|c x]; simpl; [assumption|].
  constructor; [|assumption]. split; [discriminate | assumption].
Qed.

Lemma Forall_without (P : jsstring -> Prop) i l : Forall P l -> Forall P (without i l).
Proof.
  unfold without. induction 1 as [|x l Hx _ IH]; [constructor|].
  simpl. destruct (negb (str_eqb x i)); [constructor|]; assumption.
Qed.

Lemma toggleInterest_eq i s :
  toggleInterest i s
  = join_comma_space (if includes (current_interests s) i
                      then without i (current_interests s)
                      else current_interests s ++ [i]).
Proof. unfold toggleInterest, current_interests, without.
  destruct (includes _ i); reflexivity. Qed.

Lemma current_after_toggle (i s : jsstring) :
  entry i ->
  current_interests (toggleInterest i s)
  = if includes (current_interests s) i
    then without i (current_interests s)
    else current_interests s ++ [i].
Proof.
  intros Hi. rewrite toggleInterest_eq.
  pose proof (current_interests_entries s) as Hs.
  unfold current_interests at 1. apply current_of_join.
  destruct (includes (current_interests s) i).
  - now apply Forall_without.
  - apply Forall_app. split; [assumption | constructor; [assumption | constructor]].
Qed.

(** X1. The entries of the field after a toggle: those before, with the
    interest taken out at every place if it was among them and put at the
    end if it was not; this for every value of the field. *)
Theorem toggleInterest_entries (i s : jsstring) :
  entry i ->
  current_interests (toggleInterest i s)
  = if includes (current_interests s) i
    then without i (current_interests s)
    else current_interests s ++ [i].
Proof. intros Hi. now apply current_after_toggle. Qed.

Lemma toggleInterest_entries_witness :
  current_interests (toggleInterest (lit "Food") (lit "Food, , Nature, Food"))
  = [lit "Nature"].
Proof.
  refine (eq_trans (toggleInterest_entries (lit "Food") (lit "Food, , Nature, Food") _) _).
  - split; [discriminate | reflexivity].
  - reflexivity.
Defined.

Lemma without_absent i l : ~ In i l -> without i l = l.
Proof. apply filter_neq_absent. Qed.

Lemma not_In_without i l : ~ In i (without i l).
Proof.
  unfold without. intros H. apply filter_In in H as [_ H].
  rewrite str_eqb_refl in H. discriminate.
Qed.

Lemma without_app i l l' : without i (l ++ l') = without i l ++ without i l'.
Proof. apply List.filter_app. Qed.

Lemma without_without i l : without i (without i l) = without i l.
Proof. apply without_absent, not_In_without. Qed.

Lemma includes_false l x : includes l x = false <-> ~ In x l.
Proof.
  split; [|apply includes_not_In].
  intros H Hin. apply includes_In in Hin. congruence.
Qed.

Lemma toggle_twice_eq (i s : jsstring) :
  entry i ->
  toggleInterest i (toggleInterest i s)
  = join_comma_space (if includes (current_interests s) i
                      then without i (current_interests s) ++ [i]
                      else current_interests s).
Proof.
  intros Hi. rewrite (toggleInterest_eq i (toggleInterest i s)).
  rewrite current_after_toggle by assumption.
  destruct (includes (current_interests s) i) eqn:E.
  - now rewrite (includes_not_In _ _ (not_In_without i _)).
  - assert (Hin : includes (current_interests s ++ [i]) i = true).
    { apply includes_In, in_or_app. right. now left. }
    rewrite Hin. apply includes_false in E.
    unfold without. now rewrite filter_neq_app_last.
Qed.

(** X2. Two toggles of the same interest leave the entries of the field as
    they were when the interest was not among them, and otherwise leave
    it once, at the end. *)
Theorem toggleInterest_twice_any (i s : jsstring) :
  entry i ->
  toggleInterest i (toggleInterest i s)
  = join_comma_space (if includes (current_interests s) i
                      then without i (current_interests s) ++ [i]
                      else current_interests s).
Proof. intros Hi. now apply toggle_twice_eq. Qed.

Lemma toggleInterest_twice_any_witness :
  toggleInterest (lit "Food") (toggleInterest (lit "Food") (lit "Food, Nature"))
  = lit "Nature, Food".
Proof.
  refine (eq_trans (toggleInterest_twice_any (lit "Food") (lit "Food, Nature") _) _).
  - split; [discriminate | reflexivity].
  - reflexivity.
Defined.

(** X3. Three toggles of the same interest do what one does. *)
Theorem toggleInterest_thrice (i s : jsstring) :
  entry i ->
  toggleInterest i (toggleInterest i (toggleInterest i s)) = toggleInterest i s.
Proof.
  intros Hi. rewrite toggle_twice_eq by assumption.
  rewrite current_after_toggle by assumption.
  rewrite (toggleInterest_eq i s).
  destruct (includes (current_interests s) i) eqn:E.
  - rewrite (includes_not_In _ _ (not_In_without i _)). reflexivity.
  - assert (Hin : includes (current_interests s ++ [i]) i = true).
    { apply includes_In, in_or_app. right. now left. }
    rewrite Hin. apply includes_false in E.
    rewrite without_app, (without_absent _ _ E).
    unfold without at 1. simpl. rewrite str_eqb_refl. simpl.
    now rewrite app_nil_r.
Qed.

Lemma toggleInterest_thrice_witness :
  toggleInterest (lit "Food")
    (toggleInterest (lit "Food") (toggleInterest (lit "Food") (lit "Beaches")))
  = toggleInterest (lit "Food") (lit "Beaches").
Proof.
  apply (toggleInterest_thrice (lit "Food") (lit "Beaches")).
  split; [discriminate | reflexivity].
Defined.

Lemma match_61 (A : Type) (x : N) (a b : A) :
  match x with 61 => a | _ => b end = if x =? 61 then a else b.
Proof.
  destruct x as [|p]; [reflexivity|].
  repeat (destruct p as [p|p|]; try reflexivity).
Qed.

Lemma strip_padding_eq t :
  strip_padding t
  = if N.of_nat (List.length t) mod 4 =? 0 then
      match rev t with
      | x :: l =>
          if x =? 61 then
            match l with
            | y :: r => if y =? 61 then rev r else rev l
            | [] => rev l
            end
          else t
      | [] => t
      end
    else t.
Proof.
  unfold strip_padding. destruct (N.of_nat (List.length t) mod 4 =? 0); [|reflexivity].
  destruct (rev t) as [|x l]; [reflexivity|].
  destruct (N.eqb_spec x 61) as [->|Hx].
  - destruct l as [|y r]; [reflexivity|].
    destruct (N.eqb_spec y 61) as [->|Hy]; [reflexivity|].
    transitivity (match y with 61 => rev r | _ => rev (y :: r) end).
    + destruct y as [|p]; [reflexivity|].
      repeat (destruct p as [p|p|]; try reflexivity).
    + rewrite match_61. apply N.eqb_neq in Hy. now rewrite Hy.
  - transitivity (match x with 61 => t | _ => t end).
    + destruct x as [|p]; [reflexivity|].
      repeat (destruct p as [p|p|]; try reflexivity); congruence.
    + rewrite match_61. now destruct (x =? 61).
Qed.

(** ** Base64: what [btoa] writes, [atob] reads *)

Lemma list_ind3 (A : Type) (P : list A -> Prop) :
  P [] -> (forall a, P [a]) -> (forall a b, P [a; b]) ->
  (forall a b c r, P r -> P (a :: b :: c :: r)) ->
  forall l, P l.
Proof.
  intros H0 H1 H2 H3 l.
  remember (List.length l) as n eqn:Hn. revert l Hn.
  induction n as [n IH] using lt_wf_ind. intros l Hn.
  destruct l as [|a [|b [|c r]]]; auto.
  apply H3. apply (IH (List.length r)); [simpl in Hn; lia | reflexivity].
Qed.

Lemma b64_encode_eq s :
  b64_encode s = List.map b64_char (b64_sextets s) ++ b64_padding s.
Proof.
  induction s as [|a|a b|a b c r IH] using list_ind3; try reflexivity.
  cbn [b64_encode b64_sextets b64_padding List.map app]. now rewrite IH.
Qed.

Lemma b64_char_bounds n :
  n < 64 ->
  b64_val (b64_char n) = Some n /\ b64_char n <> 61 /\
  is_ascii_whitespace (b64_char n) = false /\
  b64_char n < 128 /\ b64_char n <> 37 /\ b64_char n <> 38 /\
  b64_char n <> 35 /\ b64_char n <> 63 /\
  (b64_char n = 43 -> n = 62).
Proof.
  intros Hn. unfold b64_char.
  destruct (n <? 26) eqn:E1; [apply N.ltb_lt in E1|apply N.ltb_ge in E1].
  { unfold b64_val, is_ascii_whitespace.
    replace ((65 <=? 65 + n) && (65 + n <=? 90)) with true
      by (symmetry; apply andb_true_iff; split; apply N.leb_le; lia).
    repeat split; try lia; [f_equal; lia|].
    repeat (apply orb_false_iff; split); apply N.eqb_neq; lia. }
  destruct (n <? 52) eqn:E2; [apply N.ltb_lt in E2|apply N.ltb_ge in E2].
  { unfold b64_val, is_ascii_whitespace.
    replace ((65 <=? 71 + n) && (71 + n <=? 90)) with false
      by (symmetry; apply andb_false_iff; right; apply N.leb_gt; lia).
    replace ((97 <=? 71 + n) && (71 + n <=? 122)) with true
      by (symmetry; apply andb_true_iff; split; apply N.leb_le; lia).
    repeat split; try lia; [f_equal; lia|].
    repeat (apply orb_false_iff; split); apply N.eqb_neq; lia. }
  destruct (n <? 62) eqn:E3; [apply N.ltb_lt in E3|apply N.ltb_ge in E3].
  { unfold b64_val, is_ascii_whitespace.
    replace ((65 <=? n - 4) && (n - 4 <=? 90)) with false
      by (symmetry; apply andb_false_iff; left; apply N.leb_gt; lia).
    replace ((97 <=? n - 4) && (n - 4 <=? 122)) with false
      by (symmetry; apply andb_false_iff; left; apply N.leb_gt; lia).
    replace ((48 <=? n - 4) && (n - 4 <=? 57)) with true
      by (symmetry; apply andb_true_iff; split; apply N.leb_le; lia).
    repeat split; try lia; [f_equal; lia|].
    repeat (apply orb_false_iff; split); apply N.eqb_neq; lia. }
  assert (n = 62 \/ n = 63) as [-> | ->] by lia; vm_compute; repeat split; congruence.
Qed.

Lemma b64_sextets_bounds s :
  is_latin1 s = true -> Forall (fun n => n < 64) (b64_sextets s).
Proof.
  unfold is_latin1.
  induction s as [|a|a b|a b c r IH] using list_ind3; intros H;
    cbn [forallb] in H;
    repeat match goal with
           | H : _ && _ = true |- _ => apply andb_true_iff in H as [? H]
           | H : (_ <=? _) = true |- _ => apply N.leb_le in H
           end;
    cbn [b64_sextets].
  - constructor.
  - pose proof (N.mod_lt a 4 ltac:(discriminate)).
    repeat constructor; [apply N.Div0.div_lt_upper_bound; lia | lia].
  - pose proof (N.mod_lt a 4 ltac:(discriminate)).
    pose proof (N.mod_lt b 16 ltac:(discriminate)).
    assert (b / 16 < 16) by (apply N.Div0.div_lt_upper_bound; lia).
    repeat constructor; [apply N.Div0.div_lt_upper_bound; lia | lia | lia].
  - pose proof (N.mod_lt a 4 ltac:(discriminate)).
    pose proof (N.mod_lt b 16 ltac:(discriminate)).
    pose proof (N.mod_lt c 64 ltac:(discriminate)).
    assert (b / 16 < 16) by (apply N.Div0.div_lt_upper_bound; lia).
    assert (c / 64 < 4) by (apply N.Div0.div_lt_upper_bound; lia).
    repeat (apply Forall_cons; [first [apply N.Div0.div_lt_upper_bound; lia | lia]|]).
    now apply IH.
Qed.

Lemma div_mul_add m k q : q < k -> (m * k + q) / k = m.
Proof. intros H. symmetry. apply (N.div_unique _ _ _ q); [assumption | lia]. Qed.

Lemma mod_mul_add m k q : q < k -> (m * k + q) mod k = q.
Proof. intros H. symmetry. apply (N.mod_unique _ _ m); [assumption | lia]. Qed.

Lemma b64_decode_sextets s :
  is_latin1 s = true -> b64_decode (b64_sextets s) = s.
Proof.
  unfold is_latin1.
  induction s as [|a|a b|a b c r IH] using list_ind3; intros H;
    cbn [forallb] in H;
    repeat match goal with
           | H : _ && _ = true |- _ => apply andb_true_iff in H as [? H]
           | H : (_ <=? _) = true |- _ => apply N.leb_le in H
           end;
    cbn [b64_sextets b64_decode].
  - reflexivity.
  - pose proof (N.mod_lt a 4 ltac:(discriminate)).
    pose proof (N.Div0.div_mod a 4).
    replace (a mod 4 * 16 / 16) with (a mod 4) by (now rewrite N.div_mul).
    f_equal. lia.
  - pose proof (N.mod_lt a 4 ltac:(discriminate)).
    pose proof (N.mod_lt b 16 ltac:(discriminate)).
    pose proof (N.Div0.div_mod a 4). pose proof (N.Div0.div_mod b 16).
    assert (b / 16 < 16) by (apply N.Div0.div_lt_upper_bound; lia).
    rewrite div_mul_add, mod_mul_add by assumption.
    replace (b mod 16 * 4 / 4) with (b mod 16) by (now rewrite N.div_mul).
    f_equal; [lia|]. f_equal. lia.
  - pose proof (N.mod_lt a 4 ltac:(discriminate)).
    pose proof (N.mod_lt b 16 ltac:(discriminate)).
    pose proof (N.mod_lt c 64 ltac:(discriminate)).
    pose proof (N.Div0.div_mod a 4). pose proof (N.Div0.div_mod b 16).
    pose proof (N.Div0.div_mod c 64).
    assert (b / 16 < 16) by (apply N.Div0.div_lt_upper_bound; lia).
    assert (c / 64 < 4) by (apply N.Div0.div_lt_upper_bound; lia).
    rewrite (div_mul_add (a mod 4) 16), (mod_mul_add (a mod 4) 16) by assumption.
    rewrite (div_mul_add (b mod 16) 4), (mod_mul_add (b mod 16) 4) by assumption.
    rewrite IH by assumption.
    f_equal; [lia|]. f_equal; [lia|]. f_equal. lia.
Qed.

Lemma b64_vals_chars l :
  Forall (fun n => n < 64) l -> b64_vals (List.map b64_char l) = Some l.
Proof.
  induction 1 as [|n l Hn _ IH]; [reflexivity|].
  cbn [List.map b64_vals]. rewrite (proj1 (b64_char_bounds n Hn)), IH. reflexivity.
Qed.

Lemma b64_padding_cases s :
  b64_padding s = [] \/ b64_padding s = [61] \/ b64_padding s = [61; 61].
Proof. induction s as [|a|a b|a b c r IH] using list_ind3; simpl; auto. Qed.

Lemma b64_lengths s :
  exists k, (List.length (b64_encode s) = 4 * k)%nat /\
            (List.length (b64_sextets s) + List.length (b64_padding s) = 4 * k)%nat.
Proof.
  induction s as [|a|a b|a b c r (k & H1 & H2)] using list_ind3.
  - exists O. simpl. lia.
  - exists 1%nat. simpl. lia.
  - exists 1%nat. simpl. lia.
  - exists (S k). cbn [b64_encode b64_sextets b64_padding List.length]. lia.
Qed.

Lemma strip_padding_body body pad :
  Forall (fun c => c <> 61) body ->
  pad = [] \/ pad = [61] \/ pad = [61; 61] ->
  N.of_nat (List.length (body ++ pad)) mod 4 = 0 ->
  strip_padding (body ++ pad) = body.
Proof.
  intros Hbody Hpad Hlen. rewrite strip_padding_eq, Hlen. cbn [N.eqb].
  rewrite rev_app_distr.
  assert (Hrev : Forall (fun c => c <> 61) (rev body)).
  { apply Forall_forall. intros c Hc. apply in_rev in Hc.
    rewrite Forall_forall in Hbody. now apply Hbody. }
  destruct Hpad as [->|[->| ->]]; cbn [rev app].
  - rewrite app_nil_r. destruct (rev body) as [|x l] eqn:E; [reflexivity|].
    inversion Hrev as [|? ? Hx _]; subst. apply N.eqb_neq in Hx. now rewrite Hx.
  - change (61 =? 61) with true. cbv iota.
    destruct (rev body) as [|y r] eqn:E.
    + rewrite <- (rev_involutive body), E. reflexivity.
    + inversion Hrev as [|? ? Hy _]; subst. apply N.eqb_neq in Hy. rewrite Hy.
      rewrite <- E. apply rev_involutive.
  - change (61 =? 61) with true. cbv iota. apply rev_involutive.
Qed.

(** [atob] reads back what [btoa] wrote. *)
Lemma atob_btoa s :
  is_latin1 s = true -> btoa s = Ok (b64_encode s) /\ atob (b64_encode s) = Ok s.
Proof.
  intros Hs. split; [unfold btoa; fold (is_latin1 s); now rewrite Hs|].
  pose proof (b64_sextets_bounds s Hs) as Hb.
  assert (Hchars : Forall (fun c => c <> 61 /\ is_ascii_whitespace c = false)
                     (List.map b64_char (b64_sextets s))).
  { apply Forall_forall. intros c Hc. apply in_map_iff in Hc as (n & <- & Hn).
    rewrite Forall_forall in Hb. pose proof (b64_char_bounds n (Hb n Hn)). tauto. }
  destruct (b64_lengths s) as (k & Hk1 & Hk2).
  unfold atob.
  assert (Hfilter : List.filter (fun c => negb (is_ascii_whitespace c)) (b64_encode s)
                    = b64_encode s).
  { rewrite b64_encode_eq. rewrite List.filter_app. f_equal.
    - clear -Hchars. induction Hchars as [|c l [_ Hc] _ IH]; [reflexivity|].
      simpl. rewrite Hc. simpl. now rewrite IH.
    - destruct (b64_padding_cases s) as [->|[->| ->]]; reflexivity. }
  rewrite Hfilter. cbv zeta. rewrite !b64_encode_eq.
  rewrite strip_padding_body.
  - assert (Hmod : (N.of_nat (List.length (List.map b64_char (b64_sextets s))) mod 4 =? 1) = false).
    { rewrite length_map. apply N.eqb_neq.
      destruct (b64_padding_cases s) as [Hp|[Hp|Hp]]; rewrite Hp in *; cbn [List.length] in *.
      - replace (N.of_nat (List.length (b64_sextets s))) with (N.of_nat k * 4) by lia.
        rewrite N.Div0.mod_mul. discriminate.
      - replace (N.of_nat (List.length (b64_sextets s)))
          with ((N.of_nat k - 1) * 4 + 3) by lia.
        rewrite mod_mul_add by lia. discriminate.
      - replace (N.of_nat (List.length (b64_sextets s)))
          with ((N.of_nat k - 1) * 4 + 2) by lia.
        rewrite mod_mul_add by lia. discriminate. }
    rewrite Hmod, (b64_vals_chars _ Hb), (b64_decode_sextets _ Hs). reflexivity.
  - apply Forall_forall. intros c Hc. rewrite Forall_forall in Hchars.
    now apply Hchars.
  - apply b64_padding_cases.
  - rewrite <- b64_encode_eq, Hk1.
    replace (N.of_nat (4 * k)) with (N.of_nat k * 4) by lia.
    apply N.Div0.mod_mul.
Qed.

(** ** The shared link, from [handleShare] to the effect *)

Lemma b64_encode_chars s :
  is_latin1 s = true ->
  Forall (fun c => c < 128 /\ c <> 37 /\ c <> 38 /\ c <> 35 /\ c <> 63) (b64_encode s).
Proof.
  intros Hs. rewrite b64_encode_eq. apply Forall_app. split.
  - pose proof (b64_sextets_bounds s Hs) as Hb.
    apply Forall_forall. intros c Hc. apply in_map_iff in Hc as (n & <- & Hn).
    rewrite Forall_forall in Hb. pose proof (b64_char_bounds n (Hb n Hn)). tauto.
  - destruct (b64_padding_cases s) as [->|[->| ->]]; repeat constructor; lia.
Qed.

Lemma url_query_app pre q :
  ~ In 63 pre -> url_query (pre ++ 63 :: q) = until_hash q.
Proof.
  induction pre as [|c pre IH]; intros H; cbn [app url_query].
  - reflexivity.
  - assert ((c =? 63) = false) as -> by (apply N.eqb_neq; intros ->; apply H; now left).
    apply IH. intros Hin. apply H. now right.
Qed.

Lemma until_hash_id q : ~ In 35 q -> until_hash q = q.
Proof.
  induction q as [|c q IH]; intros H; [reflexivity|]. cbn [until_hash].
  assert ((c =? 35) = false) as -> by (apply N.eqb_neq; intros ->; apply H; now left).
  f_equal. apply IH. intros Hin. apply H. now right.
Qed.

Lemma split_on_absent sep s : ~ In sep s -> split_on sep s = [s].
Proof.
  induction s as [|c s IH]; intros H; [reflexivity|]. cbn [split_on].
  assert ((c =? sep) = false) as -> by (apply N.eqb_neq; intros ->; apply H; now left).
  rewrite IH; [reflexivity|]. intros Hin. apply H. now right.
Qed.

Lemma plus_to_space_id s : ~ In 43 s -> plus_to_space s = s.
Proof.
  unfold plus_to_space. induction s as [|c s IH]; intros H; [reflexivity|].
  cbn [List.map].
  assert ((c =? 43) = false) as -> by (apply N.eqb_neq; intros ->; apply H; now left).
  f_equal. apply IH. intros Hin. apply H. now right.
Qed.

Lemma split_name_value_plan v :
  split_name_value (lit "plan=" ++ v) = (lit "plan", v).
Proof. reflexivity. Qed.

(** The parameters of a query that is [plan=] and a base64 text. *)
Lemma URLSearchParams_plan v :
  Forall (fun c => c < 128 /\ c <> 37 /\ c <> 38 /\ c <> 35 /\ c <> 63) v ->
  ~ In 43 v ->
  URLSearchParams (lit "plan=" ++ v) = Some [(lit "plan", v)].
Proof.
  intros Hv Hplus. unfold URLSearchParams.
  assert (Hall : forallb (fun c => (c <? 128) && negb (c =? 37)) (lit "plan=" ++ v) = true).
  { rewrite forallb_app. apply andb_true_iff. split; [reflexivity|].
    apply forallb_forall. intros c Hc. rewrite Forall_forall in Hv.
    destruct (Hv c Hc) as (H1 & H2 & _).
    apply andb_true_iff. split; [now apply N.ltb_lt|].
    apply negb_true_iff. now apply N.eqb_neq. }
  rewrite Hall. rewrite split_on_absent.
  - change (List.filter truthy_str [lit "plan=" ++ v]) with [lit "plan=" ++ v].
    cbn [List.map]. rewrite split_name_value_plan.
    rewrite (plus_to_space_id v Hplus). reflexivity.
  - intros Hin. apply in_app_or in Hin as [Hin|Hin].
    + vm_compute in Hin. intuition discriminate.
    + rewrite Forall_forall in Hv. destruct (Hv _ Hin) as (_ & _ & H3 & _). congruence.
Qed.

Lemma b64_encode_nonempty s : s <> [] -> b64_encode s <> [].
Proof. destruct s as [|a [|b [|c r]]]; [congruence | discriminate..]. Qed.

Lemma JSON_stringify_nonempty v : JSON_stringify v <> [].
Proof.
  unfold JSON_stringify.
  destruct v as [| |[|]|[| | |z]| |[|t]| |]; simpl; try discriminate.
  - unfold int_to_string. destruct (z <? 0)%Z eqn:E; [discriminate|].
    apply Z.ltb_ge in E.
    destruct (digits_of_spec z E) as (_ & _ & c & r & -> & _). discriminate.
  - destruct (valid_datetime t); discriminate.
Qed.

Lemma plan_of_share_url (loc : Location) (values : value) :
  ~ In 63 (origin loc ++ pathname loc) ->
  is_latin1 (JSON_stringify values) = true ->
  ~ In 43 (b64_encode (JSON_stringify values)) ->
  exists url plan,
    share_url loc values = Ok url /\
    URLSearchParams (url_query url) = Some [(lit "plan", plan)] /\
    plan <> [] /\
    atob plan = Ok (JSON_stringify values).
Proof.
  intros Hloc Hlatin Hplus.
  destruct (atob_btoa _ Hlatin) as [Hbtoa Hatob].
  pose proof (b64_encode_chars _ Hlatin) as Hchars.
  exists (origin loc ++ pathname loc ++ lit "?plan=" ++ b64_encode (JSON_stringify values)),
    (b64_encode (JSON_stringify values)).
  split; [unfold share_url; now rewrite Hbtoa|].
  split; [|split; [|assumption]].
  - rewrite app_assoc.
    change (lit "?plan=" ++ b64_encode (JSON_stringify values))
      with (63 :: (lit "plan=" ++ b64_encode (JSON_stringify values))).
    rewrite url_query_app by assumption.
    rewrite until_hash_id.
    + now apply URLSearchParams_plan.
    + intros Hin. apply in_app_or in Hin as [Hin|Hin].
      * vm_compute in Hin. intuition discriminate.
      * rewrite Forall_forall in Hchars. destruct (Hchars _ Hin) as (_ & _ & _ & H & _).
        congruence.
  - apply b64_encode_nonempty, JSON_stringify_nonempty.
Qed.

(** X4. From the link to the text.  When the origin and the path hold no
    [?], the text of the values is Latin-1 and its base64 form holds no
    [+], [handleShare] builds a link whose [plan] parameter, as the loaded
    page reads it, decodes to the very text that was encoded. *)
Theorem shared_plan_decodes (loc : Location) (values : value) :
  ~ In 63 (origin loc ++ pathname loc) ->
  is_latin1 (JSON_stringify values) = true ->
  ~ In 43 (b64_encode (JSON_stringify values)) ->
  exists url plan,
    share_url loc values = Ok url /\
    URLSearchParams (url_query url) = Some [(lit "plan", plan)] /\
    plan <> [] /\
    atob plan = Ok (JSON_stringify values).
Proof. apply plan_of_share_url. Qed.

Lemma In_mem (c : N) (l : jsstring) : In c l -> existsb (N.eqb c) l = true.
Proof.
  intros H. apply existsb_exists. exists c. split; [assumption | apply N.eqb_refl].
Qed.

Lemma shared_plan_decodes_witness :
  exists url plan,
    share_url sample_location (sample_values (lit "Goa")) = Ok url /\
    URLSearchParams (url_query url) = Some [(lit "plan", plan)] /\
    plan <> [] /\
    atob plan = Ok (JSON_stringify (sample_values (lit "Goa"))).
Proof.
  apply (shared_plan_decodes sample_location (sample_values (lit "Goa"))).
  - intros H. vm_compute in H. intuition discriminate.
  - vm_compute. reflexivity.
  - intros H. apply In_mem in H.
    vm_compute in H. discriminate H.
Defined.

Lemma effect_with_plan params plan text v p :
  searchParams_get params (lit "plan") = Some plan -> plan <> [] ->
  atob plan = Ok text -> JSON_parse text = Some v -> truthy v = true ->
  form (effect params p) = revive_startDate v /\
  storage_reads (effect params p) = storage_reads p.
Proof.
  intros Hget Hne Hatob Hparse Ht. destruct plan as [|c plan]; [congruence|].
  unfold effect. rewrite (effect_load_plan _ _ _ _ Hget), Hatob, Hparse, Ht.
  destruct (truthy (get (revive_startDate v) (lit "destination"))).
  - rewrite (proj1 (begin_frame _ _)), (proj1 (proj2 (begin_frame _ _))). split; reflexivity.
  - split; reflexivity.
Qed.

(** What the properties of an object read after its text was parsed and
    its [startDate] revived. *)
Lemma revive_image_get props k :
  List.NoDup (List.map fst props) ->
  Forall (fun kx => fst kx = lit "startDate" \/ reloaded_value (snd kx) = snd kx) props ->
  (get (VObj props) (lit "startDate") = VUndefined \/
   exists t, valid_datetime t = true /\
             get (VObj props) (lit "startDate") = VDate (ValidDate t)) ->
  get (revive_startDate (VObj (json_image_props props))) k = get (VObj props) k.
Proof.
  intros Hnd Hstable Hdate.
  destruct (str_eqb k (lit "startDate")) eqn:Ek.
  - apply str_eqb_eq in Ek. subst k. unfold revive_startDate.
    rewrite get_image by assumption.
    destruct Hdate as [Hd|(t & Hvalid & Hd)]; rewrite Hd.
    + cbn [reloaded_value json_image truthy]. rewrite get_image, Hd by assumption.
      reflexivity.
    + unfold reloaded_value. cbn [json_image]. rewrite Hvalid.
      cbn [truthy]. rewrite toISOString_truthy.
      unfold set_prop. rewrite get_obj_set_same.
      cbn [new_Date]. now rewrite parse_date_toISOString.
  - apply str_eqb_neq in Ek.
    rewrite get_revive_other by assumption.
    rewrite get_image by assumption.
    apply (get_Forall_except (fun x => reloaded_value x = x) (lit "startDate"));
      [assumption | reflexivity | assumption].
Qed.

(** X5. The round trip of the shareable link, where it holds.  For a form
    that is an object of plain values under distinct keys, whose
    [startDate] is a valid date or is missing and whose other values are
    strings, whole numbers, booleans or [null], and under the three
    conditions of the link (no [?] in origin and path, a Latin-1 text, no
    [+] in its base64 form): the page that loads the link made by
    [handleShare] does not read the local storage, and every property of
    its form reads as in the form that was shared. *)
Theorem share_link_round_trip
  (loc : Location) (props : list (jsstring * value)) (p : Page) :
  ~ In 63 (origin loc ++ pathname loc) ->
  is_latin1 (JSON_stringify (VObj props)) = true ->
  ~ In 43 (b64_encode (JSON_stringify (VObj props))) ->
  forallb (fun kx => is_flat (snd kx)) props = true ->
  List.NoDup (List.map fst props) ->
  Forall (fun kx => fst kx = lit "startDate" \/ reloaded_value (snd kx) = snd kx) props ->
  (get (VObj props) (lit "startDate") = VUndefined \/
   exists t, valid_datetime t = true /\
             get (VObj props) (lit "startDate") = VDate (ValidDate t)) ->
  exists url params,
    share_url loc (VObj props) = Ok url /\
    URLSearchParams (url_query url) = Some params /\
    storage_reads (effect params p) = storage_reads p /\
    forall k, get (form (effect params p)) k = get (VObj props) k.
Proof.
  intros Hloc Hlatin Hplus Hflat Hnd Hstable Hdate.
  destruct (plan_of_share_url loc (VObj props) Hloc Hlatin Hplus)
    as (url & plan & Hurl & Hparams & Hne & Hatob).
  exists url, [(lit "plan", plan)].
  pose proof (JSON_parse_stringify_flat props Hflat Hnd) as Hparse.
  destruct (effect_with_plan [(lit "plan", plan)] plan _ _ p eq_refl Hne Hatob Hparse eq_refl)
    as [Hform Hreads].
  repeat split; try assumption.
  intros k. rewrite Hform. now apply revive_image_get.
Qed.

Lemma share_link_round_trip_witness :
  exists url params,
    share_url sample_location (VObj (own_props (sample_values (lit "Goa")))) = Ok url /\
    URLSearchParams (url_query url) = Some params /\
    storage_reads (effect params (mount ∅)) = storage_reads (mount ∅) /\
    forall k, get (form (effect params (mount ∅))) k
              = get (VObj (own_props (sample_values (lit "Goa")))) k.
Proof.
  apply (share_link_round_trip sample_location (own_props (sample_values (lit "Goa")))
           (mount ∅)).
  - intros H. vm_compute in H. intuition discriminate.
  - vm_compute. reflexivity.
  - intros H. apply In_mem in H.
    vm_compute in H. discriminate H.
  - reflexivity.
  - apply distinct_NoDup. vm_compute. reflexivity.
  - repeat (apply Forall_cons; [first [left; reflexivity | right; reflexivity]|]).
    apply Forall_nil.
  - right. exists sample_date. split; reflexivity.
Defined.

(** ** [handleShare] outside Latin-1 *)

Lemma escape_char_plain c :
  255 < c -> escape_char c = [c].
Proof.
  intros H. unfold escape_char.
  repeat match goal with
         | |- context [?x =? ?y] =>
             replace (x =? y) with false by (symmetry; apply N.eqb_neq; lia)
         end.
  replace (c <? 32) with false by (symmetry; apply N.ltb_ge; lia).
  reflexivity.
Qed.

(** A code unit above 255 that is not a surrogate stays in the quoted
    text. *)
Lemma quote_body_keeps c s :
  In c s -> 255 < c -> is_high_surrogate c = false -> is_low_surrogate c = false ->
  In c (quote_body s).
Proof.
  intros Hin Hc Hh Hl.
  remember (List.length s) as n eqn:Hn. revert s Hn Hin.
  induction n as [n IH] using lt_wf_ind. intros s Hn Hin.
  destruct s as [|x s]; [contradiction|].
  cbn [quote_body].
  destruct (is_high_surrogate x) eqn:Ex.
  - assert (c <> x) by congruence.
    destruct Hin as [->|Hin]; [congruence|].
    destruct s as [|d s]; [contradiction|].
    destruct (is_low_surrogate d) eqn:Ed.
    + assert (c <> d) by congruence.
      destruct Hin as [->|Hin]; [congruence|].
      right. right. apply (IH (List.length s)); [simpl in Hn; lia | reflexivity | assumption].
    + apply in_or_app. right.
      apply (IH (List.length (d :: s))); [simpl in Hn |- *; lia | reflexivity | assumption].
  - destruct (is_low_surrogate x) eqn:Ex'.
    + destruct Hin as [->|Hin]; [congruence|].
      apply in_or_app. right.
      apply (IH (List.length s)); [simpl in Hn; lia | reflexivity | assumption].
    + apply in_or_app. destruct Hin as [->|Hin].
      * left. rewrite escape_char_plain by assumption. now left.
      * right. apply (IH (List.length s)); [simpl in Hn; lia | reflexivity | assumption].
Qed.

Lemma In_join_comma c x l : In c x -> In x l -> In c (join_comma l).
Proof.
  intros Hc. induction l as [|y l IH]; intros Hx; [contradiction|].
  destruct l as [|z l].
  - destruct Hx as [->|[]]. assumption.
  - rewrite join_comma_cons. apply in_or_app.
    destruct Hx as [->|Hx]; [now left|].
    right. right. now apply IH.
Qed.

Lemma btoa_throws s c :
  In c s -> 255 < c ->
  btoa s = Throw {| err_name := lit "InvalidCharacterError"; err_message := None |}.
Proof.
  intros Hin Hc. unfold btoa.
  destruct (forallb (fun c => c <=? 255) s) eqn:E; [|reflexivity].
  rewrite forallb_forall in E. specialize (E c Hin). apply N.leb_le in E. lia.
Qed.

(** X6. [handleShare] throws, and makes no link, as soon as one property of
    the form is a string that holds a code unit above 255 outside the
    surrogates. *)
Theorem handleShare_throws_outside_latin1
  (loc : Location) (p : Page) (props : list (jsstring * value))
  (k s : jsstring) (c : N) :
  form p = VObj props ->
  In (k, VStr s) props ->
  In c s -> 255 < c -> is_high_surrogate c = false -> is_low_surrogate c = false ->
  handleShare loc p
  = Throw {| err_name := lit "InvalidCharacterError"; err_message := None |} /\
  step (Share loc) p = p.
Proof.
  intros Hform Hk Hin Hc Hh Hl.
  assert (Hthrow : handleShare loc p
                   = Throw {| err_name := lit "InvalidCharacterError"; err_message := None |}).
  { unfold handleShare, share_url. rewrite Hform.
    rewrite (btoa_throws _ c); [reflexivity | | assumption].
    unfold JSON_stringify. rewrite stringify_obj.
    right. apply in_or_app. left.
    apply (In_join_comma c (quote k ++ 58 :: quote s)).
    - apply in_or_app. right. right. unfold quote. right.
      apply in_or_app. left. now apply quote_body_keeps.
    - apply in_flat_map. exists (k, VStr s). split; [assumption|].
      cbn [snd fst stringify]. now left. }
  split; [assumption|]. cbn [step]. now rewrite Hthrow.
Qed.

Lemma handleShare_throws_outside_latin1_witness :
  step (Share sample_location) (form_reset (sample_values tokyo) (mount ∅))
  = form_reset (sample_values tokyo) (mount ∅).
Proof.
  refine (proj2 (handleShare_throws_outside_latin1 sample_location
                   (form_reset (sample_values tokyo) (mount ∅))
                   (own_props (sample_values tokyo)) (lit "destination") tokyo 26481
                   eq_refl _ _ _ eq_refl eq_refl)).
  - now left.
  - now left.
  - reflexivity.
Defined.

(** ** The two schemas together *)

Lemma input_schema_eq (v : value) :
  GeneratePersonalizedItineraryInputSchema v
  = if preferences_shape v then Some (parsed_preferences v) else None.
Proof.
  unfold GeneratePersonalizedItineraryInputSchema, z_object, preferences_shape,
    parsed_preferences.
  destruct v; try reflexivity.
  change (is_object (VObj props)) with true. rewrite andb_true_l.
  set (v := VObj props).
  rewrite (parse_shape_required _ _ _ v is_string (fun x => x) z_string_spec is_string_defined).
  rewrite (parse_shape_required _ _ _ v is_string (fun x => x) z_string_spec is_string_defined).
  rewrite (parse_shape_required _ _ _ v _ _ days_schema_spec)
    by (intros; apply or_default_defined; discriminate).
  rewrite (parse_shape_required _ _ _ v _ _
             (fun x y => z_enum_default_spec (lit "Medium") BUDGETS x y eq_refl))
    by (intros; apply or_default_defined; discriminate).
  rewrite (parse_shape_required _ _ _ v _ _ travelers_schema_spec)
    by (intros; apply or_default_defined; discriminate).
  rewrite (parse_shape_required _ _ _ v is_string (fun x => x) z_string_spec is_string_defined).
  rewrite (parse_shape_required _ _ _ v _ _
             (fun x y => z_enum_default_spec (lit "Balanced") PACES x y eq_refl))
    by (intros; apply or_default_defined; discriminate).
  rewrite !parse_shape_optional.
  cbn [parse_shape].
  repeat match goal with
         | |- context [if ?b then _ else None] =>
             lazymatch b with
             | context [andb] => fail
             | _ => destruct b; [| rewrite ?andb_false_r; reflexivity]
             end
         end.
  simpl andb. cbn [option_map app]. rewrite app_nil_r. reflexivity.
Qed.

Lemma get_no_key v k : has_key v k = false -> get v k = VUndefined.
Proof.
  destruct v; simpl; try reflexivity.
  destruct (obj_lookup props k); [discriminate | reflexivity].
Qed.

(** The properties of the object both schemas return. *)
Lemma get_parsed_form v :
  get (VObj (parsed_form v)) (lit "destination") = get v (lit "destination") /\
  get (VObj (parsed_form v)) (lit "startDate") = get v (lit "startDate") /\
  get (VObj (parsed_form v)) (lit "days") = or_default (VNum (Int 3)) (get v (lit "days")) /\
  get (VObj (parsed_form v)) (lit "budget")
  = or_default (VStr (lit "Medium")) (get v (lit "budget")) /\
  get (VObj (parsed_form v)) (lit "travelers")
  = or_default (VNum (Int 2)) (get v (lit "travelers")) /\
  get (VObj (parsed_form v)) (lit "interests") = get v (lit "interests") /\
  get (VObj (parsed_form v)) (lit "pace")
  = or_default (VStr (lit "Balanced")) (get v (lit "pace")) /\
  get (VObj (parsed_form v)) (lit "mustInclude") = get v (lit "mustInclude") /\
  get (VObj (parsed_form v)) (lit "avoid") = get v (lit "avoid") /\
  get (VObj (parsed_form v)) (lit "notes") = get v (lit "notes") /\
  has_key (VObj (parsed_form v)) (lit "mustInclude") = has_key v (lit "mustInclude") /\
  has_key (VObj (parsed_form v)) (lit "avoid") = has_key v (lit "avoid") /\
  has_key (VObj (parsed_form v)) (lit "notes") = has_key v (lit "notes").
Proof.
  unfold parsed_form, optional_prop.
  destruct (has_key v (lit "mustInclude")) eqn:E1;
    destruct (has_key v (lit "avoid")) eqn:E2;
    destruct (has_key v (lit "notes")) eqn:E3;
    try (apply get_no_key in E1; rewrite E1);
    try (apply get_no_key in E2; rewrite E2);
    try (apply get_no_key in E3; rewrite E3);
    repeat split; reflexivity.
Qed.

Lemma or_default_or_default d x : d <> VUndefined -> or_default d (or_default d x) = or_default d x.
Proof. intros Hd. destruct x; try reflexivity. destruct d; [congruence | reflexivity..]. Qed.

Lemma shape_or_default (c : value -> bool) d x :
  c d = true -> (is_absent x || c x) = true ->
  (is_absent (or_default d x) || c (or_default d x)) = true.
Proof.
  intros Hd Hx. destruct x; simpl in *; try assumption.
  rewrite Hd. apply orb_true_r.
Qed.

Lemma parsed_preferences_form v : parsed_preferences v = VObj (parsed_form v).
Proof. reflexivity. Qed.

Lemma preferences_shape_parsed v :
  preferences_shape v = true -> preferences_shape (parsed_preferences v) = true.
Proof.
  unfold preferences_shape. intros H.
  repeat (apply andb_true_iff in H as [H ?]).
  rewrite parsed_preferences_form.
  destruct (get_parsed_form v)
    as (-> & -> & -> & -> & -> & -> & -> & -> & -> & -> & _).
  repeat (apply andb_true_iff; split); try assumption; try reflexivity.
  - now apply (shape_or_default (is_number_between 1 21)).
  - now apply (shape_or_default (is_one_of BUDGETS)).
  - now apply (shape_or_default (is_number_at_least 1)).
  - now apply (shape_or_default (is_one_of PACES)).
Qed.

Lemma parsed_preferences_parsed v :
  parsed_preferences (parsed_preferences v) = parsed_preferences v.
Proof.
  rewrite (parsed_preferences_form v).
  unfold parsed_preferences at 1. unfold optional_prop.
  destruct (get_parsed_form v)
    as (-> & -> & -> & -> & -> & -> & -> & -> & -> & -> & -> & -> & ->).
  rewrite !or_default_or_default by discriminate. reflexivity.
Qed.

(** X13. What the input schema returns, it accepts and returns unchanged. *)
Theorem input_schema_idempotent (v out : value) :
  GeneratePersonalizedItineraryInputSchema v = Some out ->
  GeneratePersonalizedItineraryInputSchema out = Some out.
Proof.
  rewrite input_schema_eq. destruct (preferences_shape v) eqn:E; [|discriminate].
  intros [= <-]. rewrite input_schema_eq, (preferences_shape_parsed v E).
  now rewrite parsed_preferences_parsed.
Qed.

Lemma input_schema_idempotent_witness :
  GeneratePersonalizedItineraryInputSchema
    (parsed_preferences
       (VObj [(lit "destination", VStr (lit "Goa"));
              (lit "startDate", VStr (lit "2025-01-15"));
              (lit "interests", VStr (lit "Food"));
              (lit "extra", VNull)]))
  = Some (parsed_preferences
            (VObj [(lit "destination", VStr (lit "Goa"));
                   (lit "startDate", VStr (lit "2025-01-15"));
                   (lit "interests", VStr (lit "Food"));
                   (lit "extra", VNull)])).
Proof.
  apply (input_schema_idempotent
           (VObj [(lit "destination", VStr (lit "Goa"));
                  (lit "startDate", VStr (lit "2025-01-15"));
                  (lit "interests", VStr (lit "Food"));
                  (lit "extra", VNull)])).
  vm_compute. reflexivity.
Defined.

Lemma nonempty_is_string x : is_nonempty_string x = true -> is_string x = true.
Proof. destruct x; simpl; congruence. Qed.

Lemma form_data_action_input (raw data : value) :
  formSchema raw = Some data ->
  exists t input,
    get data (lit "startDate") = VDate (ValidDate t) /\
    valid_datetime t = true /\
    action_input data = Ok input /\
    get input (lit "startDate") = VStr (format_yyyy_MM_dd t) /\
    (forall k, k <> lit "startDate" -> get input k = get data k) /\
    GeneratePersonalizedItineraryInputSchema input = Some (parsed_preferences input).
Proof.
  rewrite formSchema_spec. destruct (form_shape raw) eqn:Hshape; [|discriminate].
  intros [= <-]. unfold form_shape in Hshape.
  repeat (apply andb_true_iff in Hshape as [Hshape ?]).
  pose proof (get_parsed_form raw)
    as (Hdest & Hsd & Hdays & Hbudget & Htrav & Hints & Hpace & Hmust & Havoid & Hnotes & _).
  destruct (get raw (lit "startDate")) as [| | | | |[|t]| |] eqn:Eraw; try discriminate.
  assert (Hvalid : valid_datetime t = true) by assumption.
  exists t, (VObj (obj_set (parsed_form raw) (lit "startDate") (VStr (format_yyyy_MM_dd t)))).
  assert (Hother : forall k, k <> lit "startDate" ->
            get (VObj (obj_set (parsed_form raw) (lit "startDate")
                         (VStr (format_yyyy_MM_dd t)))) k
            = get (VObj (parsed_form raw)) k).
  { intros k Hk. apply get_obj_set_other. congruence. }
  split; [assumption|]. split; [assumption|].
  split.
  { unfold action_input. rewrite Hsd. unfold format_date. cbn [new_Date].
    now rewrite Hvalid. }
  split; [apply get_obj_set_same|].
  split; [assumption|].
  rewrite input_schema_eq.
  assert (Hok : preferences_shape
                  (VObj (obj_set (parsed_form raw) (lit "startDate")
                           (VStr (format_yyyy_MM_dd t)))) = true).
  { unfold preferences_shape.
    rewrite get_obj_set_same.
    rewrite !Hother by discriminate.
    rewrite Hdest, Hdays, Hbudget, Htrav, Hints, Hpace, Hmust, Havoid, Hnotes.
    repeat (apply andb_true_iff; split); try assumption; try reflexivity.
    - now apply nonempty_is_string.
    - now apply (shape_or_default (is_number_between 1 21)).
    - now apply (shape_or_default (is_one_of BUDGETS)).
    - now apply (shape_or_default (is_number_at_least 1)).
    - now apply nonempty_is_string.
    - now apply (shape_or_default (is_one_of PACES)). }
  now rewrite Hok.
Qed.

(** X7. What the form schema lets through, the input schema of the flow
    accepts: for the data the resolver returns, [generateItinerary] builds
    the argument of the action without throwing, the argument differs from
    the data in [startDate] alone, now the date as [yyyy-MM-dd], and the
    input schema accepts it. *)
Theorem submitted_data_passes_input_schema (raw data : value) :
  formSchema raw = Some data ->
  exists t input,
    get data (lit "startDate") = VDate (ValidDate t) /\
    valid_datetime t = true /\
    action_input data = Ok input /\
    get input (lit "startDate") = VStr (format_yyyy_MM_dd t) /\
    (forall k, k <> lit "startDate" -> get input k = get data k) /\
    GeneratePersonalizedItineraryInputSchema input = Some (parsed_preferences input).
Proof. apply form_data_action_input. Qed.

Lemma submitted_data_passes_input_schema_witness :
  exists t input,
    get (VObj (parsed_form (sample_values (lit "Goa")))) (lit "startDate")
    = VDate (ValidDate t) /\
    valid_datetime t = true /\
    action_input (VObj (parsed_form (sample_values (lit "Goa")))) = Ok input /\
    get input (lit "startDate") = VStr (format_yyyy_MM_dd t) /\
    (forall k, k <> lit "startDate" ->
               get input k = get (VObj (parsed_form (sample_values (lit "Goa")))) k) /\
    GeneratePersonalizedItineraryInputSchema input = Some (parsed_preferences input).
Proof.
  apply (submitted_data_passes_input_schema (sample_values (lit "Goa"))).
  vm_compute. reflexivity.
Defined.

(** ** From the submission to the display *)

(** X8. A submission that the form schema let through, made while no request
    is in flight, raises the flag, empties the itinerary and puts one call
    in flight, whose argument is the data with the date formatted; and
    when the flow returns an output for that argument, the page that
    receives the result of the action shows that output, takes the flag
    down, has no call in flight and shows no new toast. *)
Theorem successful_generation_is_displayed
  (raw data : value) (p : Page) (B : Backend) (w : Server) (o : Output) :
  formSchema raw = Some data ->
  loading p = false -> in_flight p = [] ->
  exists input,
    action_input data = Ok input /\
    in_flight (step (Submit data) p) = [input] /\
    loading (step (Submit data) p) = true /\
    itinerary (step (Submit data) p) = None /\
    (fst (generatePersonalizedItinerary B input w) = Ok o ->
     itinerary (step (Settle 0 (fst (await_action B input w))) (step (Submit data) p))
     = Some o /\
     loading (step (Settle 0 (fst (await_action B input w))) (step (Submit data) p))
     = false /\
     in_flight (step (Settle 0 (fst (await_action B input w))) (step (Submit data) p))
     = [] /\
     toasts (step (Settle 0 (fst (await_action B input w))) (step (Submit data) p))
     = toasts p).
Proof.
  intros Hdata Hl Hfl.
  destruct (form_data_action_input raw data Hdata)
    as (t & input & _ & _ & Hinput & _ & _ & _).
  exists input.
  assert (Hbegin : step (Submit data) p
                   = set_in_flight [input]
                       (localStorage_setItem LAST_INPUT (JSON_stringify data)
                          (setItinerary None (setLoading true p)))).
  { cbn [step]. rewrite Hl. unfold generateItinerary_begin. rewrite Hinput.
    cbn [in_flight localStorage_setItem setItinerary setLoading]. now rewrite Hfl. }
  split; [exact Hinput|].
  split; [now rewrite Hbegin|].
  split; [now rewrite Hbegin|].
  split; [now rewrite Hbegin|].
  intros Ho.
  assert (Hawait : fst (await_action B input w) = Fulfilled (Generated o)).
  { unfold await_action, generateItineraryAction, try_catch, bind.
    destruct (generatePersonalizedItinerary B input w) as [[o'|e] w']; simpl in Ho.
    - injection Ho as ->. reflexivity.
    - discriminate. }
  rewrite Hawait, Hbegin. repeat split.
Qed.

Lemma successful_generation_is_displayed_witness :
  let B := {| prompt := fun _ _ => Ok sample_output;
              schema_error := schema_error failing_backend |} in
  let data := VObj (parsed_form (sample_values (lit "Goa"))) in
  exists input,
    in_flight (step (Submit data) (mount ∅)) = [input] /\
    itinerary (step (Settle 0 (fst (await_action B input idle_server)))
                 (step (Submit data) (mount ∅)))
    = Some sample_output.
Proof.
  intros B data.
  destruct (successful_generation_is_displayed (sample_values (lit "Goa"))
              data (mount ∅) B idle_server sample_output
              ltac:(vm_compute; reflexivity) eq_refl eq_refl)
    as (input & Hinput & Hfl & _ & _ & Hshow).
  exists input. split; [exact Hfl|].
  apply Hshow.
  vm_compute in Hinput. injection Hinput as <-.
  vm_compute. reflexivity.
Defined.

(** X9. An input that the input schema rejects costs no call of the prompt:
    the action returns the error object made from the validation error,
    which it logs, and the list of the calls of the prompt is as it was. *)
Theorem invalid_input_makes_no_model_call (B : Backend) (input : value) (w : Server) :
  GeneratePersonalizedItineraryInputSchema input = None ->
  generateItineraryAction B input w
  = (Ok (ErrorObject (lit "Failed to generate itinerary: "
                      ++ message_or_unknown (schema_error B input))),
     {| flow_calls := flow_calls w ++ [input];
        prompt_calls := prompt_calls w;
        server_console := server_console w ++ [schema_error B input] |}).
Proof.
  intros H. unfold generateItineraryAction, try_catch, bind,
    generatePersonalizedItinerary, bind, log_flow_call,
    generatePersonalizedItineraryFlow. rewrite H. reflexivity.
Qed.

Lemma invalid_input_makes_no_model_call_witness :
  prompt_calls
    (snd (generateItineraryAction failing_backend
            (VObj [(lit "destination", VStr (lit "Goa")); (lit "days", VNum (Int 40))])
            idle_server)) = [].
Proof.
  rewrite (invalid_input_makes_no_model_call failing_backend
             (VObj [(lit "destination", VStr (lit "Goa")); (lit "days", VNum (Int 40))])
             idle_server eq_refl).
  reflexivity.
Defined.

(** ** The flag and the itinerary *)

Lemma begin_loading_itinerary data p :
  loading (generateItinerary_begin data p) = true ->
  itinerary (generateItinerary_begin data p) = None.
Proof. intros _. apply begin_itinerary. Qed.

Lemma step_loading_itinerary e p :
  (loading p = true -> itinerary p = None) ->
  loading (step e p) = true -> itinerary (step e p) = None.
Proof.
  intros Hp. destruct e as [params|data|n s|loc| |interest]; cbn [step].
  - unfold effect. pose proof (effect_load_frame params p) as H. simpl in H.
    destruct (effect_load params p) as [p' [data|]]; simpl in *.
    + intros _. apply begin_itinerary.
    + destruct H as (_ & Hl & Hi & _). rewrite Hl, Hi. exact Hp.
  - destruct (loading p) eqn:Hl; [intros _; now apply Hp|].
    intros _. apply begin_itinerary.
  - destruct (n <? List.length (in_flight p))%nat; [|exact Hp].
    rewrite resume_loading. discriminate.
  - unfold handleShare. destruct (share_url loc (form p)); exact Hp.
  - reflexivity.
  - unfold page_toggleInterest. destruct (get (form p) (lit "interests")); exact Hp.
Qed.

Lemma run_loading_itinerary events p :
  (loading p = true -> itinerary p = None) ->
  loading (run events p) = true -> itinerary (run events p) = None.
Proof.
  revert p. induction events as [|e events IH]; intros p Hp; [exact Hp|].
  simpl. apply IH. now apply step_loading_itinerary.
Qed.

(** X10. Whatever happens on the page, the itinerary is empty while the flag
    is up: [generateItinerary] empties it when it raises the flag, a result
    is stored only in the step that takes the flag down, and nothing else
    touches the two. *)
Theorem no_itinerary_while_loading
  (storage : gmap jsstring jsstring) (events : list Event) :
  loading (run events (mount storage)) = true ->
  itinerary (run events (mount storage)) = None.
Proof. apply run_loading_itinerary. discriminate. Qed.

Lemma no_itinerary_while_loading_witness :
  itinerary (run [Submit (VObj (parsed_form (sample_values (lit "Goa"))));
                  Settle 0 (Fulfilled (Generated sample_output));
                  RunEffect [(lit "plan", sample_plan)]]
               (mount ∅)) = None.
Proof.
  apply (no_itinerary_while_loading ∅).
  vm_compute. reflexivity.
Defined.

(** ** [handleClear] *)

(** X11. After Clear, the next visit without a [plan] parameter finds nothing
    to load: the storage is read, the form is at its default values, no
    request starts and nothing is shown or logged. *)
Theorem clear_then_visit (p : Page) (params : list (jsstring * jsstring)) :
  searchParams_get params (lit "plan") = None ->
  effect params (mount (localStorage (handleClear p)))
  = snd (localStorage_getItem LAST_INPUT (mount (localStorage (handleClear p)))).
Proof.
  intros Hplan. unfold effect, effect_load, effect_read. rewrite Hplan.
  unfold localStorage_getItem. cbn [localStorage mount handleClear localStorage_removeItem
    setItinerary form_reset].
  rewrite lookup_delete_eq. reflexivity.
Qed.

Lemma clear_then_visit_witness :
  form (effect [] (mount (localStorage
                            (handleClear
                               (run [Submit (sample_values (lit "Goa"))] (mount ∅))))))
  = defaultValues.
Proof.
  rewrite (clear_then_visit (run [Submit (sample_values (lit "Goa"))] (mount ∅)) [] eq_refl).
  reflexivity.
Defined.

(** X12. Clear does not cancel a request: the call stays in flight with the
    flag up, and when it settles with an output the output is shown, over
    a form that is at its default values and a storage without the saved
    record. *)
Theorem clear_keeps_request (p : Page) (input : value) (rest : list value) (o : Output) :
  in_flight p = input :: rest ->
  in_flight (step Clear p) = in_flight p /\
  loading (step Clear p) = loading p /\
  localStorage (step Clear p) !! LAST_INPUT = None /\
  itinerary (run [Clear; Settle 0 (Fulfilled (Generated o))] p) = Some o /\
  form (run [Clear; Settle 0 (Fulfilled (Generated o))] p) = defaultValues.
Proof.
  intros Hp. split; [reflexivity|]. split; [reflexivity|].
  split; [apply lookup_delete_eq|].
  cbn [run fold_left step handleClear localStorage_removeItem setItinerary form_reset
       in_flight].
  rewrite Hp. split; reflexivity.
Qed.

Lemma clear_keeps_request_witness :
  itinerary (run [Clear; Settle 0 (Fulfilled (Generated sample_output))]
               (run [Submit (sample_values (lit "Goa"))] (mount ∅)))
  = Some sample_output.
Proof.
  refine (proj1 (proj2 (proj2 (proj2
            (clear_keeps_request (run [Submit (sample_values (lit "Goa"))] (mount ∅))
               _ [] sample_output _))))).
  vm_compute. reflexivity.
Defined.

(** ** The effect at load: what there is to load *)

Lemma effect_read_no_plan params p :
  searchParams_get params (lit "plan") = None \/
  searchParams_get params (lit "plan") = Some [] ->
  effect_read params p
  = match localStorage p !! LAST_INPUT with
    | Some (c :: saved) =>
        match JSON_parse (c :: saved) with
        | Some v => (v, snd (localStorage_getItem LAST_INPUT p))
        | None =>
            (VNull, page_console_error (lit "Failed to parse plan from localStorage")
                      (snd (localStorage_getItem LAST_INPUT p)))
        end
    | _ => (VNull, snd (localStorage_getItem LAST_INPUT p))
    end.
Proof.
  intros [H|H]; unfold effect_read; rewrite H; unfold localStorage_getItem;
    destruct (localStorage p !! LAST_INPUT) as [[|c saved]|]; try reflexivity;
    destruct (JSON_parse (c :: saved)); reflexivity.
Qed.

(** X14. Without a [plan] parameter (or with an empty one), a storage without
    the saved record, or with an empty one, leaves the page as it was, the
    one read apart; a saved text that is not JSON leaves one line on the
    console, and nothing else. *)
Theorem saved_record_missing_or_malformed
  (params : list (jsstring * jsstring)) (p : Page) :
  searchParams_get params (lit "plan") = None \/
  searchParams_get params (lit "plan") = Some [] ->
  (localStorage p !! LAST_INPUT = None \/ localStorage p !! LAST_INPUT = Some [] ->
   effect params p = snd (localStorage_getItem LAST_INPUT p)) /\
  (forall text,
     localStorage p !! LAST_INPUT = Some text -> text <> [] -> JSON_parse text = None ->
     effect params p
     = page_console_error (lit "Failed to parse plan from localStorage")
         (snd (localStorage_getItem LAST_INPUT p))).
Proof.
  intros Hplan. split.
  - intros Hst. unfold effect, effect_load. rewrite (effect_read_no_plan _ _ Hplan).
    unfold jsstring in *. destruct Hst as [-> | ->]; reflexivity.
  - intros text Hst Hne Hparse. unfold effect, effect_load.
    rewrite (effect_read_no_plan _ _ Hplan). unfold jsstring in *. rewrite Hst.
    destruct text as [|c text]; [congruence|]. rewrite Hparse. reflexivity.
Qed.

Lemma saved_record_missing_or_malformed_witness :
  effect [] (mount {[ LAST_INPUT := lit "{destination" ]})
  = page_console_error (lit "Failed to parse plan from localStorage")
      (snd (localStorage_getItem LAST_INPUT (mount {[ LAST_INPUT := lit "{destination" ]}))).
Proof.
  refine (proj2 (saved_record_missing_or_malformed []
                   (mount {[ LAST_INPUT := lit "{destination" ]}) (or_introl eq_refl))
            (lit "{destination") _ _ _).
  - vm_compute. reflexivity.
  - discriminate.
  - vm_compute. reflexivity.
Defined.

(** X15. A link whose record has a destination and no date: the form is reset
    to the record, [generateItinerary] is called, the record is saved over
    the one in the storage, and the formatting of the date throws before
    the call; the error toast is shown, the flag is down and no call is in
    flight. *)
Theorem link_without_date
  (params : list (jsstring * jsstring)) (plan text : jsstring)
  (props : list (jsstring * value)) (p : Page) :
  searchParams_get params (lit "plan") = Some plan ->
  atob plan = Ok text ->
  JSON_parse text = Some (VObj props) ->
  truthy (get (VObj props) (lit "destination")) = true ->
  get (VObj props) (lit "startDate") = VUndefined ->
  effect params p
  = setLoading false
      (toast unexpected_error_toast
         (localStorage_setItem LAST_INPUT (JSON_stringify (VObj props))
            (setItinerary None (setLoading true (form_reset (VObj props) p))))).
Proof.
  intros Hget Hatob Hparse Hdest Hdate.
  destruct plan as [|c plan].
  { vm_compute in Hatob. injection Hatob as <-. vm_compute in Hparse. discriminate. }
  assert (Hrev : revive_startDate (VObj props) = VObj props).
  { unfold revive_startDate. now rewrite Hdate. }
  unfold effect. rewrite (effect_load_plan _ _ _ _ Hget), Hatob, Hparse.
  cbn [truthy]. rewrite Hrev, Hdest.
  unfold generateItinerary_begin, action_input. rewrite Hdate. reflexivity.
Qed.

Lemma link_without_date_witness :
  toasts (effect [(lit "plan", lit "eyJkZXN0aW5hdGlvbiI6IkdvYSJ9")] (mount ∅))
  = [unexpected_error_toast].
Proof.
  rewrite (link_without_date [(lit "plan", lit "eyJkZXN0aW5hdGlvbiI6IkdvYSJ9")]
             (lit "eyJkZXN0aW5hdGlvbiI6IkdvYSJ9")
             (JSON_stringify (VObj [(lit "destination", VStr (lit "Goa"))]))
             [(lit "destination", VStr (lit "Goa"))] (mount ∅)
             eq_refl).
  - reflexivity.
  - vm_compute. reflexivity.
  - vm_compute. reflexivity.
  - reflexivity.
  - reflexivity.
Defined.

(** ** The effect at load: a link that decodes *)

Lemma has_key_false_get props k :
  has_key (VObj props) k = false -> get (VObj props) k = VUndefined.
Proof. simpl. destruct (obj_lookup props k); [discriminate | reflexivity]. Qed.

(** A call of [generateItinerary] leaves a mark on the page: a call in
    flight, or the toast of the exception. *)
Lemma begin_changes_page data p : generateItinerary_begin data p <> p.
Proof.
  intros E.
  destruct (begin_in_flight data p) as [(i & _ & Hi & _)|(e & He & _ & _)].
  - rewrite E in Hi. apply (f_equal (@List.length value)) in Hi.
    rewrite length_app in Hi. simpl in Hi. lia.
  - unfold generateItinerary_begin in E. rewrite He in E.
    apply (f_equal toasts) in E. simpl in E.
    apply (f_equal (@List.length Toast)) in E.
    rewrite length_app in E. simpl in E. lia.
Qed.

(** The effect on a [plan] parameter that decodes to an object. *)
Lemma effect_plan_object params plan text props p :
  searchParams_get params (lit "plan") = Some plan ->
  atob plan = Ok text ->
  JSON_parse text = Some (VObj props) ->
  effect params p
  = if truthy (get (VObj props) (lit "destination"))
    then generateItinerary_begin (revive_startDate (VObj props))
           (form_reset (revive_startDate (VObj props)) p)
    else form_reset (revive_startDate (VObj props)) p.
Proof.
  intros Hget Hatob Hparse.
  destruct plan as [|c plan].
  { vm_compute in Hatob. injection Hatob as <-. vm_compute in Hparse. discriminate. }
  unfold effect. rewrite (effect_load_plan _ _ _ _ Hget), Hatob, Hparse.
  cbn [truthy]. rewrite get_revive_other by discriminate.
  destruct (truthy (get (VObj props) (lit "destination"))); reflexivity.
Qed.

(** C8. On a load whose [plan] parameter decodes to an object, the form
    holds after the effect every property of that object: each one as it
    was decoded, and [startDate], when it is truthy, as a [Date], which is
    the date that [toISOString] wrote when the text is one that
    [toISOString] writes; a [startDate] that is not truthy is left as it
    is.  [generateItinerary] is called with the object, on the page whose
    form was reset, exactly when the [destination] of the object is
    truthy: for a destination that is a string, exactly when it is not
    empty, and never when the object has no destination.  When it is not
    called, the effect changes the form and nothing else. *)
Theorem plan_parameter_load
  (params : list (jsstring * jsstring)) (plan text : jsstring)
  (props : list (jsstring * value)) (p : Page) :
  searchParams_get params (lit "plan") = Some plan ->
  atob plan = Ok text ->
  JSON_parse text = Some (VObj props) ->
  let record := VObj props in
  let after := effect params p in
  let reset := form_reset (form after) p in
  (forall k, has_key record k = true -> k <> lit "startDate" ->
             get (form after) k = get record k) /\
  (truthy (get record (lit "startDate")) = false ->
   get (form after) (lit "startDate") = get record (lit "startDate")) /\
  (truthy (get record (lit "startDate")) = true ->
   exists d, get (form after) (lit "startDate") = VDate d) /\
  (forall t, valid_datetime t = true ->
             get record (lit "startDate") = VStr (toISOString t) ->
             get (form after) (lit "startDate") = VDate (ValidDate t)) /\
  (truthy (get record (lit "destination")) = true <->
   after = generateItinerary_begin (revive_startDate record) reset) /\
  (truthy (get record (lit "destination")) = false <-> after = reset) /\
  (forall s, get record (lit "destination") = VStr s ->
             (after = generateItinerary_begin (revive_startDate record) reset
              <-> s <> [])) /\
  (has_key record (lit "destination") = false -> after = reset).
Proof.
  intros Hget Hatob Hparse record after reset.
  pose proof (effect_plan_object _ _ _ _ p Hget Hatob Hparse) as Heff.
  fold record after in Heff.
  assert (Hform : form after = revive_startDate record).
  { rewrite Heff. destruct (truthy (get record (lit "destination"))); [|reflexivity].
    now rewrite (proj1 (proj2 (begin_frame _ _))). }
  assert (Hreset : reset = form_reset (revive_startDate record) p).
  { unfold reset. now rewrite Hform. }
  assert (Hcall : truthy (get record (lit "destination")) = true <->
                  after = generateItinerary_begin (revive_startDate record) reset).
  { rewrite Heff, Hreset.
    destruct (truthy (get record (lit "destination"))).
    - split; reflexivity.
    - split; [discriminate|]. intros E. symmetry in E.
      now apply begin_changes_page in E. }
  assert (Hnocall : truthy (get record (lit "destination")) = false <-> after = reset).
  { rewrite Heff, Hreset.
    destruct (truthy (get record (lit "destination"))).
    - split; [discriminate|]. intros E. now apply begin_changes_page in E.
    - split; reflexivity. }
  repeat apply conj.
  - intros k _ Hk. rewrite Hform. now apply get_revive_other.
  - intros Hd. rewrite Hform. unfold revive_startDate. now rewrite Hd.
  - intros Hd. rewrite Hform. unfold revive_startDate. rewrite Hd.
    eexists. unfold record, set_prop. apply get_obj_set_same.
  - intros t Hv Hd. rewrite Hform. unfold revive_startDate. rewrite Hd.
    cbn [truthy]. rewrite toISOString_truthy.
    unfold record, set_prop. rewrite get_obj_set_same.
    cbn [new_Date]. now rewrite parse_date_toISOString.
  - apply (proj1 Hcall).
  - apply (proj2 Hcall).
  - apply (proj1 Hnocall).
  - apply (proj2 Hnocall).
  - intros s Hs. split.
    + intros E. apply Hcall in E. rewrite Hs in E. destruct s; [discriminate | discriminate].
    + intros Hne. apply Hcall. rewrite Hs. destruct s; [congruence | reflexivity].
  - intros Hk. apply Hnocall. unfold record. now rewrite (has_key_false_get _ _ Hk).
Qed.

Lemma plan_parameter_load_witness :
  let params := [(lit "plan", sample_plan)] in
  get (form (effect params (mount ∅))) (lit "destination") = VStr (lit "Goa") /\
  get (form (effect params (mount ∅))) (lit "startDate") = VDate (ValidDate sample_date) /\
  List.length (in_flight (effect params (mount ∅))) = 1%nat.
Proof.
  intros params.
  destruct (plan_parameter_load params sample_plan
              (JSON_stringify (sample_values (lit "Goa")))
              (own_props
                 (default VNull (JSON_parse (JSON_stringify (sample_values (lit "Goa"))))))
              (mount ∅) eq_refl
              ltac:(vm_compute; reflexivity) ltac:(vm_compute; reflexivity))
    as (Hform & _ & _ & Hdate & Hcall & _).
  split; [|split].
  - rewrite Hform; [vm_compute; reflexivity | vm_compute; reflexivity | discriminate].
  - apply Hdate; vm_compute; reflexivity.
  - rewrite (proj1 Hcall); vm_compute; reflexivity.
Defined.

(** ** The one key of the local storage *)

Lemma effect_load_reads params p :
  storage_reads (fst (effect_load params p)) = storage_reads p \/
  storage_reads (fst (effect_load params p)) = storage_reads p ++ [LAST_INPUT].
Proof.
  unfold effect_load, effect_read.
  destruct (searchParams_get params (lit "plan")) as [[|c plan]|].
  2: { left. destruct (atob (c :: plan)) as [text|];
       [destruct (JSON_parse text) as [v|]|]; cbn [truthy]; try reflexivity.
       destruct (truthy v); [|reflexivity].
       destruct (truthy (get (revive_startDate v) (lit "destination"))); reflexivity. }
  all: right; unfold localStorage_getItem;
    destruct (localStorage p !! LAST_INPUT) as [[|c saved]|]; cbn [truthy];
    try reflexivity;
    destruct (JSON_parse (c :: saved)) as [v|]; cbn [truthy]; try reflexivity;
    destruct (truthy v); [|reflexivity];
    destruct (truthy (get (revive_startDate v) (lit "destination"))); reflexivity.
Qed.

Lemma step_one_key e p k :
  k <> LAST_INPUT ->
  localStorage (step e p) !! k = localStorage p !! k /\
  exists l, storage_reads (step e p) = storage_reads p ++ l /\
            Forall (fun x => x = LAST_INPUT) l.
Proof.
  intros Hk.
  assert (Hnil : exists l, storage_reads p = storage_reads p ++ l /\
                           Forall (fun x => x = LAST_INPUT) l).
  { exists []. split; [now rewrite app_nil_r | constructor]. }
  assert (Hbegin : forall data q,
            localStorage (generateItinerary_begin data q) !! k = localStorage q !! k /\
            storage_reads (generateItinerary_begin data q) = storage_reads q).
  { intros data q. destruct (begin_frame data q) as (Hr & _ & _ & Hs).
    rewrite Hs, Hr. split; [|reflexivity]. apply lookup_insert_ne.
    intros E. apply Hk. symmetry. exact E. }
  destruct e as [params|data|n s|loc| |interest]; cbn [step].
  - unfold effect. pose proof (effect_load_frame params p) as Hf. simpl in Hf.
    pose proof (effect_load_reads params p) as Hr.
    destruct (effect_load params p) as [p' [data|]]; simpl in *.
    + destruct (Hbegin data p') as [Hs Hr']. rewrite Hs, Hr'.
      destruct Hf as (_ & _ & _ & _ & -> & _). split; [reflexivity|].
      destruct Hr as [-> | ->]; [assumption|].
      exists [LAST_INPUT]. split; [reflexivity | repeat constructor].
    + destruct Hf as (_ & _ & _ & _ & -> & _). split; [reflexivity|].
      destruct Hr as [-> | ->]; [assumption|].
      exists [LAST_INPUT]. split; [reflexivity | repeat constructor].
  - destruct (loading p); [split; [reflexivity | assumption]|].
    destruct (Hbegin data p) as [Hs Hr]. rewrite Hs, Hr. split; [reflexivity | assumption].
  - destruct (n <? List.length (in_flight p))%nat; [|split; [reflexivity | assumption]].
    destruct s as [[o|err]|err]; (split; [reflexivity | assumption]).
  - unfold handleShare. destruct (share_url loc (form p));
      (split; [reflexivity | assumption]).
  - split; [|assumption]. cbn. apply lookup_delete_ne.
    intros E. apply Hk. symmetry. exact E.
  - unfold page_toggleInterest. destruct (get (form p) (lit "interests"));
      (split; [reflexivity | assumption]).
Qed.

(** X16. Whatever happens on the page, the local storage is written and read
    under the key [last_itinerary_input] alone: every other key holds
    what it held, and the reads added are reads of that key. *)
Theorem one_storage_key (events : list Event) (p : Page) (k : jsstring) :
  k <> LAST_INPUT ->
  localStorage (run events p) !! k = localStorage p !! k /\
  exists l, storage_reads (run events p) = storage_reads p ++ l /\
            Forall (fun x => x = LAST_INPUT) l.
Proof.
  intros Hk. revert p. induction events as [|e events IH]; intros p.
  - split; [reflexivity|]. exists []. split; [now rewrite app_nil_r | constructor].
  - simpl. destruct (IH (step e p)) as (Hs & l & Hl & Hall).
    destruct (step_one_key e p k Hk) as (Hs' & l' & Hl' & Hall').
    split; [congruence|]. exists (l' ++ l).
    split; [rewrite Hl, Hl'; now rewrite app_assoc | now apply Forall_app].
Qed.

Lemma one_storage_key_witness :
  localStorage (run [Submit (sample_values (lit "Goa")); Clear] (mount {[ lit "theme" := lit "dark" ]}))
    !! lit "theme"
  = ({[ lit "theme" := lit "dark" ]} : gmap jsstring jsstring) !! lit "theme".
Proof.
  refine (proj1 (one_storage_key [Submit (sample_values (lit "Goa")); Clear]
                   (mount {[ lit "theme" := lit "dark" ]}) (lit "theme") _)).
  discriminate.
Defined.

(** ** The effect and the flag *)

(** X17. The effect does not look at the flag: when the record it loads has a
    destination and a date, the call it starts joins the calls in flight,
    whatever their number; and the first call to settle takes the flag
    down while the others are still out. *)
Theorem effect_not_guarded_by_flag
  (params : list (jsstring * jsstring)) (p : Page) (data input : value) (s : Settlement) :
  snd (effect_load params p) = Some data ->
  action_input data = Ok input ->
  in_flight (effect params p) = in_flight p ++ [input] /\
  loading (effect params p) = true /\
  (in_flight p <> [] ->
   loading (step (Settle 0 s) (effect params p)) = false /\
   in_flight (step (Settle 0 s) (effect params p)) <> []).
Proof.
  intros Hload Hinput. unfold effect.
  pose proof (effect_load_frame params p) as Hf. simpl in Hf.
  destruct (effect_load params p) as [p' [d|]]; simpl in Hload; [|discriminate].
  injection Hload as ->. simpl in Hf. destruct Hf as (Hfl & _).
  unfold generateItinerary_begin. rewrite Hinput.
  cbn [in_flight loading set_in_flight localStorage_setItem setItinerary setLoading].
  rewrite Hfl. split; [reflexivity|]. split; [reflexivity|].
  intros Hne. cbn [step in_flight set_in_flight].
  destruct (in_flight p) as [|a rest]; [congruence|].
  cbn [app List.length Nat.ltb Nat.leb remove_nth].
  rewrite resume_loading, resume_in_flight. cbn [in_flight set_in_flight].
  split; [reflexivity|]. destruct rest; discriminate.
Qed.

Lemma effect_not_guarded_by_flag_witness :
  exists a b,
    in_flight (effect [(lit "plan", sample_plan)]
                 (run [Submit (sample_values (lit "Goa"))] (mount ∅))) = [a; b].
Proof.
  destruct (effect_not_guarded_by_flag [(lit "plan", sample_plan)]
              (run [Submit (sample_values (lit "Goa"))] (mount ∅))
              (match snd (effect_load [(lit "plan", sample_plan)]
                            (run [Submit (sample_values (lit "Goa"))] (mount ∅))) with
               | Some d => d
               | None => VNull
               end)
              (match action_input (sample_values (lit "Goa")) with
               | Ok i => i
               | Throw _ => VNull
               end)
              (Rejected {| err_name := lit "Error"; err_message := None |})
              ltac:(vm_compute; reflexivity) ltac:(vm_compute; reflexivity))
    as (H & _).
  eexists _, _. rewrite H. vm_compute. reflexivity.
Defined.
